(** * fhir-inspect: the paginated fetch loop, the structural profiler and
      the tree renderer of [fhir_inspect.py], embedded in Rocq.

    Python values are modelled as follows.
    - [int] is [Z] (unbounded), [str] is [string], [None]-able values are
      [option].
    - A [dict] is an association list in insertion order: assigning to a key
      that is present keeps the key's position, assigning to a new key
      appends it.  Iteration ([items()]) follows that order.
    - Exceptions are explicit: a procedure that can raise returns, next to
      the state it leaves behind, [Some e] when it raised [e].  In-place
      mutation is explicit state passing, so whatever was mutated before an
      exception is still visible in the state returned with it.
    - What a run does to its surroundings is kept in a [world]: the state
      of the server, the paths requested, the lines printed, the texts of
      the live display and the state of the sink.
    - [while True] is a loop with a bound on its passes, which returns
      [None] when the bound is used up; what is proved of a run that ends
      holds for every bound large enough. *)

From Stdlib Require Import String Ascii List ZArith Lia Bool.
From Stdlib Require Import Permutation Sorted DecimalString.
Import ListNotations.

Local Open Scope string_scope.
Local Open Scope list_scope.
Local Open Scope Z_scope.

Set Implicit Arguments.
Set Warnings "-register-all".

(** ** Exceptions *)

Inductive exn : Type :=
| FHIRValidationError            (* fhirclient: strict decoding failed *)
| TypeError
| KeyError
| ValueError
| AttributeError
| Exception (msg : string).      (* any other exception, by its message *)

(** ** Python dictionaries, in insertion order *)

Module Dict.
Section Ops.
Variable V : Type.

Definition t := list (string * V).

(** [d[k]] *)
Fixpoint get (k : string) (d : t) : option V :=
  match d with
  | [] => None
  | (k', v) :: d' => if String.eqb k k' then Some v else get k d'
  end.

(** [k in d] *)
Definition mem (k : string) (d : t) : bool :=
  match get k d with Some _ => true | None => false end.

(** [d[k] = v] *)
Fixpoint set (k : string) (v : V) (d : t) : t :=
  match d with
  | [] => [(k, v)]
  | (k', v') :: d' =>
      if String.eqb k k' then (k', v) :: d' else (k', v') :: set k v d'
  end.

(** [dict(pairs)] *)
Definition of_items (l : list (string * V)) : t :=
  fold_left (fun d kv => set (fst kv) (snd kv) d) l [].

Definition keys (d : t) : list string := map fst d.

(** An association list stands for a dictionary when no key is repeated. *)
Definition wf (d : t) : Prop := NoDup (keys d).
End Ops.
End Dict.

(** ** Strings *)

(** [s[:n]] for [n >= 0] *)
Fixpoint str_take (n : nat) (s : string) : string :=
  match n, s with
  | S n', String c s' => String c (str_take n' s')
  | _, _ => EmptyString
  end.

(** [s[n:]] for [n >= 0] *)
Fixpoint str_drop (n : nat) (s : string) : string :=
  match n, s with
  | S n', String _ s' => str_drop n' s'
  | _, _ => s
  end.

(** [s.lstrip("/")]: every leading slash goes. *)
Fixpoint lstrip_slash (s : string) : string :=
  match s with
  | String c s' => if Ascii.eqb c "/"%char then lstrip_slash s' else s
  | EmptyString => s
  end.

(** [s.split(sep)] for a non-empty [sep]: the scan goes left to right and a
    match consumes the separator, so matches never overlap.  [skip] counts
    the characters of a matched separator still to be passed over and [cur]
    holds the piece being read, reversed. *)
Fixpoint rev_string (acc : string) (s : string) : string :=
  match s with
  | EmptyString => acc
  | String c s' => rev_string (String c acc) s'
  end.

Fixpoint split_scan (sep : string) (skip : nat) (cur : string) (s : string)
  : list string :=
  match s with
  | EmptyString => [rev_string "" cur]
  | String c s' =>
      match skip with
      | S k => split_scan sep k cur s'
      | O =>
          if String.prefix sep s
          then rev_string "" cur :: split_scan sep (String.length sep - 1) "" s'
          else split_scan sep O (String c cur) s'
      end
  end.

(** [s.split(sep)]; an empty separator raises [ValueError]. *)
Definition py_split (sep s : string) : option (list string) :=
  match sep with
  | EmptyString => None
  | _ => Some (split_scan sep O "" s)
  end.

(** [str(n)] for an [int] *)
Definition str_of_int (n : Z) : string := NilZero.string_of_int (Z.to_int n).

(** ** JSON documents ([as_json()] output)

    A [float] is identified by its [repr]: the profiler reads nothing else
    off a number.  A character of a [string] is the code point of the same
    number. *)

Inductive json : Type :=
| JNull
| JBool (b : bool)
| JInt (n : Z)
| JFloat (repr : string)
| JStr (s : string)
| JList (l : list json)
| JDict (d : list (string * json)).

(** [repr] of a [str]: single quotes, unless the text has a single quote
    and no double quote; backslash, the quote in use, tab, newline and
    carriage return are escaped, other non-printable characters are written
    [\xhh]. *)
Definition quote1 : ascii := ascii_of_nat 39.
Definition quote2 : ascii := ascii_of_nat 34.
Definition backslash : ascii := ascii_of_nat 92.

Definition hex_digit (n : nat) : ascii :=
  nth n (list_ascii_of_string "0123456789abcdef") "0"%char.

Definition printable (c : ascii) : bool :=
  let n := nat_of_ascii c in
  ((32 <=? n)%nat && (n <=? 126)%nat)
  || ((161 <=? n)%nat && negb (n =? 173)%nat).

Definition repr_char (quote c : ascii) : string :=
  let n := nat_of_ascii c in
  let esc x := String backslash (String x "") in
  if Ascii.eqb c backslash then esc backslash
  else if Ascii.eqb c quote then esc quote
  else if (n =? 9)%nat then esc "t"%char
  else if (n =? 10)%nat then esc "n"%char
  else if (n =? 13)%nat then esc "r"%char
  else if printable c then String c ""
  else String backslash
         (String "x" (String (hex_digit (n / 16))
                        (String (hex_digit (n mod 16)) ""))).

Fixpoint str_contains (c : ascii) (s : string) : bool :=
  match s with
  | EmptyString => false
  | String c' s' => Ascii.eqb c c' || str_contains c s'
  end.

Definition repr_str (s : string) : string :=
  let quote :=
    if str_contains quote1 s && negb (str_contains quote2 s)
    then quote2 else quote1 in
  (String quote
     (String.concat "" (map (repr_char quote) (list_ascii_of_string s)))
   ++ String quote "")%string.

(** [repr(x)] and [str(x)] of a JSON value. *)
Fixpoint py_repr (j : json) : string :=
  match j with
  | JNull => "None"
  | JBool true => "True"
  | JBool false => "False"
  | JInt n => str_of_int n
  | JFloat r => r
  | JStr s => repr_str s
  | JList l => ("[" ++ String.concat ", " (map py_repr l) ++ "]")%string
  | JDict d =>
      ("{" ++ String.concat ", "
                (map (fun kv =>
                        match kv with
                        | (k, v) => (repr_str k ++ ": " ++ py_repr v)%string
                        end) d)
           ++ "}")%string
  end.

Definition py_str (j : json) : string :=
  match j with
  | JStr s => s
  | _ => py_repr j
  end.

(** ** The frequency tree

    [items] of [inspect_resource]: a dictionary whose values are either a
    two-element list [[count, dict()]] (here [Leaf]) or another such
    dictionary (here [Branch]). *)

Inductive node : Type :=
| Leaf (count : Z) (values : list (string * Z))
| Branch (children : list (string * node)).

Definition is_branch (n : node) : bool :=
  match n with Branch _ => true | Leaf _ _ => false end.

(** ** The structural profiler ([process_entry] and its helper [store_item])

    [max_item_str_len] is the local of [inspect_resource] that [store_item]
    reads from the enclosing scope. *)

Section Profiler.
Variable max_item_str_len : nat.

(** [(s[:max_item_str_len] + '...') if len(s) > (max_item_str_len + 3)
    else s] *)
Definition limit_item_str (s : string) : string :=
  if (max_item_str_len + 3 <? String.length s)%nat
  then (str_take max_item_str_len s ++ "...")%string
  else s.

(** The [if subvalue_si in d: d[subvalue_si] += 1 else: d[subvalue_si] = 1]
    of [store_item]. *)
Definition count_value (s : string) (values : list (string * Z))
  : list (string * Z) :=
  match Dict.get s values with
  | Some n => Dict.set s (n + 1) values
  | None => Dict.set s 1 values
  end.

(** [store_item(key_si, subvalue_si, item_store_si)].  When [item_store_si]
    is a two-element list instead of a dictionary, [key_si in item_store_si]
    is a list membership test, false for a string key, and the assignment
    [item_store_si[key_si] = ...] raises [TypeError].  When the key is
    bound to a dictionary, [item_store_si[key_si][0]] raises [KeyError]. *)
Definition store_item (inspect_items_pe : bool) (key_si : string)
    (subvalue_si : json) (item_store_si : node) : node * option exn :=
  match item_store_si with
  | Leaf _ _ => (item_store_si, Some TypeError)
  | Branch d =>
      let counted :=
        match Dict.get key_si d with
        | Some (Leaf c values) => inr (c + 1, values)
        | Some (Branch _) => inl KeyError
        | None => inr (1, [])
        end in
      match counted with
      | inl e => (item_store_si, Some e)
      | inr (c, values) =>
          let values' :=
            if inspect_items_pe
            then count_value (limit_item_str (py_str subvalue_si)) values
            else values in
          (Branch (Dict.set key_si (Leaf c values') d), None)
      end
  end.

(** [process_entry(entry, item_store, level, inspect_items_pe, max_level_pe)].
    The three loops of the source are the three nested recursions: over
    the fields of [entry], over the elements of a field value, and into a
    nested dictionary. *)
Fixpoint process_entry (inspect_items_pe : bool) (max_level_pe : Z)
    (entry : json) (item_store : node) (level : Z) {struct entry}
  : node * option exn :=
  let process_subvalue (key : string) (subvalue : json) (store : node) :=
    match subvalue with
    | JDict _ =>
        if level <? max_level_pe then
          match store with
          | Leaf _ _ => (store, Some TypeError)
          | Branch d =>
              (* if key not in item_store: item_store[key] = dict() *)
              let (d1, child) :=
                match Dict.get key d with
                | Some child => (d, child)
                | None => (Dict.set key (Branch []) d, Branch [])
                end in
              let (child', e) :=
                process_entry inspect_items_pe max_level_pe
                  subvalue child (level + 1) in
              (Branch (Dict.set key child' d1), e)
          end
        else store_item inspect_items_pe key subvalue store
    | _ => store_item inspect_items_pe key subvalue store
    end in
  match entry with
  | JDict fields =>
      (fix items (fs : list (string * json)) (store : node)
         : node * option exn :=
         match fs with
         | [] => (store, None)
         | (key, value) :: fs' =>
             let (store1, e) :=
               match value with
               | JList subvalues =>
                   (fix each (vs : list json) (store : node)
                      : node * option exn :=
                      match vs with
                      | [] => (store, None)
                      | subvalue :: vs' =>
                          let (store1, e) :=
                            process_subvalue key subvalue store in
                          match e with
                          | Some _ => (store1, e)
                          | None => each vs' store1
                          end
                      end) subvalues store
               | _ => process_subvalue key value store
               end in
             match e with
             | Some _ => (store1, e)
             | None => items fs' store1
             end
         end) fields item_store
  | _ => (item_store, Some AttributeError)
  end.

(** The loops of [process_entry] under names of their own, for stating
    what one iteration does.  [process_entry_fields] below shows they are
    the loops of [process_entry]. *)

(** The body of [for subvalue in value]. *)
Definition process_subvalue (inspect_items_pe : bool) (max_level_pe : Z)
    (level : Z) (key : string) (subvalue : json) (store : node)
  : node * option exn :=
  match subvalue with
  | JDict _ =>
      if level <? max_level_pe then
        match store with
        | Leaf _ _ => (store, Some TypeError)
        | Branch d =>
            let (d1, child) :=
              match Dict.get key d with
              | Some child => (d, child)
              | None => (Dict.set key (Branch []) d, Branch [])
              end in
            let (child', e) :=
              process_entry inspect_items_pe max_level_pe
                subvalue child (level + 1) in
            (Branch (Dict.set key child' d1), e)
        end
      else store_item inspect_items_pe key subvalue store
  | _ => store_item inspect_items_pe key subvalue store
  end.

(** [for subvalue in value] *)
Fixpoint process_values (inspect_items_pe : bool) (max_level_pe : Z)
    (level : Z) (key : string) (vs : list json) (store : node)
  : node * option exn :=
  match vs with
  | [] => (store, None)
  | subvalue :: vs' =>
      let (store1, e) :=
        process_subvalue inspect_items_pe max_level_pe level key
          subvalue store in
      match e with
      | Some _ => (store1, e)
      | None =>
          process_values inspect_items_pe max_level_pe level key vs' store1
      end
  end.

(** One field: a value that is not a list is treated as a list of one. *)
Definition process_field (inspect_items_pe : bool) (max_level_pe : Z)
    (level : Z) (key : string) (value : json) (store : node)
  : node * option exn :=
  match value with
  | JList subvalues =>
      process_values inspect_items_pe max_level_pe level key subvalues store
  | _ =>
      process_subvalue inspect_items_pe max_level_pe level key value store
  end.

(** [for key, value in entry.items()] *)
Fixpoint process_fields (inspect_items_pe : bool) (max_level_pe : Z)
    (level : Z) (fs : list (string * json)) (store : node)
  : node * option exn :=
  match fs with
  | [] => (store, None)
  | (key, value) :: fs' =>
      let (store1, e) :=
        process_field inspect_items_pe max_level_pe level key value store in
      match e with
      | Some _ => (store1, e)
      | None =>
          process_fields inspect_items_pe max_level_pe level fs' store1
      end
  end.
End Profiler.

(** ** The tree renderer ([build_tree])

    A [rich.tree.Tree] is a label with the subtrees added to it, in the
    order of the [add] calls. *)

Inductive rtree : Type :=
| RTree (label : string) (children : list rtree).

(** [sorted(l, key=lambda n: n[1], reverse=True)]: Python's sort is stable,
    also under [reverse=True], so entries with equal counts keep the order
    they have in [l].  [insert_desc] puts an entry in front of the first one
    whose count is not larger. *)
Fixpoint insert_desc (x : string * Z) (l : list (string * Z))
  : list (string * Z) :=
  match l with
  | [] => [x]
  | y :: l' => if snd x <? snd y then y :: insert_desc x l' else x :: l
  end.

Fixpoint sorted_desc (l : list (string * Z)) : list (string * Z) :=
  match l with
  | [] => []
  | x :: l' => insert_desc x (sorted_desc l')
  end.

Definition newline : string := String (ascii_of_nat 10) "".

Section Renderer.
(** Read by [build_tree] from the enclosing scope: the flag
    [inspect_items], the local constant [max_item_count] and the module
    constant [COLOR_GRAY] (it depends on the platform). *)
Variable inspect_items : bool.
Variable max_item_count : nat.
Variable COLOR_GRAY : string.

(** [dict(sorted(values.items(), key=lambda n: n[1],
    reverse=True)[:max_item_count])] *)
Definition top_values (values : list (string * Z)) : list (string * Z) :=
  Dict.of_items (firstn max_item_count (sorted_desc values)).

(** The [f"{item_value}({item_count}) "] pieces, appended in order. *)
Definition values_text (values : list (string * Z)) : string :=
  String.concat ""
    (map (fun kv => (fst kv ++ "(" ++ str_of_int (snd kv) ++ ") ")%string)
       values).

(** The leaf case of [build_tree]: the label, and the leaf as the
    assignment [value[1] = ...] leaves it. *)
Definition build_leaf (key : string) (count : Z)
    (values : list (string * Z)) : string * node :=
  let branch_string :=
    ("[bold]" ++ key ++ "[/bold](" ++ str_of_int count ++ ")")%string in
  if inspect_items then
    let values' := top_values values in
    ((branch_string ++ newline ++ "[" ++ COLOR_GRAY ++ "]"
        ++ values_text values')%string,
     Leaf count values')
  else (branch_string, Leaf count values).

(** [build_tree(item, tree_bt)]: the subtrees it adds to [tree_bt], and
    [item] as it is afterwards.  It is only ever called on a dictionary. *)
Fixpoint build_tree (item : node) : list rtree * node :=
  match item with
  | Leaf _ _ => ([], item)
  | Branch d =>
      let (added, d') :=
        (fix each (d : list (string * node))
           : list rtree * list (string * node) :=
           match d with
           | [] => ([], [])
           | (key, value) :: rest =>
               let (sub, value') :=
                 match value with
                 | Leaf count values =>
                     let (branch_string, leaf') :=
                       build_leaf key count values in
                     (RTree branch_string [], leaf')
                 | Branch _ =>
                     let (subs, value') := build_tree value in
                     (RTree ("[bold]" ++ key)%string subs, value')
                 end in
               let (added, rest') := each rest in
               (sub :: added, (key, value') :: rest')
           end) d in
      (added, Branch d')
  end.

(** The loop of [build_tree] under names of its own. *)
Definition build_item (key : string) (value : node) : rtree * node :=
  match value with
  | Leaf count values =>
      let (branch_string, leaf') :=
        build_leaf key count values in
      (RTree branch_string [], leaf')
  | Branch _ =>
      let (subs, value') := build_tree value in
      (RTree ("[bold]" ++ key)%string subs, value')
  end.

Fixpoint build_items (d : list (string * node))
  : list rtree * list (string * node) :=
  match d with
  | [] => ([], [])
  | (key, value) :: rest =>
      let (sub, value') := build_item key value in
      let (added, rest') := build_items rest in
      (sub :: added, (key, value') :: rest')
  end.

(** The values of a leaf after [build_tree]. *)
Definition rendered_values (values : list (string * Z))
  : list (string * Z) :=
  if inspect_items then top_values values else values.
End Renderer.

(** ** Pages and the transport *)

(** Modelled from the spec: a link of a page, a (relation, url) pair
    ([fhirclient]'s [BundleLink], of which the source reads [relation] and
    [url]). *)
Record BundleLink : Type := { relation : string; url : string }.

(** Modelled from the spec: the decoded page ([fhirclient]'s [Bundle], of
    which the source reads [entry], [total] and [link]): an optional
    sequence of records, an optional total and a collection of links, as
    in the data model of the specification. *)
Record Bundle (Resource : Type) : Type := {
  entry : option (list Resource);
  total : option Z;
  link : list BundleLink
}.

(** What [rich_console.print] is called with, one constructor per call
    site:
    - [MsgReadError]: "Error while reading resource: {e}."
    - [MsgNoResources]: "No resources of type ... found on server."
    - [MsgFetching]: "{total} resources of type ... on server. Fetching
      resources..."
    - [MsgNoValidationNotice]: "Notice: Validation is turned off. ..."
    - [MsgValidationError]: "Got validation error (consider using
      --novalidation)."
    - [MsgReachedLimit]: "Reached limit of {limit} resources to receive."
    - [MsgReceived]: "Received {received} of {total} items.", in green
    - [MsgInspecting]: "Inspecting resource ... on FHIR server ..."
    - [MsgBlank]: the empty line
    - [MsgTree]: the rendered tree
    - [MsgValuesNotice]: "Notice: the output of item values is limited
      to ..." *)
Inductive message : Type :=
| MsgReadError (e : exn)
| MsgNoResources (resource_type : string)
| MsgFetching (total : option Z) (resource_type : string)
| MsgNoValidationNotice
| MsgValidationError
| MsgReachedLimit (limit : Z)
| MsgReceived (received : Z) (total : option Z)
| MsgInspecting (resource_type : string)
| MsgBlank
| MsgTree (tree : rtree)
| MsgValuesNotice.

(** What the transient live display shows. *)
Inductive live_text : Type :=
| LiveReceiving                                   (* "Receiving items..." *)
| LiveStatus (received : Z) (total : option Z).   (* "Received .. of .." *)

(** Why the [while True] loop of [fetch_resources] was left. *)
Inductive stop : Type :=
| StopValidation       (* [except FHIRValidationError: ... break] *)
| StopLimit            (* the limit was reached: [break] *)
| StopNoNext           (* no "next" relation: [break] *)
| StopRaise (e : exn). (* an exception left the loop *)

Inductive step_result : Type :=
| Next (next_url : string)
| Stop (why : stop).

(** How a call ends. *)
Inductive outcome : Type :=
| Return (status : Z)
| Raise (e : exn).

(** [link.url.split(base)[-1].lstrip("/")] *)
Definition next_cursor (base link_url : string) : exn + string :=
  match py_split base link_url with
  | None => inl ValueError
  | Some pieces => inr (lstrip_slash (last pieces ""%string))
  end.

(** The [for link in bundle.link] scan: the url of the first link whose
    relation is "next". *)
Fixpoint next_link (links : list BundleLink) : option string :=
  match links with
  | [] => None
  | l :: links' =>
      if String.eqb (relation l) "next" then Some (url l)
      else next_link links'
  end.

Section Fetcher.
(** The collaborators of [fetch_resources]:
    - [Server] is the state of the remote server and the connection,
      [request path novalidation] is [server.request_json(path)] followed
      by [Bundle(jsondict=ret, strict=not novalidation)];
    - [Resource] is a decoded record with its [as_json()];
    - [Sink] is the state that [function_to_call] and its
      [function_params] work on. *)
Variable Resource : Type.
Variable Server : Type.
Variable request :
  string -> bool -> Server -> (exn + Bundle Resource) * Server.
Variable as_json : Resource -> json.
Variable Sink : Type.
Variable function_to_call : json + Resource -> Sink -> Sink * option exn.

Record world : Type := {
  w_server : Server;
  w_requested : list string;   (* the paths requested so far *)
  w_console : list message;    (* what was printed so far *)
  w_live : list live_text;     (* what the live display has shown so far *)
  w_sink : Sink
}.

Definition print (m : message) (w : world) : world :=
  {| w_server := w_server w; w_requested := w_requested w;
     w_console := w_console w ++ [m]; w_live := w_live w;
     w_sink := w_sink w |}.

Definition live_show (t : live_text) (w : world) : world :=
  {| w_server := w_server w; w_requested := w_requested w;
     w_console := w_console w; w_live := w_live w ++ [t];
     w_sink := w_sink w |}.

Definition with_sink (s : Sink) (w : world) : world :=
  {| w_server := w_server w; w_requested := w_requested w;
     w_console := w_console w; w_live := w_live w;
     w_sink := s |}.

(** [bundle_read_from(path, server, novalidation)] *)
Definition bundle_read_from (path : string) (novalidation : bool)
    (w : world) : (exn + Bundle Resource) * world :=
  if String.eqb path "" then
    (inl (Exception "Cannot read resource without REST path."), w)
  else
    let (r, srv) := request path novalidation (w_server w) in
    (r, {| w_server := srv; w_requested := w_requested w ++ [path];
           w_console := w_console w; w_live := w_live w;
           w_sink := w_sink w |}).

(** [for entry in bundle.entry: function_to_call(...)] *)
Fixpoint deliver (pass_entry_as_json : bool) (entries : list Resource)
    (s : Sink) : Sink * option exn :=
  match entries with
  | [] => (s, None)
  | r :: entries' =>
      let arg := if pass_entry_as_json then inl (as_json r) else inr r in
      let (s1, e) := function_to_call arg s in
      match e with
      | Some _ => (s1, e)
      | None => deliver pass_entry_as_json entries' s1
      end
  end.

(** The part of the loop body after the page was processed: look for the
    "next" relation. *)
Definition follow_next (base : string) (bundle : Bundle Resource)
  : step_result :=
  match next_link (link bundle) with
  | None => Stop StopNoNext
  | Some u =>
      match next_cursor base u with
      | inl e => Stop (StopRaise e)
      | inr next_url => Next next_url
      end
  end.

(** One pass through the body of [while True]. *)
Definition fetch_step (base : string) (limit : option Z)
    (novalidation pass_entry_as_json : bool) (total : option Z)
    (next_url : string) (received : Z) (w : world)
  : step_result * Z * world :=
  let (r, w1) := bundle_read_from next_url novalidation w in
  match r with
  | inl FHIRValidationError =>
      (Stop StopValidation, received, print MsgValidationError w1)
  | inl e => (Stop (StopRaise e), received, w1)
  | inr bundle =>
      match entry bundle with
      | Some entries =>
          let received1 := received + Z.of_nat (List.length entries) in
          let (s, e) := deliver pass_entry_as_json entries (w_sink w1) in
          let w2 := with_sink s w1 in
          match e with
          | Some e => (Stop (StopRaise e), received1, w2)
          | None =>
              let w3 := live_show (LiveStatus received1 total) w2 in
              (* if limit is not None and limit <= received *)
              match limit with
              | Some l =>
                  if l <=? received1
                  then (Stop StopLimit, received1,
                        print (MsgReachedLimit l) w3)
                  else (follow_next base bundle, received1, w3)
              | None => (follow_next base bundle, received1, w3)
              end
          end
      | None => (follow_next base bundle, received, w1)
      end
  end.

(** [while True], with a bound on the number of passes: [None] when the
    bound is used up before the loop is left. *)
Fixpoint fetch_loop (fuel : nat) (base : string) (limit : option Z)
    (novalidation pass_entry_as_json : bool) (total : option Z)
    (next_url : string) (received : Z) (w : world)
  : option (stop * Z * world) :=
  match fuel with
  | O => None
  | S fuel' =>
      match fetch_step base limit novalidation pass_entry_as_json total
              next_url received w with
      | (Next u, received1, w1) =>
          fetch_loop fuel' base limit novalidation pass_entry_as_json
            total u received1 w1
      | (Stop why, received1, w1) => Some (why, received1, w1)
      end
  end.

(** [fetch_resources(fc, capability_statement, resource_type, limit,
    novalidation, function_to_call, pass_entry_as_json, function_params)];
    [base] is [capability_statement.implementation.url]. *)
Definition fetch_resources (fuel : nat) (base resource_type : string)
    (limit : option Z) (novalidation pass_entry_as_json : bool) (w : world)
  : option (outcome * world) :=
  let (r, w1) :=
    bundle_read_from (resource_type ++ "?_summary=count") novalidation w in
  match r with
  | inl e => Some (Return 1, print (MsgReadError e) w1)
  | inr bundle =>
      let total := total bundle in
      match total with
      | Some 0 => Some (Return 1, print (MsgNoResources resource_type) w1)
      | _ =>
          let w2 := print (MsgFetching total resource_type) w1 in
          let w3 := if novalidation then print MsgNoValidationNotice w2
                    else w2 in
          match fetch_loop fuel base limit novalidation pass_entry_as_json
                  total resource_type 0 (live_show LiveReceiving w3) with
          | None => None
          | Some (StopRaise e, _, w4) => Some (Raise e, w4)
          | Some (_, received, w4) =>
              Some (Return 0, print (MsgReceived received total) w4)
          end
      end
  end.

(** *** Notions for stating what the loop does *)

(** The limit, if there is one, is above [r]. *)
Definition below_limit (limit : option Z) (r : Z) : Prop :=
  match limit with
  | Some l => r < l
  | None => True
  end.

(** The loop passes through [pages], requested at the paths given with
    them, and is then about to request [u2]. *)
Inductive visits (base : string) (limit : option Z)
    (novalidation pass_entry_as_json : bool) (total : option Z) :
  string -> Z -> world -> list (string * Bundle Resource) ->
  string -> Z -> world -> Prop :=
| visits_none u r w :
    visits base limit novalidation pass_entry_as_json total u r w [] u r w
| visits_page u r w b u1 r1 w1 pages u2 r2 w2 :
    fst (bundle_read_from u novalidation w) = inr b ->
    fetch_step base limit novalidation pass_entry_as_json total u r w
    = (Next u1, r1, w1) ->
    visits base limit novalidation pass_entry_as_json total
      u1 r1 w1 pages u2 r2 w2 ->
    visits base limit novalidation pass_entry_as_json total
      u r w ((u, b) :: pages) u2 r2 w2.

(** The world in which the loop of [fetch_resources] starts, after the
    count query left [w1], under strict validation. *)
Definition loop_start (resource_type : string) (total : option Z)
    (w1 : world) : world :=
  live_show LiveReceiving (print (MsgFetching total resource_type) w1).


End Fetcher.

(** ** [inspect_resource] *)

(** [max_item_str_len = 50] and [max_item_count = 50] *)
Definition max_item_str_len : nat := 50.
Definition max_item_count : nat := 50.

Section Inspect.
Variable COLOR_GRAY : string.
Variable Resource : Type.
Variable Server : Type.
Variable request :
  string -> bool -> Server -> (exn + Bundle Resource) * Server.
Variable as_json : Resource -> json.

(** [process_entry] as [fetch_resources] calls it, with
    [function_params = [items, 0, inspect_items, max_level]].  It is
    passed JSON ([pass_entry_as_json] is [True]); on anything else
    [entry.items()] would raise. *)
Definition call_process_entry (inspect_items : bool) (max_level : Z)
    (arg : json + Resource) (items : node) : node * option exn :=
  match arg with
  | inl entry =>
      process_entry max_item_str_len inspect_items max_level entry items 0
  | inr _ => (items, Some AttributeError)
  end.

(** [rich_console.print] reads the text it is given as console markup
    and raises [MarkupError] on markup it cannot parse, such as a closing
    tag that matches no open tag.  The opening line of [inspect_resource]
    holds [resource_type] and the labels of the tree hold keys and values
    of the records, so either print can raise; the empty line and the
    notice are fixed texts without a tag.  The parser belongs to [rich]:
    [markup_error m] is what printing [m] raises, if anything. *)
Variable markup_error : message -> option exn.

(** A print that [rich] can refuse: nothing is printed when it raises. *)
Definition print_markup (m : message) (w : world Server node)
  : world Server node * option exn :=
  match markup_error m with
  | Some e => (w, Some e)
  | None => (print m w, None)
  end.

(** [inspect_resource(fc, capability_statement, resource_type, limit,
    inspect_items, max_level, novalidation)].  [main] passes
    [args.max_level - 1] for [max_level], after [args.max_level <= 0] was
    rejected.  The tree is built, and [items] rewritten by [build_tree],
    before the tree is printed. *)
Definition inspect_resource (fuel : nat) (base resource_type : string)
    (limit : option Z) (inspect_items : bool) (max_level : Z)
    (novalidation : bool) (w : world Server node)
  : option (outcome * world Server node) :=
  match print_markup (MsgInspecting resource_type) w with
  | (w', Some e) => Some (Raise e, w')
  | (w', None) =>
      let w0 := with_sink (Branch []) w' in
      match fetch_resources request as_json
              (call_process_entry inspect_items max_level)
              fuel base resource_type limit novalidation true w0 with
      | None => None
      | Some (Raise e, w1) => Some (Raise e, w1)
      | Some (Return status, w1) =>
          if status =? 0 then
            let (added, items) :=
              build_tree inspect_items max_item_count COLOR_GRAY
                (w_sink w1) in
            let tree := RTree ("[bold]" ++ resource_type)%string added in
            match print_markup (MsgTree tree)
                    (print MsgBlank (with_sink items w1)) with
            | (w2, Some e) => Some (Raise e, w2)
            | (w2, None) =>
                Some (Return 0,
                      if inspect_items then print MsgValuesNotice w2
                      else w2)
            end
          else Some (Return 1, w1)
      end
  end.
End Inspect.

(** * Notions used in the properties *)

Unset Implicit Arguments.

(** Induction over a tree, with the property at hand for every child. *)
Section NodeInduction.
Variable P : node -> Prop.
Hypothesis P_leaf : forall c values, P (Leaf c values).
Hypothesis P_branch :
  forall d, Forall (fun kv => P (snd kv)) d -> P (Branch d).

Fixpoint node_children_ind (t : node) : P t :=
  match t with
  | Leaf c values => P_leaf c values
  | Branch d =>
      P_branch d
        ((fix each (d : list (string * node))
            : Forall (fun kv => P (snd kv)) d :=
            match d with
            | [] => Forall_nil _
            | kv :: rest =>
                Forall_cons kv (node_children_ind (snd kv)) (each rest)
            end) d)
  end.
End NodeInduction.

(** Induction over a JSON value, with the property at hand for the
    elements of a list and the values of a dictionary. *)
Section JsonInduction.
Variable P : json -> Prop.
Hypothesis P_null : P JNull.
Hypothesis P_bool : forall b, P (JBool b).
Hypothesis P_int : forall n, P (JInt n).
Hypothesis P_float : forall r, P (JFloat r).
Hypothesis P_str : forall s, P (JStr s).
Hypothesis P_list : forall l, Forall P l -> P (JList l).
Hypothesis P_dict :
  forall d, Forall (fun kv => P (snd kv)) d -> P (JDict d).

Fixpoint json_children_ind (j : json) : P j :=
  match j with
  | JNull => P_null
  | JBool b => P_bool b
  | JInt n => P_int n
  | JFloat r => P_float r
  | JStr s => P_str s
  | JList l =>
      P_list l
        ((fix each (l : list json) : Forall P l :=
            match l with
            | [] => Forall_nil _
            | x :: rest => Forall_cons x (json_children_ind x) (each rest)
            end) l)
  | JDict d =>
      P_dict d
        ((fix each (d : list (string * json))
            : Forall (fun kv => P (snd kv)) d :=
            match d with
            | [] => Forall_nil _
            | kv :: rest =>
                Forall_cons kv (json_children_ind (snd kv)) (each rest)
            end) d)
  end.
End JsonInduction.

(** The kind of the node at a path: [Some true] for a Branch, [Some false]
    for a Leaf, [None] where the tree has no node. *)
Fixpoint kind_at (path : list string) (t : node) : option bool :=
  match path with
  | [] => Some (is_branch t)
  | k :: path' =>
      match t with
      | Branch d =>
          match Dict.get k d with
          | Some child => kind_at path' child
          | None => None
          end
      | Leaf _ _ => None
      end
  end.

(** [t'] has a node of the same kind wherever [t] has a node. *)
Definition keeps_kinds (t t' : node) : Prop :=
  forall path kind, kind_at path t = Some kind -> kind_at path t' = Some kind.

(** [process_entry] on [entry] keeps the kinds, whatever the tree and the
    level. *)
Definition entry_keeps_kinds (n : nat) (inspect : bool) (max_level : Z)
    (entry : json) : Prop :=
  forall store level,
    keeps_kinds store
      (fst (process_entry n inspect max_level entry store level)).

(** Every child is a leaf. *)
Definition all_leaves (d : list (string * node)) : Prop :=
  Forall (fun kv => is_branch (snd kv) = false) d.

(** The values of every leaf of the tree are a dictionary: no value is
    listed twice. *)
Inductive values_wf : node -> Prop :=
| values_wf_leaf c values : Dict.wf values -> values_wf (Leaf c values)
| values_wf_branch d :
    Forall (fun kv => values_wf (snd kv)) d -> values_wf (Branch d).

(** [process_entry] on [entry] keeps the values of the leaves
    dictionaries, whatever the tree and the level. *)
Definition entry_keeps_values_wf (n : nat) (inspect : bool) (max_level : Z)
    (entry : json) : Prop :=
  forall store level,
    values_wf store ->
    values_wf (fst (process_entry n inspect max_level entry store level)).

(** The tree with [f] applied to the values of every leaf. *)
Fixpoint map_values (f : list (string * Z) -> list (string * Z)) (t : node)
  : node :=
  match t with
  | Leaf c values => Leaf c (f values)
  | Branch d =>
      Branch (map (fun kv => match kv with
                             | (k, child) => (k, map_values f child)
                             end) d)
  end.

(** The tree without its values: counts, keys, their order and the
    Branch/Leaf structure. *)
Definition skeleton (t : node) : node := map_values (fun _ => []) t.

(** The child at a path of positions in the tree: [i :: path] leads to the
    child at position [i] of a dictionary and from there along [path].
    [build_tree] renders the children of a dictionary in their order, so
    the same path leads to the rendering of that child. *)
Fixpoint child_at (path : list nat) (t : node) {struct path}
  : option (string * node) :=
  match path, t with
  | i :: path', Branch d =>
      match nth_error d i with
      | Some (key, child) =>
          match path' with
          | [] => Some (key, child)
          | _ :: _ => child_at path' child
          end
      | None => None
      end
  | _, _ => None
  end.

Fixpoint rendered_at (path : list nat) (rendered : list rtree)
    {struct path} : option rtree :=
  match path with
  | [] => None
  | i :: path' =>
      match nth_error rendered i with
      | Some (RTree label subs) =>
          match path' with
          | [] => Some (RTree label subs)
          | _ :: _ => rendered_at path' subs
          end
      | None => None
      end
  end.

(** Descending order of counts, and the entries of one count. *)
Definition count_ge (a b : string * Z) : Prop := snd b <= snd a.
Definition has_count (n : Z) (kv : string * Z) : bool := snd kv =? n.

(** [sep] matches somewhere in [s]. *)
Fixpoint occurs (sep s : string) : bool :=
  String.prefix sep s
  || match s with
     | EmptyString => false
     | String _ s' => occurs sep s'
     end.

Fixpoint slashes (k : nat) : string :=
  match k with
  | O => ""
  | S k' => String "/" (slashes k')
  end.

(** The cursor as the specification words it: the link without the base
    URL in front and without one leading slash. *)
Definition strip_one_slash (s : string) : string :=
  match s with
  | String c s' => if Ascii.eqb c "/"%char then s' else s
  | EmptyString => s
  end.

Definition cursor_by_prefix (base link_url : string) : string :=
  strip_one_slash (str_drop (String.length base) link_url).

(** The records of a page; none when it has no entry list. *)
Definition page_entries {Resource : Type} (b : Bundle Resource)
  : list Resource :=
  match entry b with
  | Some entries => entries
  | None => []
  end.

(** The records of a run of pages, in order. *)
Definition all_entries {Resource : Type}
    (pages : list (string * Bundle Resource)) : list Resource :=
  concat (map (fun p => page_entries (snd p)) pages).

(** ** Inputs of the examples *)

(** A server for the examples: it answers a path with what a table holds
    for it.  Its records are JSON already, and the sink collects what it is
    called with. *)
Definition table_request (table : list (string * (exn + Bundle json)))
    (path : string) (novalidation : bool) (srv : unit)
  : (exn + Bundle json) * unit :=
  (match Dict.get path table with
   | Some answer => answer
   | None => inl (Exception "not found")
   end, srv).

Definition as_is (r : json) : json := r.

(** The lines and trees of the examples hold no markup that [rich]
    refuses: every closing tag in them follows its opening tag. *)
Definition markup_accepted (m : message) : option exn := None.

Definition collect (arg : json + json) (rows : list json)
  : list json * option exn :=
  (rows ++ [match arg with inl j => j | inr r => r end], None).

Definition fresh {Sink : Type} (s : Sink) : world unit Sink :=
  {| w_server := tt; w_requested := []; w_console := []; w_live := [];
     w_sink := s |}.

Definition patient (i : Z) : json :=
  JDict [("resourceType", JStr "Patient"); ("id", JStr (str_of_int i))].

Definition count_only (n : Z) : Bundle json :=
  {| entry := None; total := Some n; link := [] |}.

Definition page (records : option (list json)) (next : option string)
  : Bundle json :=
  {| entry := records;
     total := None;
     link := {| relation := "self"; url := "http://srv/fhir/Patient" |}
             :: match next with
                | Some u => [ {| relation := "next"; url := u |} ]
                | None => []
                end |}.

(** Three pages of five records. *)
Definition page_1 : Bundle json :=
  page (Some (map patient [1; 2; 3; 4; 5]))
       (Some "http://srv/fhir/Patient?page=2"%string).
Definition page_2 : Bundle json :=
  page (Some (map patient [6; 7; 8; 9; 10]))
       (Some "http://srv/fhir/Patient?page=3"%string).
Definition page_3 : Bundle json :=
  page (Some (map patient [11; 12; 13; 14; 15])) None.

Definition three_pages : list (string * (exn + Bundle json)) :=
  [("Patient?_summary=count", inr (count_only 15));
   ("Patient", inr page_1);
   ("Patient?page=2", inr page_2);
   ("Patient?page=3", inr page_3)].

(** A page of two records, then a page that fails strict validation. *)
Definition first_of_two : Bundle json :=
  page (Some (map patient [1; 2]))
       (Some "http://srv/fhir/Patient?page=2"%string).

Definition second_page_invalid : list (string * (exn + Bundle json)) :=
  [("Patient?_summary=count", inr (count_only 4));
   ("Patient", inr first_of_two);
   ("Patient?page=2", inl FHIRValidationError)].

(** A page that lost its entries, then a page of one record. *)
Definition lost_page : Bundle json :=
  page None (Some "http://srv/fhir/Patient?page=2"%string).

Definition first_page_lost : list (string * (exn + Bundle json)) :=
  [("Patient?_summary=count", inr (count_only 3));
   ("Patient", inr lost_page);
   ("Patient?page=2", inr (page (Some [patient 3]) None))].

(** A value of 51 characters. *)
Definition fifty_one_chars : string :=
  "abcdefghijklmnopqrstuvwxyzabcdefghijklmnopqrstuvwxy".

(** A Patient with two contained resources: an Organization, whose [name]
    is a string, and a Practitioner, whose [name] is a list of objects. *)
Definition patient_with_contained : json :=
  JDict [("resourceType", JStr "Patient");
         ("contained",
          JList [JDict [("resourceType", JStr "Organization");
                        ("name", JStr "Clinic")];
                 JDict [("resourceType", JStr "Practitioner");
                        ("name", JList [JDict [("family", JStr "Ray")]])]])].

(** Fifty-one records that differ in [id]. *)
Definition records_51 : list json :=
  map (fun i => JDict [("id", JStr (str_of_int (Z.of_nat i)))]) (seq 0 51).

Definition tree_of_51 : node :=
  fold_left
    (fun items entry =>
       fst (process_entry max_item_str_len true 9 entry items 0))
    records_51 (Branch []).

(** A tree with a leaf below a dictionary, at the path of positions
    [1; 0]. *)
Definition tree_with_inner_leaf : list (string * node) :=
  [("id", Leaf 11 [("a", 11)]);
   ("name", Branch [("k", Leaf 11 [("x", 5); ("y", 5); ("z", 1)])])].

(** A page with a "self" and a "next" link. *)
Definition page_with_next : Bundle json :=
  {| entry := Some [JDict [("id", JStr "1")]];
     total := Some 2;
     link := [ {| relation := "self"; url := "http://srv/fhir/Patient" |};
               {| relation := "next";
                  url := "http://srv/fhir/Patient?page=2" |} ] |}.

(** * Further notions

    The notions and inputs of the further properties, and the two listing
    functions, [list_resources] and [list_structure_definitions]. *)

(** Every leaf of the tree satisfies [L], a property of a count and its
    values. *)
Inductive leaves_all (L : Z -> list (string * Z) -> Prop) : node -> Prop :=
| leaves_all_leaf c values : L c values -> leaves_all L (Leaf c values)
| leaves_all_branch d :
    Forall (fun kv => leaves_all L (snd kv)) d -> leaves_all L (Branch d).

(** The sum of the counts of the values of a leaf. *)
Definition values_total (values : list (string * Z)) : Z :=
  fold_right (fun kv acc => snd kv + acc) 0 values.

(** What holds of a leaf in a tree built by [process_entry]: its count is
    at least 1; without value inspection it has no values; with value
    inspection every value was seen at least once, the counts of the values
    add up to the count of the leaf, and no value is longer than
    [max_len + 3] characters. *)
Definition leaf_sound (max_len : nat) (inspect : bool) (c : Z)
    (values : list (string * Z)) : Prop :=
  1 <= c
  /\ (if inspect
      then values_total values = c
           /\ Forall (fun kv => 1 <= snd kv
                                /\ (String.length (fst kv) <= max_len + 3)%nat)
                values
      else values = []).

(** The tree that [deliver] leaves when [process_entry] is the sink, as in
    [inspect_resource], starting from the empty dictionary. *)
Definition profile_of {Resource : Type} (as_json : Resource -> json)
    (inspect : bool) (max_level : Z) (records : list Resource)
  : node * option exn :=
  deliver as_json (call_process_entry (Resource := Resource) inspect max_level)
    true records (Branch []).

(** The node at a path, if there is one. *)
Fixpoint node_at (path : list string) (t : node) : option node :=
  match path with
  | [] => Some t
  | k :: path' =>
      match t with
      | Branch d =>
          match Dict.get k d with
          | Some child => node_at path' child
          | None => None
          end
      | Leaf _ _ => None
      end
  end.

(** Every value of [values] is in [values'], with a count at least as
    large. *)
Definition values_le (values values' : list (string * Z)) : Prop :=
  forall k m,
    Dict.get k values = Some m ->
    exists m', Dict.get k values' = Some m' /\ m <= m'.

(** [t'] has every node of [t], of the same kind; a leaf of [t] has in
    [t'] a count and values at least as large; a dictionary of [t] has in
    [t'] the same keys in the same order, with new keys after them. *)
Definition grows (t t' : node) : Prop :=
  forall path,
    match node_at path t with
    | Some (Leaf c values) =>
        exists c' values',
          node_at path t' = Some (Leaf c' values')
          /\ c <= c' /\ values_le values values'
    | Some (Branch d) =>
        exists d' added,
          node_at path t' = Some (Branch d')
          /\ Dict.keys d' = Dict.keys d ++ added
    | None => True
    end.

(** An element that [process_entry] stores as a leaf occurrence: anything
    but a dictionary, and a dictionary at or beyond the nesting limit. *)
Definition stored_as_leaf (max_level level : Z) (subvalue : json) : Prop :=
  match subvalue with
  | JDict _ => max_level <= level
  | _ => True
  end.

(** A field all of whose elements are stored as leaf occurrences. *)
Definition field_of_leaves (max_level level : Z) (value : json) : Prop :=
  match value with
  | JList subvalues => Forall (stored_as_leaf max_level level) subvalues
  | _ => stored_as_leaf max_level level value
  end.

Definition is_dict (j : json) : bool :=
  match j with JDict _ => true | _ => false end.

(** A record in which the key [a] holds an object and then a number. *)
Definition shape_conflict : json :=
  JDict [("a"%string, JList [JDict [("b"%string, JInt 1)]; JInt 2])].

(** A tree of two leaves, one of them below a dictionary. *)
Definition small_tree : list (string * node) :=
  [("id"%string,
    Leaf 4 [("a"%string, 1); ("b"%string, 2); ("c"%string, 1)]);
   ("name"%string,
    Branch [("family"%string, Leaf 1 [("Ray"%string, 1)])])].

(** The path of the count query for a resource type. *)
Definition count_path (resource_type : string) : string :=
  (resource_type ++ "?_summary=count")%string.

(** What [bundle_read_from] raises for an empty path. *)
Definition no_path : exn :=
  Exception "Cannot read resource without REST path.".

Set Implicit Arguments.

Section Fetched.
Variable Resource : Type.
Variable Server : Type.
Variable request :
  string -> bool -> Server -> (exn + Bundle Resource) * Server.
Variable as_json : Resource -> json.
Variable Sink : Type.
Variable function_to_call : json + Resource -> Sink -> Sink * option exn.

(** The world in which the loop of [fetch_resources] starts, after the
    count query left [w1]. *)
Definition loop_world (novalidation : bool) (resource_type : string)
    (total : option Z) (w1 : world Server Sink) : world Server Sink :=
  let w2 := print (MsgFetching total resource_type) w1 in
  live_show LiveReceiving
    (if novalidation then print MsgNoValidationNotice w2 else w2).

(** What a call of [fetch_resources] from [w] has read from the server
    when it returns 0.  The count query was answered with [count].  The
    loop then went through the pages [front]: each is what
    [bundle_read_from] gave at its path in the world the pass before it
    had left, and the pass over it went on to the next path.  The pass
    after them, at [u], left the loop: its read raised a validation
    error, or it gave a page, the last of [pages], that has no "next"
    link or with which the limit was reached.  [paths] are the paths the
    loop requested and [closing] is what the last pass printed. *)
Definition fetched (base : string) (limit : option Z)
    (novalidation pass_entry_as_json : bool) (resource_type : string)
    (w : world Server Sink) (count : Bundle Resource)
    (pages : list (string * Bundle Resource)) (paths : list string)
    (closing : list message) : Prop :=
  exists w1 front u r w2 last,
    bundle_read_from request (count_path resource_type) novalidation w
    = (inr count, w1)
    /\ visits request as_json function_to_call base limit novalidation
         pass_entry_as_json (total count) resource_type 0
         (loop_world novalidation resource_type (total count) w1)
         front u r w2
    /\ pages = front ++ last
    /\ paths = map fst front ++ [u]
    /\ ((last = []
         /\ fst (bundle_read_from request u novalidation w2)
            = inl FHIRValidationError
         /\ closing = [MsgValidationError])
        \/ (exists b,
              last = [(u, b)]
              /\ fst (bundle_read_from request u novalidation w2) = inr b
              /\ ((next_link (link b) = None /\ closing = [])
                  \/ (exists l,
                        limit = Some l
                        /\ l <= Z.of_nat (List.length (all_entries pages))
                        /\ closing = [MsgReachedLimit l])))).
End Fetched.

Unset Implicit Arguments.


(** A page whose "next" link is the base URL with a slash after it. *)
Definition page_back_to_base : Bundle json :=
  page (Some [patient 1]) (Some "http://srv/fhir/"%string).

Definition back_to_base : list (string * (exn + Bundle json)) :=
  [("Patient?_summary=count"%string, inr (count_only 1));
   ("Patient"%string, inr page_back_to_base)].

(** The number of levels a tree view of the node shows below it: none for
    a leaf, and for a dictionary one more than the most its children
    show. *)
Fixpoint levels (t : node) : nat :=
  match t with
  | Leaf _ _ => 0
  | Branch d => S (list_max (map (fun kv => levels (snd kv)) d))
  end.

(** ** [list_resources] and [list_structure_definitions] *)

(** A row of the table of [list_structure_definitions]: the [name],
    [type] and [url] of a record; an attribute that is not set is
    [None]. *)
Definition definition_row : Type :=
  (option string * option string * option string)%type.

(** What the two listing functions print: their own lines, their tables
    and, for [list_structure_definitions], the lines of the call of
    [fetch_resources] in between. *)
Inductive listing_message : Type :=
| MsgFetchingList (base_uri : string)
| MsgTypesOnServer (total : Z)
| MsgProcessed (received total : Z)
| MsgCountTable (rows : list (string * string))
| MsgFetchingDefinitions (base_uri : string)
| MsgOfFetch (m : message)
| MsgDefinitionTable (rows : list definition_row)
| MsgEmptyLine.

(** The texts of the live display of [list_resources]. *)
Inductive listing_live : Type :=
| LiveProcessing
| LiveProcessed (received total : Z).

(** [str(bundle.total)] *)
Definition str_of_total (total : option Z) : string :=
  match total with
  | Some n => str_of_int n
  | None => "None"
  end.

(** [display_zero or bundle.total > 0]; comparing [None] with [0]
    raises [TypeError], and [or] does not evaluate the comparison when
    [display_zero] holds. *)
Definition row_wanted (display_zero : bool) (total : option Z)
  : exn + bool :=
  if display_zero then inr true
  else match total with
       | Some n => inr (0 <? n)
       | None => inl TypeError
       end.

Set Implicit Arguments.

Section Listing.
Variable Resource : Type.
Variable Server : Type.
Variable request :
  string -> bool -> Server -> (exn + Bundle Resource) * Server.

(** The state of a listing: [l_world] holds the server, the request log
    and, as its sink, the rows of the table; [l_console] and [l_live]
    hold what the listing function has printed and shown. *)
Record listing (Row : Type) : Type := {
  l_world : world Server (list Row);
  l_console : list listing_message;
  l_live : list listing_live
}.

(** [for resource in capability_statement.rest[0].resource], over the
    [type] of each. *)
Fixpoint count_types (display_zero novalidation : bool) (tot : Z)
    (types : list string) (received : Z)
    (st : listing (string * string))
  : option exn * Z * listing (string * string) :=
  match types with
  | [] => (None, received, st)
  | type :: types' =>
      let (r, w1) :=
        bundle_read_from request (type ++ "?_summary=count") novalidation
          (l_world st) in
      let failed e :=
        (Some e, received,
         {| l_world := w1; l_console := l_console st;
            l_live := l_live st |}) in
      match r with
      | inl e => failed e
      | inr bundle =>
          match row_wanted display_zero (total bundle) with
          | inl e => failed e
          | inr wanted =>
              let w2 :=
                if wanted
                then with_sink
                       (w_sink w1
                        ++ [(type, str_of_total (total bundle))])
                       w1
                else w1 in
              let received1 := received + 1 in
              count_types display_zero novalidation tot types' received1
                {| l_world := w2; l_console := l_console st;
                   l_live := l_live st ++ [LiveProcessed received1 tot] |}
          end
      end
  end.

(** [list_resources(fc, capability_statement, display_zero,
    novalidation)]; [base_uri] is [fc.server.base_uri] and [types] holds
    the [type] of each element of
    [capability_statement.rest[0].resource]. *)
Definition list_resources (base_uri : string) (types : list string)
    (display_zero novalidation : bool) (st : listing (string * string))
  : outcome * listing (string * string) :=
  let total := Z.of_nat (List.length types) in
  let st1 :=
    {| l_world := with_sink [] (l_world st);
       l_console := l_console st ++ [MsgFetchingList base_uri;
                                     MsgTypesOnServer total];
       l_live := l_live st ++ [LiveProcessing] |} in
  match count_types display_zero novalidation total types 0 st1 with
  | (Some e, _, st2) => (Raise e, st2)
  | (None, received, st2) =>
      (Return 0,
       {| l_world := l_world st2;
          l_console := l_console st2
                       ++ [MsgProcessed received total; MsgEmptyLine;
                           MsgCountTable (w_sink (l_world st2))];
          l_live := l_live st2 |})
  end.

(** The three attribute reads of a record; each raises
    [AttributeError] on a record that has no such attribute. *)
Variable name_of : Resource -> exn + option string.
Variable type_of : Resource -> exn + option string.
Variable url_of : Resource -> exn + option string.
Variable as_json : Resource -> json.

(** The [process_entry] of [list_structure_definitions]:
    [table.add_row(structure_definition.name, structure_definition.type,
    structure_definition.url)].  It is passed the record itself
    ([pass_entry_as_json] is [False]); a JSON dictionary has none of the
    attributes. *)
Definition add_definition_row (arg : json + Resource)
    (table : list definition_row) : list definition_row * option exn :=
  match arg with
  | inl _ => (table, Some AttributeError)
  | inr structure_definition =>
      match name_of structure_definition with
      | inl e => (table, Some e)
      | inr name =>
          match type_of structure_definition with
          | inl e => (table, Some e)
          | inr type =>
              match url_of structure_definition with
              | inl e => (table, Some e)
              | inr url => (table ++ [(name, type, url)], None)
              end
          end
      end
  end.

(** [rich_console.print(table)] reads the cells of the table as console
    markup, as it reads the labels of the tree of [inspect_resource], and
    the cells hold the [name], [type] and [url] of the records:
    [table_error rows] is what printing the table raises, if anything. *)
Variable table_error : list definition_row -> option exn.

(** The world in which [list_structure_definitions] calls
    [fetch_resources]: the server and the request log of the listing, an
    empty table and an empty console, whose lines are put on the console
    of the listing afterwards. *)
Definition definitions_world (st : listing definition_row)
  : world Server (list definition_row) :=
  {| w_server := w_server (l_world st);
     w_requested := w_requested (l_world st);
     w_console := [];
     w_live := w_live (l_world st);
     w_sink := [] |}.

(** [list_structure_definitions(fc, capability_statement, novalidation)].
    The lines that the call of [fetch_resources] prints are put on the
    console of the listing in the order they were printed. *)
Definition list_structure_definitions (fuel : nat)
    (base base_uri : string) (novalidation : bool)
    (st : listing definition_row)
  : option (outcome * listing definition_row) :=
  match fetch_resources request as_json add_definition_row fuel base
          "StructureDefinition" None novalidation false
          (definitions_world st) with
  | None => None
  | Some (out, w1) =>
      let console :=
        l_console st ++ MsgFetchingDefinitions base_uri
        :: map MsgOfFetch (w_console w1) in
      let ended printed :=
        {| l_world := w1; l_console := printed; l_live := l_live st |} in
      match out with
      | Raise e => Some (Raise e, ended console)
      | Return status =>
          if status =? 0 then
            match table_error (w_sink w1) with
            | Some e => Some (Raise e, ended (console ++ [MsgEmptyLine]))
            | None =>
                Some (Return 0,
                      ended (console
                             ++ [MsgEmptyLine;
                                 MsgDefinitionTable (w_sink w1)]))
            end
          else Some (Return 1, ended console)
      end
  end.

(** The count queries for [types], one after the other, are answered with
    bundles whose totals are [totals]. *)
Inductive counted (novalidation : bool) :
  Server -> list string -> list (option Z) -> Server -> Prop :=
| counted_none srv : counted novalidation srv [] [] srv
| counted_type srv type b srv1 types totals srv' :
    request (count_path type) novalidation srv = (inr b, srv1) ->
    counted novalidation srv1 types totals srv' ->
    counted novalidation srv (type :: types)
      (total b :: totals) srv'.
End Listing.

Unset Implicit Arguments.


(** The row of a record whose attributes are all there. *)
Definition row_of_record {Resource : Type}
    (name_of type_of url_of : Resource -> exn + option string)
    (r : Resource) (row : definition_row) : Prop :=
  name_of r = inr (fst (fst row))
  /\ type_of r = inr (snd (fst row))
  /\ url_of r = inr (snd row).
(** With [display_zero], or when every count bundle has a total, no
    comparison raises. *)
Definition comparable (display_zero : bool) (totals : list (option Z))
  : Prop :=
  display_zero = true \/ Forall (fun t => t <> None) totals.

(** A listing that starts from nothing, on the server of the examples. *)
Definition fresh_listing {Row : Type} : listing unit Row :=
  {| l_world := fresh []; l_console := []; l_live := [] |}.

(** A server that holds three patients and no observation, and whose
    count of devices does not pass validation. *)
Definition type_counts : list (string * (exn + Bundle json)) :=
  [("Patient?_summary=count"%string, inr (count_only 3));
   ("Observation?_summary=count"%string, inr (count_only 0));
   ("Device?_summary=count"%string, inl FHIRValidationError)].

(** An attribute of a record of the examples: the string at the key, or
    [None] when the key holds nothing of the kind. *)
Definition attribute (key : string) (r : json) : exn + option string :=
  match r with
  | JDict fields =>
      match Dict.get key fields with
      | Some (JStr s) => inr (Some s)
      | _ => inr None
      end
  | _ => inl AttributeError
  end.

(** [rich] takes the tables of the examples. *)
Definition table_accepted (rows : list definition_row) : option exn :=
  None.

(** A server with one page of one record, whose [name] closes a tag that
    was not opened, and what [rich] raises for the tree of this record:
    it refuses the line of [name]. *)
Definition unmatched_tag : list (string * (exn + Bundle json)) :=
  [("Patient?_summary=count"%string, inr (count_only 1));
   ("Patient"%string,
    inr (page (Some [JDict [("name"%string, JStr "Ray [/old]")]]) None))].

Definition refuses_the_tree (m : message) : option exn :=
  match m with
  | MsgTree _ =>
      Some (Exception "closing tag '[/old]' doesn't match any open tag")
  | _ => None
  end.

(** A server with one page of two structure definitions, the second
    without a [type]. *)
Definition two_definitions : list (string * (exn + Bundle json)) :=
  [("StructureDefinition?_summary=count"%string, inr (count_only 2));
   ("StructureDefinition"%string,
    inr (page
           (Some [JDict [("name"%string, JStr "Bp");
                         ("type"%string, JStr "Observation");
                         ("url"%string, JStr "http://x/Bp")];
                  JDict [("name"%string, JStr "Pt");
                         ("url"%string, JStr "http://x/Pt")]])
           None))].

(** * Properties *)

(** ** Dictionaries *)

Module DictFacts.
Section Facts.
Variable V : Type.
Implicit Types (d : Dict.t V) (k : string) (v : V).

Lemma get_set_same k v d : Dict.get k (Dict.set k v d) = Some v.
Proof.
  induction d as [|[k' v'] d IH]; simpl.
  - now rewrite String.eqb_refl.
  - destruct (String.eqb k k') eqn:E; simpl; rewrite E; auto.
Qed.

Lemma get_set_other k k' v d :
  k' <> k -> Dict.get k' (Dict.set k v d) = Dict.get k' d.
Proof.
  intros Hne. induction d as [|[k0 v0] d IH]; simpl.
  - apply String.eqb_neq in Hne. now rewrite Hne.
  - destruct (String.eqb k k0) eqn:E; simpl.
    + apply String.eqb_eq in E. subst k0.
      apply String.eqb_neq in Hne. now rewrite Hne.
    + now rewrite IH.
Qed.

Lemma get_none_iff k d : Dict.get k d = None <-> ~ In k (Dict.keys d).
Proof.
  induction d as [|[k' v'] d IH]; simpl.
  - tauto.
  - destruct (String.eqb k k') eqn:E.
    + apply String.eqb_eq in E. subst. split; [discriminate | tauto].
    + apply String.eqb_neq in E. rewrite IH. split.
      * intros H [H'|H']; [congruence | tauto].
      * tauto.
Qed.

(** Assigning to a new key appends it. *)
Lemma set_new k v d : Dict.get k d = None -> Dict.set k v d = d ++ [(k, v)].
Proof.
  induction d as [|[k' v'] d IH]; simpl; auto.
  destruct (String.eqb k k'); [discriminate|].
  intros H. now rewrite IH.
Qed.

(** Assigning never moves, adds twice or drops a key. *)
Lemma keys_set k v d :
  Dict.keys (Dict.set k v d) =
  if Dict.mem k d then Dict.keys d else Dict.keys d ++ [k].
Proof.
  unfold Dict.mem. induction d as [|[k' v'] d IH]; simpl; auto.
  destruct (String.eqb k k') eqn:E; simpl; auto.
  rewrite IH. now destruct (Dict.get k d).
Qed.

Lemma wf_set k v d : Dict.wf d -> Dict.wf (Dict.set k v d).
Proof.
  unfold Dict.wf. intros H. rewrite keys_set. unfold Dict.mem.
  destruct (Dict.get k d) eqn:E; auto.
  apply get_none_iff in E.
  apply NoDup_rev in H. rewrite <- (rev_involutive (_ ++ _)).
  apply NoDup_rev. rewrite rev_app_distr. simpl. constructor; auto.
  now rewrite <- in_rev.
Qed.

Lemma fold_set_fresh (l : list (string * V)) : forall d,
  NoDup (Dict.keys (d ++ l)) ->
  fold_left (fun d kv => Dict.set (fst kv) (snd kv) d) l d = d ++ l.
Proof.
  induction l as [|[k v] l IH]; intros d H; simpl.
  - now rewrite app_nil_r.
  - rewrite set_new.
    + rewrite IH; rewrite <- app_assoc; auto.
    + apply get_none_iff. unfold Dict.keys in *.
      rewrite map_app in H. simpl in H.
      apply NoDup_remove_2 in H. intros Hin. apply H.
      apply in_or_app. now left.
Qed.

(** [dict(pairs)] of pairs with distinct keys keeps them as they are. *)
Lemma of_items_wf (l : list (string * V)) : Dict.wf l -> Dict.of_items l = l.
Proof. intros H. unfold Dict.of_items. now rewrite fold_set_fresh. Qed.
End Facts.
End DictFacts.

(** ** Sorting by descending count *)


Lemma insert_desc_perm x l : Permutation (insert_desc x l) (x :: l).
Proof.
  induction l as [|y l IH]; simpl; auto.
  destruct (snd x <? snd y); auto.
  rewrite IH. apply perm_swap.
Qed.

Lemma sorted_desc_perm l : Permutation (sorted_desc l) l.
Proof.
  induction l as [|x l IH]; simpl; auto.
  rewrite insert_desc_perm. now constructor.
Qed.

Lemma insert_desc_sorted x l :
  StronglySorted count_ge l -> StronglySorted count_ge (insert_desc x l).
Proof.
  induction 1 as [|y l Hs IH Hall]; simpl.
  - repeat constructor.
  - destruct (snd x <? snd y) eqn:E.
    + constructor; auto.
      rewrite Forall_forall in *. intros z Hz.
      apply (Permutation_in _ (insert_desc_perm x l)) in Hz.
      destruct Hz as [<-|Hz]; auto.
      unfold count_ge. apply Z.ltb_lt in E. lia.
    + apply Z.ltb_ge in E. constructor.
      * now constructor.
      * constructor; [exact E|].
        rewrite Forall_forall in *. intros z Hz.
        specialize (Hall z Hz). unfold count_ge in *. lia.
Qed.

Lemma sorted_desc_sorted l : StronglySorted count_ge (sorted_desc l).
Proof.
  induction l; simpl; [constructor | now apply insert_desc_sorted].
Qed.


Lemma insert_desc_stable n x l :
  filter (has_count n) (insert_desc x l) = filter (has_count n) (x :: l).
Proof.
  induction l as [|y l IH]; simpl; auto.
  destruct (snd x <? snd y) eqn:E; simpl; auto.
  rewrite IH. simpl. unfold has_count.
  destruct (snd x =? n) eqn:Ex, (snd y =? n) eqn:Ey; auto.
  apply Z.ltb_lt in E. apply Z.eqb_eq in Ex, Ey. lia.
Qed.

(** Entries with the same count come out in the order they went in. *)
Lemma sorted_desc_stable n l :
  filter (has_count n) (sorted_desc l) = filter (has_count n) l.
Proof.
  induction l as [|x l IH]; simpl; auto.
  rewrite insert_desc_stable. simpl. now rewrite IH.
Qed.

Lemma NoDup_firstn {A} (l : list A) : forall m, NoDup l -> NoDup (firstn m l).
Proof.
  induction l as [|a l IH]; intros [|m] H; simpl; try constructor.
  - inversion_clear H as [|? ? Hn Hd]. intros Hin. apply Hn.
    rewrite <- (firstn_skipn m l). apply in_or_app. now left.
  - inversion_clear H. auto.
Qed.

Lemma top_values_eq m values :
  Dict.wf values -> top_values m values = firstn m (sorted_desc values).
Proof.
  intros H. unfold top_values. apply DictFacts.of_items_wf.
  unfold Dict.wf, Dict.keys in *. rewrite <- firstn_map.
  apply NoDup_firstn.
  eapply Permutation_NoDup; [|exact H].
  apply Permutation_map. symmetry. apply sorted_desc_perm.
Qed.

(** ** Strings *)

Lemma str_app_assoc (a b c : string) : ((a ++ b) ++ c = a ++ (b ++ c))%string.
Proof. induction a as [|x a IH]; simpl; [|rewrite IH]; reflexivity. Qed.

Lemma str_app_nil_r (a : string) : (a ++ "")%string = a.
Proof. induction a as [|x a IH]; simpl; [|rewrite IH]; reflexivity. Qed.

Lemma str_length_app (a b : string) :
  String.length (a ++ b) = (String.length a + String.length b)%nat.
Proof. induction a as [|x a IH]; simpl; [|rewrite IH]; reflexivity. Qed.

Lemma str_take_length (n : nat) : forall s,
  String.length (str_take n s) = Nat.min n (String.length s).
Proof.
  induction n as [|n IH]; intros [|c s]; simpl; auto.
Qed.

(** ** The renderer's leaf line *)

Ltac distinct_keys :=
  unfold Dict.wf, Dict.keys; simpl;
  repeat (constructor; [simpl; intuition discriminate|]); constructor.

(** ** The profiler *)

Arguments process_entry : simpl never.

Section ProfilerFacts.
Variable n : nat.
Variable inspect : bool.
Variable max_level : Z.

Lemma process_values_fix (level : Z) (key : string) :
  forall (subvalues : list json) (store : node),
    (fix each (vs : list json) (store : node) : node * option exn :=
       match vs with
       | [] => (store, None)
       | subvalue :: vs' =>
           let (store1, e) :=
             process_subvalue n inspect max_level level key subvalue store in
           match e with
           | Some _ => (store1, e)
           | None => each vs' store1
           end
       end) subvalues store
    = process_values n inspect max_level level key subvalues store.
Proof.
  induction subvalues as [|sv subvalues IH]; intros store; simpl; auto.
  destruct (process_subvalue n inspect max_level level key sv store)
    as [s1 [e|]]; auto.
Qed.

(** [process_entry] on a dictionary runs the loop over its fields. *)
Lemma process_entry_fields (fs : list (string * json)) :
  forall (store : node) (level : Z),
    process_entry n inspect max_level (JDict fs) store level
    = process_fields n inspect max_level level fs store.
Proof.
  intros store level. revert store.
  induction fs as [|[key value] fs IH]; intros store; [reflexivity|].
  change (process_entry n inspect max_level (JDict ((key, value) :: fs))
            store level)
    with (let (store1, e) :=
            match value with
            | JList subvalues =>
                (fix each (vs : list json) (store : node)
                   : node * option exn :=
                   match vs with
                   | [] => (store, None)
                   | subvalue :: vs' =>
                       let (store1, e) :=
                         process_subvalue n inspect max_level level key
                           subvalue store in
                       match e with
                       | Some _ => (store1, e)
                       | None => each vs' store1
                       end
                   end) subvalues store
            | _ => process_subvalue n inspect max_level level key value store
            end in
          match e with
          | Some _ => (store1, e)
          | None => process_entry n inspect max_level (JDict fs) store1 level
          end).
  simpl process_fields. unfold process_field.
  destruct value; try rewrite process_values_fix;
    match goal with
    | |- (let (_, _) := ?x in _) = _ => destruct x as [s1 [e|]]
    end; auto.
Qed.





End ProfilerFacts.

(** *** A node keeps its kind *)

Lemma keeps_kinds_refl t : keeps_kinds t t.
Proof. intros path kind H. exact H. Qed.

Lemma keeps_kinds_trans t1 t2 t3 :
  keeps_kinds t1 t2 -> keeps_kinds t2 t3 -> keeps_kinds t1 t3.
Proof. intros H12 H23 path kind H. auto. Qed.

(** Putting, at a key, a node that keeps the kinds of what was there. *)
Lemma keeps_kinds_set (key : string) (child' : node)
    (d : list (string * node)) :
  (forall child, Dict.get key d = Some child -> keeps_kinds child child') ->
  keeps_kinds (Branch d) (Branch (Dict.set key child' d)).
Proof.
  intros Hchild [|k path] kind; simpl; auto.
  destruct (String.eqb k key) eqn:E.
  - apply String.eqb_eq in E. subst k.
    rewrite DictFacts.get_set_same.
    destruct (Dict.get key d) as [child|] eqn:Hget; [|discriminate].
    apply (Hchild child eq_refl).
  - apply String.eqb_neq in E.
    now rewrite DictFacts.get_set_other.
Qed.

Section KindsKept.
Variable n : nat.
Variable inspect : bool.
Variable max_level : Z.

Lemma store_item_keeps_kinds (key : string) (sv : json) (store : node) :
  keeps_kinds store (fst (store_item n inspect key sv store)).
Proof.
  destruct store as [c v|d]; simpl; [apply keeps_kinds_refl|].
  destruct (Dict.get key d) as [[c v|d']|] eqn:Hget; simpl;
    try apply keeps_kinds_refl;
    apply keeps_kinds_set; intros child Hc; rewrite Hget in Hc;
    inversion Hc; subst.
  intros [|k path] kind; simpl; [auto | discriminate].
Qed.

Local Abbreviation entry_keeps_kinds :=
  (entry_keeps_kinds n inspect max_level).

Lemma process_subvalue_keeps_kinds (level : Z) (key : string) (sv : json)
    (store : node) :
  entry_keeps_kinds sv ->
  keeps_kinds store
    (fst (process_subvalue n inspect max_level level key sv store)).
Proof.
  intros Hsv. unfold process_subvalue.
  destruct sv; try apply store_item_keeps_kinds.
  destruct (level <? max_level); [|apply store_item_keeps_kinds].
  destruct store as [c v|d0]; [apply keeps_kinds_refl|].
  destruct (Dict.get key d0) as [child|] eqn:Hget.
  - pose proof (Hsv child (level + 1)) as Hc.
    destruct (process_entry n inspect max_level (JDict d) child (level + 1))
      as [child' e]. simpl in *.
    apply keeps_kinds_set. intros c Hc'. rewrite Hget in Hc'.
    now inversion Hc'; subst.
  - pose proof (Hsv (Branch []) (level + 1)) as Hc.
    destruct (process_entry n inspect max_level (JDict d) (Branch [])
                (level + 1)) as [child' e]. simpl in *.
    eapply keeps_kinds_trans.
    + apply (keeps_kinds_set key (Branch [])). intros c Hc'.
      rewrite Hget in Hc'. discriminate.
    + apply keeps_kinds_set. intros c Hc'.
      rewrite DictFacts.get_set_same in Hc'. now inversion Hc'; subst.
Qed.

Lemma process_values_keeps_kinds (level : Z) (key : string)
    (vs : list json) :
  Forall entry_keeps_kinds vs ->
  forall store,
    keeps_kinds store
      (fst (process_values n inspect max_level level key vs store)).
Proof.
  induction 1 as [|sv vs Hsv _ IH]; intros store; simpl;
    [apply keeps_kinds_refl|].
  pose proof (process_subvalue_keeps_kinds level key sv store Hsv) as H1.
  destruct (process_subvalue n inspect max_level level key sv store)
    as [s1 [e|]]; simpl in *; auto.
  eapply keeps_kinds_trans; [exact H1 | apply IH].
Qed.

(** Whatever [process_entry] does to the tree, and whether it raises or
    not, a node that was there is still there and of the same kind. *)
Lemma process_entry_keeps_kinds (entry : json) : entry_keeps_kinds entry.
Proof.
  enough (H : entry_keeps_kinds entry
              /\ match entry with
                 | JList l => Forall entry_keeps_kinds l
                 | _ => True
                 end) by apply H.
  induction entry as [| | | | |l IH|fs IH] using json_children_ind;
    try (split; [intros store level; apply keeps_kinds_refl | exact I]).
  - split; [intros store level; apply keeps_kinds_refl|].
    eapply Forall_impl; [|exact IH]. intros j Hj. apply Hj.
  - split; [|exact I]. intros store level.
    rewrite process_entry_fields. revert store.
    induction IH as [|[key value] fs [Hv Hl] _ IHfs]; intros store; simpl;
      [apply keeps_kinds_refl|].
    assert (H1 : keeps_kinds store
                   (fst (process_field n inspect max_level level key value
                           store))).
    { unfold process_field. simpl in Hv, Hl.
      destruct value;
        try (apply process_subvalue_keeps_kinds; exact Hv).
      now apply process_values_keeps_kinds. }
    destruct (process_field n inspect max_level level key value store)
      as [s1 [e|]]; simpl in *; auto.
    eapply keeps_kinds_trans; [exact H1 | apply IHfs].
Qed.
End KindsKept.

(** *** At or beyond the nesting limit

    Nothing is recursed into there: a tree whose children are all leaves
    takes every field, nested object or not, as leaf occurrences, and the
    fold does not raise. *)

Lemma Forall_children_get {P : node -> Prop} (key : string)
    (d : list (string * node)) (child : node) :
  Forall (fun kv => P (snd kv)) d -> Dict.get key d = Some child -> P child.
Proof.
  induction 1 as [|[k c] d Hc _ IH]; simpl; [discriminate|].
  destruct (String.eqb key k); auto. intros H. now inversion H; subst.
Qed.

Lemma Forall_children_set {P : node -> Prop} (key : string) (child : node)
    (d : list (string * node)) :
  Forall (fun kv => P (snd kv)) d -> P child ->
  Forall (fun kv => P (snd kv)) (Dict.set key child d).
Proof.
  intros Hd Hc. induction Hd as [|[k c] d Hk Hd IH]; simpl.
  - repeat constructor. exact Hc.
  - destruct (String.eqb key k); constructor; auto.
Qed.

Lemma all_leaves_get (key : string) (d : list (string * node)) (child : node) :
  all_leaves d -> Dict.get key d = Some child -> is_branch child = false.
Proof.
  exact (Forall_children_get (P := fun c => is_branch c = false) key d child).
Qed.

Lemma all_leaves_set (key : string) (c : Z) (v : list (string * Z))
    (d : list (string * node)) :
  all_leaves d -> all_leaves (Dict.set key (Leaf c v) d).
Proof.
  intros Hd.
  now apply (Forall_children_set (P := fun c => is_branch c = false)).
Qed.

Section AtTheLimit.
Variable n : nat.
Variable inspect : bool.
Variable max_level level : Z.
Hypothesis at_limit : max_level <= level.

Lemma store_item_all_leaves (key : string) (sv : json)
    (d : list (string * node)) :
  all_leaves d ->
  exists d', store_item n inspect key sv (Branch d) = (Branch d', None)
             /\ all_leaves d'.
Proof.
  intros Hd. unfold store_item.
  destruct (Dict.get key d) as [[c v|d0]|] eqn:Hget.
  - eexists. split; [reflexivity|]. now apply all_leaves_set.
  - apply (all_leaves_get _ _ _ Hd) in Hget. discriminate.
  - eexists. split; [reflexivity|]. now apply all_leaves_set.
Qed.

Lemma process_subvalue_at_limit (key : string) (sv : json)
    (d : list (string * node)) :
  all_leaves d ->
  exists d',
    process_subvalue n inspect max_level level key sv (Branch d)
    = (Branch d', None)
    /\ all_leaves d'.
Proof.
  intros Hd. unfold process_subvalue.
  assert (Hl : (level <? max_level) = false) by (apply Z.ltb_ge; lia).
  destruct sv; rewrite ?Hl; now apply store_item_all_leaves.
Qed.

Lemma process_values_at_limit (key : string) (vs : list json) :
  forall d,
    all_leaves d ->
    exists d',
      process_values n inspect max_level level key vs (Branch d)
      = (Branch d', None)
      /\ all_leaves d'.
Proof.
  induction vs as [|sv vs IH]; intros d Hd; simpl; [eauto|].
  destruct (process_subvalue_at_limit key sv d Hd) as (d1 & -> & Hd1).
  now apply IH.
Qed.

Lemma process_entry_at_limit (fs : list (string * json)) :
  forall d,
    all_leaves d ->
    exists d',
      process_entry n inspect max_level (JDict fs) (Branch d) level
      = (Branch d', None)
      /\ all_leaves d'.
Proof.
  intros d Hd. rewrite process_entry_fields. revert d Hd.
  induction fs as [|[key value] fs IH]; intros d Hd; simpl; [eauto|].
  assert (H1 : exists d1,
             process_field n inspect max_level level key value (Branch d)
             = (Branch d1, None) /\ all_leaves d1).
  { unfold process_field.
    destruct value; try (now apply process_subvalue_at_limit).
    now apply process_values_at_limit. }
  destruct H1 as (d1 & -> & Hd1). now apply IH.
Qed.
End AtTheLimit.

(** *** The values of a leaf stay a dictionary *)

Section ValuesWf.
Variable n : nat.
Variable inspect : bool.
Variable max_level : Z.

Lemma count_value_wf (s : string) (values : list (string * Z)) :
  Dict.wf values -> Dict.wf (count_value s values).
Proof.
  intros H. unfold count_value.
  destruct (Dict.get s values); now apply DictFacts.wf_set.
Qed.

Lemma store_item_values_wf (key : string) (sv : json) (store : node) :
  values_wf store -> values_wf (fst (store_item n inspect key sv store)).
Proof.
  intros Hs. destruct store as [c v|d]; simpl; auto.
  inversion_clear Hs as [|? Hd].
  destruct (Dict.get key d) as [[c v|d']|] eqn:Hget; simpl.
  - apply (Forall_children_get _ _ _ Hd) in Hget.
    inversion_clear Hget as [? ? Hv|].
    constructor. apply Forall_children_set; auto.
    constructor. destruct inspect; auto. now apply count_value_wf.
  - now constructor.
  - constructor. apply Forall_children_set; auto.
    constructor. destruct inspect; [apply count_value_wf|]; constructor.
Qed.

Local Abbreviation entry_keeps_values_wf :=
  (entry_keeps_values_wf n inspect max_level).

Lemma process_subvalue_values_wf (level : Z) (key : string) (sv : json)
    (store : node) :
  entry_keeps_values_wf sv ->
  values_wf store ->
  values_wf (fst (process_subvalue n inspect max_level level key sv store)).
Proof.
  intros Hsv Hs. unfold process_subvalue.
  destruct sv; try (now apply store_item_values_wf).
  destruct (level <? max_level); [|now apply store_item_values_wf].
  destruct store as [c v|d0]; [exact Hs|].
  inversion_clear Hs as [|? Hd].
  destruct (Dict.get key d0) as [child|] eqn:Hget.
  - pose proof (Hsv child (level + 1)
                  (Forall_children_get _ _ _ Hd Hget)) as Hc.
    destruct (process_entry n inspect max_level (JDict d) child (level + 1))
      as [child' e]. simpl in *.
    constructor. now apply Forall_children_set.
  - assert (Hempty : values_wf (Branch [])) by repeat constructor.
    pose proof (Hsv (Branch []) (level + 1) Hempty) as Hc.
    destruct (process_entry n inspect max_level (JDict d) (Branch [])
                (level + 1)) as [child' e]. simpl in *.
    constructor. apply Forall_children_set; auto.
    now apply Forall_children_set.
Qed.

Lemma process_values_values_wf (level : Z) (key : string) (vs : list json) :
  Forall entry_keeps_values_wf vs ->
  forall store,
    values_wf store ->
    values_wf (fst (process_values n inspect max_level level key vs store)).
Proof.
  induction 1 as [|sv vs Hsv _ IH]; intros store Hs; simpl; auto.
  pose proof (process_subvalue_values_wf level key sv store Hsv Hs) as H1.
  destruct (process_subvalue n inspect max_level level key sv store)
    as [s1 [e|]]; simpl in *; auto.
Qed.

(** [process_entry] keeps the values of every leaf a dictionary, whether
    it raises or not. *)
Lemma process_entry_values_wf (entry : json) : entry_keeps_values_wf entry.
Proof.
  enough (H : entry_keeps_values_wf entry
              /\ match entry with
                 | JList l => Forall entry_keeps_values_wf l
                 | _ => True
                 end) by apply H.
  induction entry as [| | | | |l IH|fs IH] using json_children_ind;
    try (split; [intros store level Hs; exact Hs | exact I]).
  - split; [intros store level Hs; exact Hs|].
    eapply Forall_impl; [|exact IH]. intros j Hj. apply Hj.
  - split; [|exact I]. intros store level.
    rewrite process_entry_fields. revert store.
    induction IH as [|[key value] fs [Hv Hl] _ IHfs]; intros store Hs;
      simpl; auto.
    assert (H1 : values_wf
                   (fst (process_field n inspect max_level level key value
                           store))).
    { unfold process_field. simpl in Hv, Hl.
      destruct value;
        try (apply process_subvalue_values_wf; assumption).
      now apply process_values_values_wf. }
    destruct (process_field n inspect max_level level key value store)
      as [s1 [e|]]; simpl in *; auto.
Qed.
End ValuesWf.


(** C8, as stated, fails: a value of 51 characters is stored whole, not cut
    to 50 characters with an ellipsis. *)
Lemma value_of_51_chars_stored_whole :
  String.length fifty_one_chars = 51%nat
  /\ store_item max_item_str_len true "k" (JStr fifty_one_chars) (Branch [])
     = (Branch [("k", Leaf 1 [(fifty_one_chars, 1)])], None)
  /\ fifty_one_chars <> (str_take 50 fifty_one_chars ++ "...")%string.
Proof. repeat split. discriminate. Qed.

(** C8, amended: with value inspection on, a leaf occurrence is counted
    under the string form of the element, cut to its first 50 characters
    followed by "..." only when it is longer than 53 characters and taken
    whole otherwise, so a key has at most 53 characters; that key's count
    goes up by 1 (to 1 for a new key), no other key's count changes, and
    the leaf's count goes up by 1. *)
Theorem leaf_value_key_cut_beyond_53 :
  forall (key : string) (subvalue : json) (d : list (string * node))
         (c : Z) (values : list (string * Z)),
    Dict.get key d = Some (Leaf c values)
    \/ (Dict.get key d = None /\ c = 0 /\ values = []) ->
    let s := py_str subvalue in
    let k := if (53 <? String.length s)%nat
             then (str_take 50 s ++ "...")%string else s in
    exists values',
      store_item max_item_str_len true key subvalue (Branch d)
      = (Branch (Dict.set key (Leaf (c + 1) values') d), None)
      /\ Dict.get k values'
         = Some (match Dict.get k values with Some m => m + 1 | None => 1 end)
      /\ (forall k', k' <> k -> Dict.get k' values' = Dict.get k' values)
      /\ (String.length k <= 53)%nat.
Proof.
  intros key subvalue d c values H s k.
  exists (count_value k values). repeat split.
  - unfold store_item.
    destruct H as [H|(H & -> & ->)]; rewrite H; reflexivity.
  - unfold count_value.
    destruct (Dict.get k values); apply DictFacts.get_set_same.
  - intros k' Hne. unfold count_value.
    destruct (Dict.get k values); now apply DictFacts.get_set_other.
  - subst k. destruct (53 <? String.length s)%nat eqn:E.
    + rewrite str_length_app, str_take_length.
      change (String.length "...") with 3%nat. lia.
    + now apply Nat.ltb_ge in E.
Qed.

Lemma leaf_value_key_cut_beyond_53_witness :
  exists values',
    store_item max_item_str_len true "k" (JStr fifty_one_chars)
      (Branch [("k", Leaf 2 [("a", 2)])])
    = (Branch (Dict.set "k" (Leaf (2 + 1) values')
                 [("k", Leaf 2 [("a", 2)])]), None)
    /\ Dict.get fifty_one_chars values' = Some 1
    /\ (forall k', k' <> fifty_one_chars ->
                   Dict.get k' values' = Dict.get k' [("a", 2)])
    /\ (String.length fifty_one_chars <= 53)%nat.
Proof.
  apply (leaf_value_key_cut_beyond_53 "k" (JStr fifty_one_chars)
           [("k", Leaf 2 [("a", 2)])] 2 [("a", 2)]).
  left. reflexivity.
Defined.

(** C5: where one path holds a scalar in one place and an object in
    another, the fold raises instead of folding the later occurrence into
    the node that is there.  A leaf followed by an object below the nesting
    limit raises [TypeError]; a branch followed by a scalar raises
    [KeyError].  The node keeps its kind in both cases. *)
Theorem opposite_shape_raises :
  process_entry max_item_str_len false 9 patient_with_contained (Branch []) 0
  = (Branch [("resourceType", Leaf 1 []);
             ("contained", Branch [("resourceType", Leaf 2 []);
                                   ("name", Leaf 1 [])])],
     Some TypeError)
  /\ process_entry max_item_str_len false 9
       (JDict [("a", JList [JDict [("b", JInt 1)]; JInt 2])]) (Branch []) 0
     = (Branch [("a", Branch [("b", Leaf 1 [])])], Some KeyError).
Proof. split; reflexivity. Qed.

(** ** The renderer and the tree *)


Section RendererFacts.
Variable inspect_items : bool.
Variable m : nat.
Variable gray : string.

Lemma build_tree_items (d : list (string * node)) :
  build_tree inspect_items m gray (Branch d)
  = (fst (build_items inspect_items m gray d),
     Branch (snd (build_items inspect_items m gray d))).
Proof.
  simpl.
  match goal with
  | |- (let (_, _) := ?loop d in _) = _ =>
      assert (H : loop d = build_items inspect_items m gray d)
  end.
  { induction d as [|[key value] d IH]; [reflexivity|].
    simpl build_items. rewrite <- IH. unfold build_item.
    destruct value; reflexivity. }
  rewrite H. now destruct (build_items inspect_items m gray d).
Qed.

Arguments build_tree : simpl never.

Lemma build_item_after (key : string) (value : node) :
  (forall d, value = Branch d ->
             snd (build_tree inspect_items m gray value)
             = map_values (rendered_values inspect_items m) value) ->
  snd (build_item inspect_items m gray key value)
  = map_values (rendered_values inspect_items m) value.
Proof.
  intros IH. destruct value as [c values|d]; simpl.
  - unfold build_leaf, rendered_values. now destruct inspect_items.
  - specialize (IH d eq_refl).
    destruct (build_tree inspect_items m gray (Branch d)). exact IH.
Qed.

Lemma build_tree_after (t : node) :
  forall d, t = Branch d ->
            snd (build_tree inspect_items m gray t)
            = map_values (rendered_values inspect_items m) t.
Proof.
  induction t as [c values|d0 IH] using node_children_ind;
    intros d Ht; [discriminate|].
  rewrite build_tree_items. simpl. f_equal.
  clear d Ht. induction IH as [|[key value] rest Hv _ IHrest];
    [reflexivity|].
  simpl in Hv. simpl.
  pose proof (build_item_after key value Hv) as Hi.
  destruct (build_item inspect_items m gray key value) as [sub value'].
  destruct (build_items inspect_items m gray rest) as [added rest']. simpl in *.
  now rewrite Hi, IHrest.
Qed.
End RendererFacts.

Lemma skeleton_map_values (f : list (string * Z) -> list (string * Z))
    (t : node) :
  skeleton (map_values f t) = skeleton t.
Proof.
  unfold skeleton.
  induction t as [c values|d IH] using node_children_ind; simpl; auto.
  f_equal. rewrite map_map.
  induction IH as [|[k child] rest Hc _ IHrest]; simpl; auto.
  simpl in Hc. now rewrite Hc, IHrest.
Qed.

Lemma map_values_id (t : node) : map_values (fun values => values) t = t.
Proof.
  induction t as [c values|d IH] using node_children_ind; simpl; auto.
  f_equal.
  induction IH as [|[k child] rest Hc _ IHrest]; simpl; auto.
  simpl in Hc. now rewrite Hc, IHrest.
Qed.

(** C3, as stated, fails: rendering with value inspection on changes the
    tree.  After 51 records with distinct ids the leaf at [id] holds 51
    values; after [build_tree] the tree itself holds 50 of them, and the
    value "50" is gone from it. *)
Lemma build_tree_cuts_the_tree :
  exists before after,
    tree_of_51 = Branch [("id", Leaf 51 before)]
    /\ snd (build_tree true max_item_count "white" tree_of_51)
       = Branch [("id", Leaf 51 after)]
    /\ Dict.get "50" before = Some 1
    /\ Dict.get "50" after = None
    /\ List.length before = 51%nat
    /\ List.length after = 50%nat
    /\ snd (build_tree true max_item_count "white" tree_of_51) <> tree_of_51.
Proof.
  eexists. eexists.
  split; [vm_compute; reflexivity|].
  split; [vm_compute; reflexivity|].
  repeat split. vm_compute. discriminate.
Qed.

(** C3, amended: rendering a tree leaves its Branch/Leaf structure, its
    keys, their order and every leaf count as they are.  With value
    inspection off the tree is unchanged.  With value inspection on, each
    leaf's values are replaced, in the tree itself, by the values sorted by
    descending count and cut to the first [max_item_count]. *)
Theorem build_tree_keeps_skeleton_rewrites_values :
  forall (inspect_items : bool) (m : nat) (gray : string)
         (d : list (string * node)),
    let after := snd (build_tree inspect_items m gray (Branch d)) in
    skeleton after = skeleton (Branch d)
    /\ after = (if inspect_items
                then map_values (top_values m) (Branch d)
                else Branch d).
Proof.
  intros inspect_items m gray d after.
  assert (H : after = map_values (rendered_values inspect_items m) (Branch d))
    by (now apply build_tree_after with (d := d)).
  split.
  - rewrite H. apply skeleton_map_values.
  - rewrite H. unfold rendered_values. destruct inspect_items; auto.
    apply map_values_id.
Qed.

(** The rendering of the child at a position. *)
Lemma build_items_nth (inspect_items : bool) (m : nat) (gray : string)
    (d : list (string * node)) :
  forall (i : nat) (key : string) (value : node),
    nth_error d i = Some (key, value) ->
    nth_error (fst (build_items inspect_items m gray d)) i
    = Some (fst (build_item inspect_items m gray key value))
    /\ nth_error (snd (build_items inspect_items m gray d)) i
       = Some (key, snd (build_item inspect_items m gray key value)).
Proof.
  induction d as [|[k v] d IH]; intros [|i] key value H;
    try discriminate; cbn [build_items].
  - inversion H; subst.
    destruct (build_item inspect_items m gray key value).
    destruct (build_items inspect_items m gray d). auto.
  - destruct (build_item inspect_items m gray k v).
    specialize (IH i key value H).
    destruct (build_items inspect_items m gray d). exact IH.
Qed.

(** Where there is a leaf in the tree, the rendering has the line of that
    leaf and the tree has afterwards the leaf that [build_leaf] leaves. *)
Lemma build_tree_at_leaf (inspect_items : bool) (m : nat) (gray : string)
    (path : list nat) :
  forall (d : list (string * node)) (key : string) (count : Z)
         (values : list (string * Z)),
    child_at path (Branch d) = Some (key, Leaf count values) ->
    rendered_at path (fst (build_tree inspect_items m gray (Branch d)))
    = Some (RTree (fst (build_leaf inspect_items m gray key count values))
              [])
    /\ child_at path (snd (build_tree inspect_items m gray (Branch d)))
       = Some (key, snd (build_leaf inspect_items m gray key count values)).
Proof.
  induction path as [|i path IH]; intros d key count values H;
    [discriminate|].
  cbn [child_at] in H.
  destruct (nth_error d i) as [[k child]|] eqn:Hn; [|discriminate].
  rewrite build_tree_items. cbn [fst snd rendered_at child_at].
  destruct (build_items_nth inspect_items m gray d i k child Hn)
    as [H1 H2].
  rewrite H1, H2.
  destruct path as [|j path].
  - inversion H; subst. unfold build_item.
    destruct (build_leaf inspect_items m gray key count values).
    split; reflexivity.
  - destruct child as [c v|d1]; [discriminate|].
    specialize (IH d1 key count values H). unfold build_item.
    destruct (build_tree inspect_items m gray (Branch d1))
      as [subs value'] eqn:E.
    cbn [fst snd] in *. exact IH.
Qed.

(** C9: with value inspection on, [build_tree] renders every leaf of every
    tree, wherever it is in the tree, as one line that shows its count and
    then its values sorted by descending count and cut to the first
    [max_item_count] of them, and leaves these values in the leaf; the sort
    is a permutation in descending order of counts that keeps values with
    the same count in insertion order.  For the values x:5, y:5, z:1 and a
    cut at 2 this gives x:5, y:5, in that order. *)
Theorem leaf_values_sorted_then_cut :
  forall (m : nat) (gray : string) (d : list (string * node))
         (path : list nat) (key : string) (count : Z)
         (values : list (string * Z)),
    child_at path (Branch d) = Some (key, Leaf count values) ->
    Dict.wf values ->
    let shown := firstn m (sorted_desc values) in
    rendered_at path (fst (build_tree true m gray (Branch d)))
    = Some (RTree ("[bold]" ++ key ++ "[/bold](" ++ str_of_int count ++ ")"
                     ++ newline ++ "[" ++ gray ++ "]"
                     ++ values_text shown)%string [])
    /\ child_at path (snd (build_tree true m gray (Branch d)))
       = Some (key, Leaf count shown)
    /\ Permutation (sorted_desc values) values
    /\ StronglySorted count_ge (sorted_desc values)
    /\ (forall n, filter (has_count n) (sorted_desc values)
                  = filter (has_count n) values)
    /\ build_tree true 2 "white"
         (Branch [("k", Leaf 11 [("x", 5); ("y", 5); ("z", 1)])])
       = ([RTree ("[bold]k[/bold](11)" ++ newline ++ "[white]x(5) y(5) ") []],
          Branch [("k", Leaf 11 [("x", 5); ("y", 5)])]).
Proof.
  intros m gray d path key count values Hat Hwf shown.
  destruct (build_tree_at_leaf true m gray path d key count values Hat)
    as [Hline Hleaf].
  assert (Hb : build_leaf true m gray key count values
               = (("[bold]" ++ key ++ "[/bold](" ++ str_of_int count ++ ")"
                     ++ newline ++ "[" ++ gray ++ "]"
                     ++ values_text shown)%string,
                  Leaf count shown)).
  { unfold build_leaf. rewrite (top_values_eq m values Hwf). fold shown.
    f_equal. now rewrite !str_app_assoc. }
  rewrite Hb in Hline, Hleaf.
  split; [exact Hline|]. split; [exact Hleaf|].
  split; [apply sorted_desc_perm|].
  split; [apply sorted_desc_sorted|].
  split; [intros n; apply sorted_desc_stable | reflexivity].
Qed.

Lemma leaf_values_sorted_then_cut_witness :
  rendered_at [1; 0]%nat
    (fst (build_tree true 2 "white" (Branch tree_with_inner_leaf)))
  = Some (RTree ("[bold]k[/bold](11)" ++ newline ++ "[white]x(5) y(5) ") [])
  /\ child_at [1; 0]%nat
       (snd (build_tree true 2 "white" (Branch tree_with_inner_leaf)))
     = Some ("k", Leaf 11 [("x", 5); ("y", 5)]).
Proof.
  destruct (leaf_values_sorted_then_cut 2 "white" tree_with_inner_leaf
              [1; 0]%nat "k" 11 [("x", 5); ("y", 5); ("z", 1)])
    as (Hline & Hleaf & _).
  - reflexivity.
  - distinct_keys.
  - split; [exact Hline | exact Hleaf].
Defined.

(** ** The cursor *)

Lemma rev_string_app (s acc : string) :
  rev_string acc s = (rev_string "" s ++ acc)%string.
Proof.
  revert acc. induction s as [|c s IH]; intros acc; simpl; auto.
  rewrite IH, (IH (String c "")), str_app_assoc. reflexivity.
Qed.

Lemma prefix_app (sep rest : string) : String.prefix sep (sep ++ rest) = true.
Proof.
  induction sep as [|c sep IH]; simpl.
  - now destruct rest.
  - destruct (ascii_dec c c); [exact IH | congruence].
Qed.

Lemma split_scan_nonempty (sep : string) (s : string) :
  forall skip cur, split_scan sep skip cur s <> [].
Proof.
  induction s as [|c s IH]; intros skip cur; cbn [split_scan];
    [discriminate|].
  destruct skip; auto.
  destruct (String.prefix sep (String c s)); [discriminate | auto].
Qed.

Lemma last_cons_nonempty {A} (x : A) (l : list A) (dflt : A) :
  l <> [] -> last (x :: l) dflt = last l dflt.
Proof. destruct l; [congruence | reflexivity]. Qed.

(** The characters of a matched separator are passed over. *)
Lemma split_scan_skip (sep : string) (matched : string) :
  forall rest cur,
    split_scan sep (String.length matched) cur (matched ++ rest)
    = split_scan sep 0 cur rest.
Proof.
  induction matched as [|c matched IH]; intros rest cur; simpl; auto.
Qed.

Lemma split_scan_match (sep rest cur : string) :
  sep <> ""%string ->
  split_scan sep 0 cur (sep ++ rest)
  = rev_string "" cur :: split_scan sep 0 "" rest.
Proof.
  intros Hne. destruct sep as [|c sep]; [congruence|].
  pose proof (prefix_app (String c sep) rest) as Hp.
  change ((String c sep ++ rest)%string) with (String c (sep ++ rest)) in *.
  cbn [split_scan]. rewrite Hp. f_equal.
  cbn [String.length]. rewrite Nat.sub_1_r. cbn [Nat.pred].
  apply split_scan_skip.
Qed.

Lemma split_scan_no_match (sep : string) (s : string) :
  forall cur,
    occurs sep s = false ->
    split_scan sep 0 cur s = [(rev_string "" cur ++ s)%string].
Proof.
  induction s as [|c s IH]; intros cur H; cbn [split_scan occurs] in *.
  - now rewrite str_app_nil_r.
  - apply orb_false_iff in H. destruct H as [Hp Ho]. rewrite Hp.
    rewrite (IH _ Ho). cbn [rev_string].
    rewrite (rev_string_app cur), str_app_assoc. reflexivity.
Qed.

(** Once a match follows, the piece being read does not reach the end. *)
Lemma split_scan_last_later_match (sep : string) (s : string) :
  sep <> ""%string ->
  forall cur,
    occurs sep s = true ->
    last (split_scan sep 0 cur s) ""%string
    = last (split_scan sep 0 "" s) ""%string.
Proof.
  intros Hne.
  induction s as [|c s IH]; intros cur H; cbn [occurs] in H.
  - rewrite orb_false_r in H. destruct sep; [congruence | discriminate].
  - cbn [split_scan]. destruct (String.prefix sep (String c s)) eqn:Hp.
    + rewrite !last_cons_nonempty by apply split_scan_nonempty. reflexivity.
    + cbn [orb] in H. rewrite (IH (String c cur) H), (IH (String c "") H).
      reflexivity.
Qed.

Lemma lstrip_slash_spec (s : string) :
  String.prefix "/" (lstrip_slash s) = false
  /\ exists k, s = (slashes k ++ lstrip_slash s)%string.
Proof.
  induction s as [|c s [IHp [k IHk]]]; cbn [lstrip_slash].
  - split; [reflexivity | now exists 0%nat].
  - destruct (Ascii.eqb c "/") eqn:E.
    + apply Ascii.eqb_eq in E. subst c. split; [exact IHp|].
      exists (S k). cbn [slashes String.append]. now rewrite <- IHk.
    + split; [|now exists 0%nat].
      cbn [String.prefix].
      destruct (ascii_dec "/"%char c) as [Heq|Hneq]; [|reflexivity].
      subst c. now rewrite Ascii.eqb_refl in E.
Qed.

(** C4, as stated, fails, in two ways.  The base URL is a prefix of both
    links.  In the first, two slashes follow it and both are removed.  In
    the second, the base URL occurs again inside the query, and the cursor
    is what follows that later occurrence. *)
Lemma next_cursor_is_not_prefix_removal :
  String.prefix "http://srv/fhir" "http://srv/fhir//Patient?page=2" = true
  /\ next_cursor "http://srv/fhir" "http://srv/fhir//Patient?page=2"
     = inr "Patient?page=2"%string
  /\ cursor_by_prefix "http://srv/fhir" "http://srv/fhir//Patient?page=2"
     = "/Patient?page=2"%string
  /\ String.prefix "http://srv/fhir"
       "http://srv/fhir/Observation?subject=http://srv/fhir/Patient/1&page=2"
     = true
  /\ next_cursor "http://srv/fhir"
       "http://srv/fhir/Observation?subject=http://srv/fhir/Patient/1&page=2"
     = inr "Patient/1&page=2"%string
  /\ cursor_by_prefix "http://srv/fhir"
       "http://srv/fhir/Observation?subject=http://srv/fhir/Patient/1&page=2"
     = "Observation?subject=http://srv/fhir/Patient/1&page=2"%string.
Proof. repeat split. Qed.

Lemma next_cursor_pieces (base s : string) :
  base <> ""%string ->
  next_cursor base s
  = inr (lstrip_slash (last (split_scan base 0 "" s) ""%string)).
Proof. intros H. destruct base; [congruence | reflexivity]. Qed.

(** C4, amended: for a non-empty base URL, the cursor is what follows the
    last match of the base URL in the link, matches being looked for from
    left to right without overlap, or the whole link when there is no
    match, and every leading slash of it is removed.  So when the base URL
    is a prefix of the "next" link of a page and does not occur in the rest
    of the link, the cursor is that rest without its leading slashes. *)
Theorem next_cursor_follows_last_match :
  forall base : string,
    base <> ""%string ->
    (forall rest, next_cursor base (base ++ rest) = next_cursor base rest)
    /\ (forall c s,
          String.prefix base (String c s) = false ->
          occurs base s = true ->
          next_cursor base (String c s) = next_cursor base s)
    /\ (forall s, occurs base s = false ->
                  next_cursor base s = inr (lstrip_slash s))
    /\ (forall s, String.prefix "/" (lstrip_slash s) = false
                  /\ exists k, s = (slashes k ++ lstrip_slash s)%string)
    /\ (forall (Resource : Type) (b : Bundle Resource) (rest : string),
          next_link (link b) = Some (base ++ rest)%string ->
          occurs base rest = false ->
          follow_next base b = Next (lstrip_slash rest)).
Proof.
  intros base Hne.
  assert (H1 : forall rest,
             next_cursor base (base ++ rest) = next_cursor base rest).
  { intros rest. rewrite !next_cursor_pieces by assumption.
    rewrite split_scan_match by assumption.
    now rewrite last_cons_nonempty by apply split_scan_nonempty. }
  assert (H3 : forall s, occurs base s = false ->
                         next_cursor base s = inr (lstrip_slash s)).
  { intros s Ho. rewrite next_cursor_pieces by assumption.
    now rewrite split_scan_no_match. }
  repeat split; auto.
  - intros c s Hp Ho. rewrite !next_cursor_pieces by assumption.
    cbn [split_scan]. rewrite Hp.
    now rewrite split_scan_last_later_match.
  - apply lstrip_slash_spec.
  - apply lstrip_slash_spec.
  - intros Resource b rest Hn Ho. unfold follow_next.
    now rewrite Hn, H1, H3.
Qed.

Lemma next_cursor_follows_last_match_witness :
  follow_next "http://srv/fhir" page_with_next = Next "Patient?page=2".
Proof.
  assert (Hne : "http://srv/fhir"%string <> ""%string) by discriminate.
  destruct (next_cursor_follows_last_match "http://srv/fhir" Hne)
    as (_ & _ & _ & _ & Hfollow).
  apply (Hfollow json page_with_next "/Patient?page=2"%string); reflexivity.
Defined.

(** ** The fetch loop *)

Section FetcherFacts.
Variable Resource : Type.
Variable Server : Type.
Variable request :
  string -> bool -> Server -> (exn + Bundle Resource) * Server.
Variable as_json : Resource -> json.
Variable Sink : Type.
Variable function_to_call : json + Resource -> Sink -> Sink * option exn.

Local Abbreviation World := (world Server Sink).
Local Abbreviation read := (bundle_read_from request (Sink := Sink)).
Local Abbreviation deliver_to := (deliver as_json function_to_call).

(** Reading a page touches the server and the request log only; a page
    comes back only for a non-empty path. *)
Lemma bundle_read_from_frame (path : string) (nov : bool) (w w1 : World)
    (r : exn + Bundle Resource) :
  read path nov w = (r, w1) ->
  w_sink w1 = w_sink w /\ w_console w1 = w_console w
  /\ w_live w1 = w_live w
  /\ (forall b, r = inr b ->
        path <> ""%string
        /\ request path nov (w_server w) = (inr b, w_server w1)
        /\ w_requested w1 = w_requested w ++ [path]).
Proof.
  unfold bundle_read_from. destruct (String.eqb path "") eqn:E.
  - intros H. inversion H; subst.
    split; [|split; [|split]]; auto. intros b Hb. discriminate.
  - apply String.eqb_neq in E.
    destruct (request path nov (w_server w)) as [r0 srv] eqn:Hr.
    intros H. inversion H; subst. simpl.
    split; [|split; [|split]]; auto. intros b ->. auto.
Qed.

Lemma read_page (path : string) (nov : bool) (w : World)
    (b : Bundle Resource) (srv : Server) :
  path <> ""%string ->
  request path nov (w_server w) = (inr b, srv) ->
  read path nov w
  = (inr b, {| w_server := srv; w_requested := w_requested w ++ [path];
               w_console := w_console w; w_live := w_live w;
               w_sink := w_sink w |}).
Proof.
  intros Hne Hr. unfold bundle_read_from.
  apply String.eqb_neq in Hne. now rewrite Hne, Hr.
Qed.

(** Delivering two runs of records one after the other. *)
Lemma deliver_app (pj : bool) (es1 es2 : list Resource) :
  forall s,
    deliver_to pj (es1 ++ es2) s
    = let (s1, e) := deliver_to pj es1 s in
      match e with
      | Some _ => (s1, e)
      | None => deliver_to pj es2 s1
      end.
Proof.
  induction es1 as [|r es1 IH]; intros s; simpl; auto.
  destruct (function_to_call _ s) as [s1 [e|]]; auto.
Qed.


Section Run.
(** The parameters of one call of [fetch_resources]. *)
Variable base : string.
Variable limit : option Z.
Variable nov pj : bool.
Variable total : option Z.

Local Abbreviation step :=
  (fetch_step request as_json function_to_call base limit nov pj total).
Local Abbreviation loop fuel :=
  (fetch_loop request as_json function_to_call fuel base limit nov pj total).
Local Abbreviation passes :=
  (visits request as_json function_to_call base limit nov pj total).
Local Abbreviation below := (below_limit limit).

(** A pass that goes on to another page. *)
Lemma fetch_step_next (u : string) (r : Z) (w : World)
    (u' : string) (r' : Z) (w' : World) :
  step u r w = (Next u', r', w') ->
  exists b w1,
    read u nov w = (inr b, w1)
    /\ follow_next base b = Next u'
    /\ r' = r + Z.of_nat (List.length (page_entries b))
    /\ deliver_to pj (page_entries b) (w_sink w) = (w_sink w', None)
    /\ w_server w' = w_server w1
    /\ w_requested w' = w_requested w ++ [u]
    /\ w_console w' = w_console w
    /\ (entry b <> None -> below r').
Proof.
  unfold fetch_step.
  destruct (read u nov w) as [[e|b] w1] eqn:Hread.
  { destruct e; discriminate. }
  destruct (bundle_read_from_frame _ _ _ _ _ Hread)
    as (Hsink & Hcons & Hlive & Hpage).
  destruct (Hpage b eq_refl) as (Hne & Hreq & Hlog).
  unfold below_limit.
  destruct (entry b) as [es|] eqn:He.
  - destruct (deliver_to pj es (w_sink w1)) as [s [e|]] eqn:Hd;
      [discriminate|].
    rewrite Hsink in Hd.
    destruct limit as [l|].
    + destruct (l <=? r + Z.of_nat (List.length es)) eqn:Hl;
        [discriminate|].
      intros H. inversion H; subst. exists b, w1.
      unfold page_entries. rewrite He. simpl.
      apply Z.leb_gt in Hl. repeat split; auto.
    + intros H. inversion H; subst. exists b, w1.
      unfold page_entries. rewrite He. simpl. repeat split; auto.
  - intros H. inversion H; subst. exists b, w'.
    unfold page_entries. rewrite He. simpl.
    rewrite Z.add_0_r. repeat split; auto; congruence.
Qed.

(** More passes allowed do not change how a finished loop ended. *)
Lemma fetch_loop_more_fuel (fuel : nat) :
  forall u r w result,
    loop fuel u r w = Some result ->
    forall extra, loop (fuel + extra) u r w = Some result.
Proof.
  induction fuel as [|fuel IH]; intros u r w result H extra;
    [discriminate|].
  simpl in *. destruct (step u r w) as [[[u'|why] r'] w']; auto.
Qed.

Lemma visits_loop u r w pages u2 r2 w2 :
  passes u r w pages u2 r2 w2 ->
  forall fuel,
    loop (List.length pages + fuel) u r w = loop fuel u2 r2 w2.
Proof.
  induction 1 as [|u r w b u1 r1 w1 pages u2 r2 w2 _ Hs _ IH];
    intros fuel; [reflexivity|].
  simpl. rewrite Hs. apply IH.
Qed.

(** What the pages passed through have done: every record of every
    page went to the sink, in order, and was counted; each page was
    requested once; nothing was printed. *)
Lemma visits_effects u r w pages u2 r2 w2 :
  passes u r w pages u2 r2 w2 ->
  r2 = r + Z.of_nat (List.length (all_entries pages))
  /\ deliver_to pj (all_entries pages) (w_sink w) = (w_sink w2, None)
  /\ w_requested w2 = w_requested w ++ map fst pages
  /\ w_console w2 = w_console w.
Proof.
  induction 1 as [u r w|u r w b u1 r1 w1 pages u2 r2 w2 Hb Hs _ IH].
  - unfold all_entries. simpl.
    rewrite Z.add_0_r, app_nil_r. auto.
  - destruct IH as (Hr & Hd & Hreq & Hcons).
    apply fetch_step_next in Hs.
    destruct Hs as (b' & w' & Hread & _ & Hr1 & Hd1 & _ & Hreq1 & Hc1 & _).
    rewrite Hread in Hb. simpl in Hb. inversion Hb; subst b'.
    unfold all_entries in *. simpl.
    rewrite length_app, Nat2Z.inj_add, deliver_app, Hd1, Hd.
    rewrite Hreq, Hreq1, <- app_assoc. simpl.
    repeat split; auto; try congruence. lia.
Qed.

(** A pass over a page whose records the sink takes and which does not
    reach the limit: it ends in the "next" scan. *)
Lemma fetch_step_page (u : string) (r : Z) (w w1 : World)
    (b : Bundle Resource) (s : Sink) :
  read u nov w = (inr b, w1) ->
  deliver_to pj (page_entries b) (w_sink w) = (s, None) ->
  (entry b <> None ->
   below (r + Z.of_nat (List.length (page_entries b)))) ->
  exists w',
    step u r w
    = (follow_next base b,
       r + Z.of_nat (List.length (page_entries b)), w')
    /\ w_server w' = w_server w1
    /\ w_requested w' = w_requested w1
    /\ w_sink w' = s
    /\ w_console w' = w_console w.
Proof.
  intros Hread Hd Hlim. unfold fetch_step. rewrite Hread.
  destruct (bundle_read_from_frame _ _ _ _ _ Hread)
    as (Hsink & Hcons & _ & _).
  unfold page_entries, below_limit in *.
  destruct (entry b) as [es|].
  - rewrite Hsink, Hd.
    destruct limit as [l|].
    + assert (Hopen : (l <=? r + Z.of_nat (List.length es)) = false)
        by (apply Z.leb_gt, Hlim; discriminate).
      rewrite Hopen. eexists. split; [reflexivity|]. simpl. auto.
    + eexists. split; [reflexivity|]. simpl. auto.
  - simpl in Hd. inversion Hd; subst.
    exists w1. rewrite Z.add_0_r. auto.
Qed.


(** The received count, while the loop goes on, is where it started
    or below the limit. *)
Lemma visits_below_limit u r w pages u2 r2 w2 :
  passes u r w pages u2 r2 w2 -> r2 = r \/ below r2.
Proof.
  induction 1 as [|u r w b u1 r1 w1 pages u2 r2 w2 Hb Hs _ IH]; auto.
  apply fetch_step_next in Hs.
  destruct Hs as (b' & w' & Hread & _ & Hr1 & _ & _ & _ & _ & Hlim).
  rewrite Hread in Hb. simpl in Hb. inversion Hb; subst b'.
  unfold page_entries in Hr1.
  destruct (entry b) as [es|] eqn:He.
  - assert (below r1) by (apply Hlim; discriminate).
    destruct IH as [->|]; auto.
  - simpl in Hr1. rewrite Z.add_0_r in Hr1. subst r1. exact IH.
Qed.

(** Why a pass stops. *)
Lemma fetch_step_stop (u : string) (r : Z) (w : World)
    (why : stop) (r' : Z) (w' : World) :
  step u r w = (Stop why, r', w') ->
  match why with
  | StopValidation => fst (read u nov w) = inl FHIRValidationError
  | StopLimit =>
      exists l b es,
        limit = Some l /\ fst (read u nov w) = inr b
        /\ entry b = Some es
        /\ r' = r + Z.of_nat (List.length es) /\ l <= r'
  | StopNoNext =>
      exists b, fst (read u nov w) = inr b
                /\ next_link (link b) = None
  | StopRaise e =>
      (fst (read u nov w) = inl e /\ e <> FHIRValidationError)
      \/ exists b,
           fst (read u nov w) = inr b
           /\ (snd (deliver_to pj (page_entries b) (w_sink w)) = Some e
               \/ exists l, next_link (link b) = Some l
                            /\ next_cursor base l = inl e)
  end.
Proof.
  unfold fetch_step.
  destruct (read u nov w) as [[e|b] w1] eqn:Hread.
  { destruct e; intros H; inversion H; subst; simpl;
      try (left; split; [reflexivity | discriminate]); reflexivity. }
  destruct (bundle_read_from_frame _ _ _ _ _ Hread) as (Hsink & _).
  assert (Hfollow : forall why0,
             follow_next base b = Stop why0 ->
             match why0 with
             | StopNoNext => next_link (link b) = None
             | StopRaise e =>
                 exists l, next_link (link b) = Some l
                           /\ next_cursor base l = inl e
             | _ => False
             end).
  { intros why0. unfold follow_next.
    destruct (next_link (link b)) as [l|].
    - destruct (next_cursor base l) as [e|c] eqn:Hc; [|discriminate].
      intros H. inversion H; subst. now exists l.
    - intros H. now inversion H. }
  unfold page_entries. simpl.
  destruct (entry b) as [es|] eqn:He.
  - rewrite <- Hsink.
    destruct (deliver_to pj es (w_sink w1)) as [s [e|]] eqn:Hd.
    + intros H. inversion H; subst. right. exists b.
      split; [reflexivity|]. left. now rewrite He, Hd.
    + destruct limit as [l|].
      * destruct (l <=? r + Z.of_nat (List.length es)) eqn:Hl.
        -- intros H. inversion H; subst. apply Z.leb_le in Hl.
           exists l, b, es. auto.
        -- intros H. inversion H; subst.
           match goal with
           | Hf : follow_next _ _ = Stop _ |- _ =>
               apply Hfollow in Hf
           end.
           destruct why; try contradiction; eauto.
      * intros H. inversion H; subst.
        match goal with
        | Hf : follow_next _ _ = Stop _ |- _ => apply Hfollow in Hf
        end.
        destruct why; try contradiction; eauto.
  - intros H. inversion H; subst.
    match goal with
    | Hf : follow_next _ _ = Stop _ |- _ => apply Hfollow in Hf
    end.
    destruct why; try contradiction; eauto.
Qed.

End Run.

Local Abbreviation step := (fetch_step request as_json function_to_call).
Local Abbreviation loop := (fetch_loop request as_json function_to_call).
Local Abbreviation fetch :=
  (fetch_resources request as_json function_to_call).

(** C10: a pass over a page without an entry list leaves the received
    count, the sink, the live display and the console as they are, tests
    no limit (whatever [limit] is, reached or not) and goes straight to
    the "next" scan; with a "next" link that yields a cursor, the loop
    goes on from that cursor. *)
Theorem page_without_entries_only_follows_next :
  forall (base : string) (limit : option Z) (nov pj : bool)
         (total : option Z) (u : string) (r : Z) (w w1 : World)
         (b : Bundle Resource),
    read u nov w = (inr b, w1) ->
    entry b = None ->
    step base limit nov pj total u r w = (follow_next base b, r, w1)
    /\ w_sink w1 = w_sink w
    /\ w_live w1 = w_live w
    /\ w_console w1 = w_console w
    /\ (forall l u',
          next_link (link b) = Some l ->
          next_cursor base l = inr u' ->
          forall fuel,
            loop (S fuel) base limit nov pj total u r w
            = loop fuel base limit nov pj total u' r w1).
Proof.
  intros base limit nov pj total u r w w1 b Hread He.
  destruct (bundle_read_from_frame _ _ _ _ _ Hread)
    as (Hsink & Hcons & Hlive & _).
  assert (Hs : step base limit nov pj total u r w
               = (follow_next base b, r, w1)).
  { unfold fetch_step. now rewrite Hread, He. }
  repeat split; auto.
  intros l u' Hl Hc fuel. simpl. rewrite Hs.
  unfold follow_next. now rewrite Hl, Hc.
Qed.

(** C1, amended: under strict validation, when the request after [pages]
    raises a validation error, [fetch_resources] prints the validation
    message, leaves the loop, prints the final count and returns status
    0; the sink holds what delivering every record of [pages], in order,
    made of it, and the count is the number of those records. *)
Theorem validation_error_keeps_records_and_returns_0 :
  forall (base resource_type : string) (limit : option Z) (pj : bool)
         (w w1 : World) (count : Bundle Resource)
         (pages : list (string * Bundle Resource))
         (u : string) (r : Z) (w2 w3 : World),
    read (resource_type ++ "?_summary=count") false w = (inr count, w1) ->
    total count <> Some 0 ->
    visits request as_json function_to_call base limit false pj
      (total count) resource_type 0
      (loop_start resource_type (total count) w1) pages u r w2 ->
    read u false w2 = (inl FHIRValidationError, w3) ->
    exists w',
      (forall extra,
         fetch (S (List.length pages) + extra) base resource_type limit
           false pj w = Some (Return 0, w'))
      /\ deliver_to pj (all_entries pages) (w_sink w) = (w_sink w', None)
      /\ r = Z.of_nat (List.length (all_entries pages))
      /\ w_console w'
         = w_console w ++ [MsgFetching (total count) resource_type;
                           MsgValidationError;
                           MsgReceived r (total count)].
Proof.
  intros base resource_type limit pj w w1 count pages u r w2 w3
    Hcount Htotal Hpasses Hfail.
  destruct (bundle_read_from_frame _ _ _ _ _ Hcount)
    as (Hsink1 & Hcons1 & _ & _).
  destruct (bundle_read_from_frame _ _ _ _ _ Hfail)
    as (Hsink3 & Hcons3 & _ & _).
  pose proof Hpasses as Heff. apply visits_effects in Heff.
  destruct Heff as (Hr & Hd & _ & Hcons2).
  simpl in Hr, Hd, Hcons2.
  exists (print (MsgReceived r (total count))
            (print MsgValidationError w3)).
  repeat split.
  - intros extra. unfold fetch_resources. rewrite Hcount.
    assert (Hloop : loop (S (List.length pages) + extra) base limit false
                      pj (total count) resource_type 0
                      (loop_start resource_type (total count) w1)
                    = Some (StopValidation, r,
                            print MsgValidationError w3)).
    { replace (S (List.length pages) + extra)%nat
        with (List.length pages + S extra)%nat by lia.
      erewrite visits_loop by exact Hpasses. simpl.
      unfold fetch_step. now rewrite Hfail. }
    unfold loop_start in Hloop.
    destruct (total count) as [[|p|p]|]; try congruence;
      now rewrite Hloop.
  - simpl. rewrite Hsink3. now rewrite Hsink1 in Hd.
  - lia.
  - simpl. rewrite Hcons3, Hcons2, Hcons1, <- !app_assoc. reflexivity.
Qed.

(** A page with entries is delivered whole, in page order, and counted
    before the limit is compared. *)
Lemma whole_page_then_limit :
  forall (base : string) (limit : option Z) (nov pj : bool)
         (total : option Z) (u : string) (r : Z) (w w1 : World)
         (b : Bundle Resource) (es : list Resource) (s : Sink),
    read u nov w = (inr b, w1) ->
    entry b = Some es ->
    deliver_to pj es (w_sink w) = (s, None) ->
    let r' := r + Z.of_nat (List.length es) in
    exists w',
      step base limit nov pj total u r w
      = (match limit with
         | Some l => if l <=? r' then Stop StopLimit
                     else follow_next base b
         | None => follow_next base b
         end, r', w')
      /\ w_sink w' = s
      /\ w_live w' = w_live w ++ [LiveStatus r' total].
Proof.
  intros base limit nov pj total u r w w1 b es s Hread He Hd r'.
  destruct (bundle_read_from_frame _ _ _ _ _ Hread)
    as (Hsink & _ & Hlive & _).
  unfold fetch_step. rewrite Hread, He, Hsink, Hd. fold r'.
  destruct limit as [l|]; [destruct (l <=? r')|];
    eexists; (split; [reflexivity|]); simpl; rewrite Hlive; auto.
Qed.

(** When the loop stops at a limit [l >= 0], every page was delivered
    whole, the count is at least [l] and exceeds it by at most the size
    of the page delivered last. *)
Lemma limit_overshoot_one_page :
  forall (base : string) (l : Z) (nov pj : bool) (total : option Z)
         (u0 : string) (w0 : World)
         (pages : list (string * Bundle Resource))
         (u : string) (r : Z) (w : World) (b : Bundle Resource)
         (r' : Z) (w' : World),
    0 <= l ->
    visits request as_json function_to_call base (Some l) nov pj total
      u0 0 w0 pages u r w ->
    fst (read u nov w) = inr b ->
    step base (Some l) nov pj total u r w = (Stop StopLimit, r', w') ->
    r' = Z.of_nat (List.length (all_entries pages))
         + Z.of_nat (List.length (page_entries b))
    /\ deliver_to pj (all_entries pages ++ page_entries b) (w_sink w0)
       = (w_sink w', None)
    /\ l <= r' <= l + Z.of_nat (List.length (page_entries b)).
Proof.
  intros base l nov pj total u0 w0 pages u r w b r' w' Hl Hpasses
    Hb Hstop.
  pose proof Hpasses as Heff. apply visits_effects in Heff.
  destruct Heff as (Hr & Hd & _).
  pose proof Hpasses as Hbelow. apply visits_below_limit in Hbelow.
  simpl in Hr, Hbelow.
  pose proof Hstop as Hwhy. apply fetch_step_stop in Hwhy.
  destruct Hwhy as (l' & b' & es & Hl' & Hb' & He & Hr' & Hle).
  inversion Hl'; subst l'. rewrite Hb in Hb'. inversion Hb'; subst b'.
  unfold page_entries. rewrite He.
  unfold below_limit in Hbelow.
  repeat split; try lia.
  rewrite deliver_app, Hd.
  unfold fetch_step in Hstop.
  destruct (read u nov w) as [[e|b0] w1] eqn:Hread;
    simpl in Hb; [discriminate|]. inversion Hb; subst b0.
  destruct (bundle_read_from_frame _ _ _ _ _ Hread) as (Hsink & _).
  rewrite He, Hsink in Hstop.
  destruct (deliver_to pj es (w_sink w)) as [s [e|]];
    [inversion Hstop|].
  destruct (l <=? r + Z.of_nat (List.length es));
    inversion Hstop; subst; reflexivity.
Qed.



(** C2, amended.  A page with entries is delivered whole, in page order,
    and counted before the limit is compared.  When the loop stops at a
    limit [l >= 0], every page read was delivered whole, and the count is
    at least [l] and exceeds it by at most the size of the page delivered
    last.  With three pages of five records and a limit of 7, ten records
    are delivered. *)
Theorem limit_tested_after_whole_page :
  (forall (base : string) (limit : option Z) (nov pj : bool)
          (total : option Z) (u : string) (r : Z) (w w1 : World)
          (b : Bundle Resource) (es : list Resource) (s : Sink),
      read u nov w = (inr b, w1) ->
      entry b = Some es ->
      deliver_to pj es (w_sink w) = (s, None) ->
      let r' := r + Z.of_nat (List.length es) in
      exists w',
        step base limit nov pj total u r w
        = (match limit with
           | Some l => if l <=? r' then Stop StopLimit
                       else follow_next base b
           | None => follow_next base b
           end, r', w')
        /\ w_sink w' = s
        /\ w_live w' = w_live w ++ [LiveStatus r' total])
  /\ (forall (base : string) (l : Z) (nov pj : bool) (total : option Z)
           (u0 : string) (w0 : World)
           (pages : list (string * Bundle Resource))
           (u : string) (r : Z) (w : World) (b : Bundle Resource)
           (r' : Z) (w' : World),
        0 <= l ->
        visits request as_json function_to_call base (Some l) nov pj total
      u0 0 w0 pages u r w ->
        fst (read u nov w) = inr b ->
        step base (Some l) nov pj total u r w = (Stop StopLimit, r', w') ->
        r' = Z.of_nat (List.length (all_entries pages))
             + Z.of_nat (List.length (page_entries b))
        /\ deliver_to pj (all_entries pages ++ page_entries b) (w_sink w0)
           = (w_sink w', None)
        /\ l <= r' <= l + Z.of_nat (List.length (page_entries b)))
  /\ (exists w',
        fetch_resources (table_request three_pages) as_is collect 3
          "http://srv/fhir" "Patient" (Some 7) false true (fresh [])
        = Some (Return 0, w')
        /\ w_sink w' = map patient [1; 2; 3; 4; 5; 6; 7; 8; 9; 10]
        /\ w_console w' = [MsgFetching (Some 15) "Patient";
                           MsgReachedLimit 7; MsgReceived 10 (Some 15)]).
Proof.
  split; [exact whole_page_then_limit|].
  split; [exact limit_overshoot_one_page|].
  eexists. split; [vm_compute; reflexivity|]. split; reflexivity.
Qed.

End FetcherFacts.

(** ** [inspect_resource] and the status *)

Section InspectFacts.
Variable gray : string.
Variable Resource : Type.
Variable Server : Type.
Variable request :
  string -> bool -> Server -> (exn + Bundle Resource) * Server.
Variable as_json : Resource -> json.
Variable markup_error : message -> option exn.

(** [inspect_resource] renders the tree that the sink holds when
    [fetch_resources] returns 0, and only then: on another status it
    returns 1 and prints nothing more.  The hypotheses say that [rich]
    takes the opening line and the tree. *)
Lemma inspect_resource_renders_on_status_0 :
  forall (fuel : nat) (base resource_type : string) (limit : option Z)
         (inspect_items : bool) (max_level : Z) (novalidation : bool)
         (w w1 : world Server node) (status : Z),
    markup_error (MsgInspecting resource_type) = None ->
    fetch_resources request as_json
      (call_process_entry inspect_items max_level) fuel base resource_type
      limit novalidation true
      (with_sink (Branch []) (print (MsgInspecting resource_type) w))
    = Some (Return status, w1) ->
    markup_error
      (MsgTree
         (RTree ("[bold]" ++ resource_type)
            (fst (build_tree inspect_items max_item_count gray
                    (w_sink w1))))) = None ->
    exists w',
      inspect_resource gray request as_json markup_error fuel base
        resource_type limit inspect_items max_level novalidation w
      = Some (Return (if status =? 0 then 0 else 1), w')
      /\ w_console w'
         = w_console w1
           ++ (if status =? 0
               then [MsgBlank;
                     MsgTree
                       (RTree ("[bold]" ++ resource_type)
                          (fst (build_tree inspect_items max_item_count gray
                                  (w_sink w1))))]
                    ++ (if inspect_items then [MsgValuesNotice] else [])
               else []).
Proof.
  intros fuel base resource_type limit inspect_items max_level novalidation
    w w1 status Hfirst Hfetch Htree.
  unfold inspect_resource, print_markup. rewrite Hfirst, Hfetch.
  destruct (status =? 0).
  - destruct (build_tree inspect_items max_item_count gray (w_sink w1))
      as [added items].
    cbn [fst] in Htree. rewrite Htree.
    eexists. split; [reflexivity|].
    destruct inspect_items; simpl; now rewrite <- !app_assoc.
  - eexists. split; [reflexivity|]. now rewrite app_nil_r.
Qed.
End InspectFacts.

(** ** The examples *)

(** C1, as stated, fails: the second page fails strict validation after the
    first page's two records were delivered, and the status returned is 0,
    by [fetch_resources] and by [inspect_resource] alike; it is because the
    status is 0 that [inspect_resource] renders the tree of those two
    records. *)
Lemma validation_error_run_returns_0 :
  fetch_resources (table_request second_page_invalid) as_is collect 2
    "http://srv/fhir" "Patient" None false true (fresh [])
  = Some (Return 0,
          {| w_server := tt;
             w_requested := ["Patient?_summary=count"; "Patient";
                             "Patient?page=2"]%string;
             w_console := [MsgFetching (Some 4) "Patient";
                           MsgValidationError; MsgReceived 2 (Some 4)];
             w_live := [LiveReceiving; LiveStatus 2 (Some 4)];
             w_sink := [patient 1; patient 2] |})
  /\ inspect_resource "white" (table_request second_page_invalid) as_is
       markup_accepted 2
       "http://srv/fhir" "Patient" None false 9 false (fresh (Branch []))
     = Some (Return 0,
             {| w_server := tt;
                w_requested := ["Patient?_summary=count"; "Patient";
                                "Patient?page=2"]%string;
                w_console :=
                  [MsgInspecting "Patient"; MsgFetching (Some 4) "Patient";
                   MsgValidationError; MsgReceived 2 (Some 4); MsgBlank;
                   MsgTree
                     (RTree "[bold]Patient"
                        [RTree "[bold]resourceType[/bold](2)" [];
                         RTree "[bold]id[/bold](2)" []])];
                w_live := [LiveReceiving; LiveStatus 2 (Some 4)];
                w_sink := Branch [("resourceType", Leaf 2 []);
                                  ("id", Leaf 2 [])] |}).
Proof. split; vm_compute; reflexivity. Qed.

Lemma validation_error_keeps_records_and_returns_0_witness :
  exists w',
    (forall extra,
       fetch_resources (table_request second_page_invalid) as_is collect
         (2 + extra) "http://srv/fhir" "Patient" None false true (fresh [])
       = Some (Return 0, w'))
    /\ deliver as_is collect true [patient 1; patient 2] []
       = (w_sink w', None)
    /\ 2 = 2
    /\ w_console w' = [MsgFetching (Some 4) "Patient"; MsgValidationError;
                       MsgReceived 2 (Some 4)].
Proof.
  eapply (validation_error_keeps_records_and_returns_0
            json unit (table_request second_page_invalid) as_is
            (list json) collect
            "http://srv/fhir" "Patient" None true (fresh [])
            _ (count_only 4) [("Patient"%string, first_of_two)]
            "Patient?page=2" 2).
  - reflexivity.
  - discriminate.
  - eapply visits_page; [reflexivity | reflexivity | apply visits_none].
  - reflexivity.
Defined.

(** C2, as stated, fails for a negative limit: with a limit of -3 the loop
    stops after the first page, of two records, and the count, 2, exceeds
    the limit by 5. *)
Lemma negative_limit_exceeded_by_more_than_a_page :
  fetch_resources (table_request second_page_invalid) as_is collect 2
    "http://srv/fhir" "Patient" (Some (-3)) false true (fresh [])
  = Some (Return 0,
          {| w_server := tt;
             w_requested := ["Patient?_summary=count"; "Patient"]%string;
             w_console := [MsgFetching (Some 4) "Patient";
                           MsgReachedLimit (-3); MsgReceived 2 (Some 4)];
             w_live := [LiveReceiving; LiveStatus 2 (Some 4)];
             w_sink := [patient 1; patient 2] |})
  /\ List.length (page_entries first_of_two) = 2%nat
  /\ ~ (2 <= -3 + Z.of_nat (List.length (page_entries first_of_two))).
Proof.
  split; [vm_compute; reflexivity|]. split; [reflexivity|].
  vm_compute. intros H. apply H. reflexivity.
Qed.

Lemma limit_tested_after_whole_page_witness :
  10 = Z.of_nat (List.length (all_entries [("Patient"%string, page_1)]))
       + Z.of_nat (List.length (page_entries page_2))
  /\ deliver as_is collect true
       (all_entries [("Patient"%string, page_1)] ++ page_entries page_2) []
     = (map patient [1; 2; 3; 4; 5; 6; 7; 8; 9; 10], None)
  /\ 7 <= 10 <= 7 + Z.of_nat (List.length (page_entries page_2)).
Proof.
  destruct (limit_tested_after_whole_page
              json unit (table_request three_pages) as_is
              (list json) collect) as (_ & Hbound & _).
  pose (w0 := live_show LiveReceiving
                (print (MsgFetching (Some 15) "Patient")
                   (fresh (@nil json)))).
  pose (pass := fetch_step (table_request three_pages) as_is collect
                  "http://srv/fhir" (Some 7) false true (Some 15)).
  pose (w1 := snd (pass "Patient"%string 0 w0)).
  pose (w2 := snd (pass "Patient?page=2"%string 5 w1)).
  assert (Hpages : visits (table_request three_pages) as_is collect
                     "http://srv/fhir" (Some 7) false
                     true (Some 15) "Patient" 0 w0
                     [("Patient"%string, page_1)] "Patient?page=2" 5 w1).
  { eapply visits_page; [reflexivity | reflexivity | apply visits_none]. }
  exact (Hbound "http://srv/fhir"%string 7 false true (Some 15)
           "Patient"%string w0 [("Patient"%string, page_1)]
           "Patient?page=2"%string 5 w1 page_2 10 w2
           ltac:(lia) Hpages eq_refl eq_refl).
Defined.


Lemma page_without_entries_only_follows_next_witness :
  fetch_step (table_request first_page_lost) as_is collect
    "http://srv/fhir" (Some 0) true true (Some 3) "Patient" 0 (fresh [])
  = (Next "Patient?page=2", 0,
     {| w_server := tt; w_requested := ["Patient"%string];
        w_console := []; w_live := []; w_sink := [] |}).
Proof.
  apply (page_without_entries_only_follows_next
           json unit (table_request first_page_lost) as_is
           (list json) collect
           "http://srv/fhir" (Some 0) true true (Some 3) "Patient" 0
           (fresh []) _ lost_page); reflexivity.
Defined.

(** * Further properties

    What the code shows beyond the properties above: of the profiler, the
    renderer, the fetch loop, the two listing functions and
    [inspect_resource] as a whole. *)

(** ** The leaves of a profile *)

Section LeafInvariant.
Variable n : nat.
Variable inspect : bool.
Variable max_level : Z.
Variable L : Z -> list (string * Z) -> Prop.
Hypothesis L_first :
  forall s,
    L 1 (if inspect then count_value (limit_item_str n s) [] else []).
Hypothesis L_next :
  forall c values s,
    L c values ->
    L (c + 1)
      (if inspect then count_value (limit_item_str n s) values else values).

Lemma store_item_leaves_all (key : string) (sv : json) (store : node) :
  leaves_all L store ->
  leaves_all L (fst (store_item n inspect key sv store)).
Proof.
  intros Hs. destruct store as [c v|d]; simpl; auto.
  inversion_clear Hs as [|? Hd].
  destruct (Dict.get key d) as [[c v|d']|] eqn:Hget; simpl.
  - apply (Forall_children_get _ _ _ Hd) in Hget.
    inversion_clear Hget as [? ? Hv|].
    constructor. apply Forall_children_set; auto.
    constructor. now apply L_next.
  - now constructor.
  - constructor. apply Forall_children_set; auto.
    constructor. apply L_first.
Qed.

Local Abbreviation keeps entry :=
  (forall store level,
      leaves_all L store ->
      leaves_all L
        (fst (process_entry n inspect max_level entry store level))).

Lemma process_subvalue_leaves_all (level : Z) (key : string) (sv : json)
    (store : node) :
  keeps sv ->
  leaves_all L store ->
  leaves_all L
    (fst (process_subvalue n inspect max_level level key sv store)).
Proof.
  intros Hsv Hs. unfold process_subvalue.
  destruct sv; try (now apply store_item_leaves_all).
  destruct (level <? max_level); [|now apply store_item_leaves_all].
  destruct store as [c v|d0]; [exact Hs|].
  inversion_clear Hs as [|? Hd].
  destruct (Dict.get key d0) as [child|] eqn:Hget.
  - pose proof (Hsv child (level + 1)
                  (Forall_children_get _ _ _ Hd Hget)) as Hc.
    destruct (process_entry n inspect max_level (JDict d) child (level + 1))
      as [child' e]. simpl in *.
    constructor. now apply Forall_children_set.
  - assert (Hempty : leaves_all L (Branch [])) by repeat constructor.
    pose proof (Hsv (Branch []) (level + 1) Hempty) as Hc.
    destruct (process_entry n inspect max_level (JDict d) (Branch [])
                (level + 1)) as [child' e]. simpl in *.
    constructor. apply Forall_children_set; auto.
    now apply Forall_children_set.
Qed.

Lemma process_values_leaves_all (level : Z) (key : string) (vs : list json) :
  Forall (fun sv => keeps sv) vs ->
  forall store,
    leaves_all L store ->
    leaves_all L
      (fst (process_values n inspect max_level level key vs store)).
Proof.
  induction 1 as [|sv vs Hsv _ IH]; intros store Hs; simpl; auto.
  pose proof (process_subvalue_leaves_all level key sv store Hsv Hs) as H1.
  destruct (process_subvalue n inspect max_level level key sv store)
    as [s1 [e|]]; simpl in *; auto.
Qed.

Lemma process_entry_leaves_all (entry : json) : keeps entry.
Proof.
  enough (H : keeps entry
              /\ match entry with
                 | JList l => Forall (fun sv => keeps sv) l
                 | _ => True
                 end) by apply H.
  induction entry as [| | | | |l IH|fs IH] using json_children_ind;
    try (split; [intros store level Hs; exact Hs | exact I]).
  - split; [intros store level Hs; exact Hs|].
    eapply Forall_impl; [|exact IH]. intros j Hj. apply Hj.
  - split; [|exact I]. intros store level.
    rewrite process_entry_fields. revert store.
    induction IH as [|[key value] fs [Hv Hl] _ IHfs]; intros store Hs;
      simpl; auto.
    assert (H1 : leaves_all L
                   (fst (process_field n inspect max_level level key value
                           store))).
    { unfold process_field. simpl in Hv, Hl.
      destruct value;
        try (apply process_subvalue_leaves_all; assumption).
      now apply process_values_leaves_all. }
    destruct (process_field n inspect max_level level key value store)
      as [s1 [e|]]; simpl in *; auto.
Qed.
End LeafInvariant.

Lemma values_total_count_value (s : string) (values : list (string * Z)) :
  values_total (count_value s values) = values_total values + 1.
Proof.
  unfold count_value.
  destruct (Dict.get s values) as [m|] eqn:Hget.
  - induction values as [|[k v] values IH]; simpl in *; [discriminate|].
    destruct (String.eqb s k); simpl.
    + inversion Hget; subst. lia.
    + rewrite (IH Hget). lia.
  - induction values as [|[k v] values IH]; simpl in *; [lia|].
    destruct (String.eqb s k); [discriminate|]. simpl.
    rewrite (IH Hget). lia.
Qed.

Lemma count_value_entries (P : string * Z -> Prop) (s : string)
    (values : list (string * Z)) :
  Forall P values ->
  (forall m, P (s, m) -> P (s, m + 1)) ->
  P (s, 1) ->
  Forall P (count_value s values).
Proof.
  intros Hall Hstep Hone. unfold count_value.
  destruct (Dict.get s values) as [m|] eqn:Hget.
  - induction Hall as [|[k v] values Hk Hall IH]; simpl in *; [discriminate|].
    destruct (String.eqb s k) eqn:E.
    + inversion Hget; subst. apply String.eqb_eq in E. subst k.
      constructor; auto.
    + constructor; auto.
  - induction Hall as [|[k v] values Hk Hall IH]; simpl in *.
    + repeat constructor. exact Hone.
    + destruct (String.eqb s k); [discriminate|]. constructor; auto.
Qed.

Lemma limit_item_str_length (n : nat) (s : string) :
  (String.length (limit_item_str n s) <= n + 3)%nat.
Proof.
  unfold limit_item_str. destruct (n + 3 <? String.length s)%nat eqn:E.
  - rewrite str_length_app, str_take_length.
    change (String.length "...") with 3%nat. lia.
  - now apply Nat.ltb_ge in E.
Qed.

(** X1: in the tree that [inspect_resource] builds from any list of
    records, whether or not the fold raises on the way, every leaf has a
    count of at least 1; without value inspection it holds no values; with
    value inspection every value was counted at least once, the counts of
    the values add up to the count of the leaf, and no value is longer
    than 53 characters. *)
Theorem profile_leaves_sound :
  forall (Resource : Type) (as_json : Resource -> json) (inspect : bool)
         (max_level : Z) (records : list Resource),
    leaves_all (leaf_sound max_item_str_len inspect)
      (fst (profile_of as_json inspect max_level records)).
Proof.
  intros Resource as_json inspect max_level records. unfold profile_of.
  assert (Hempty : leaves_all (leaf_sound max_item_str_len inspect)
                     (Branch [])) by repeat constructor.
  revert Hempty. generalize (Branch []).
  induction records as [|r records IH]; intros store Hs; simpl; auto.
  assert (H1 : leaves_all (leaf_sound max_item_str_len inspect)
                 (fst (process_entry max_item_str_len inspect max_level
                         (as_json r) store 0))).
  { apply process_entry_leaves_all; auto.
    - intros s. unfold leaf_sound. split; [lia|].
      destruct inspect; auto. split; [reflexivity|].
      constructor; [|constructor]. simpl.
      split; [lia | apply limit_item_str_length].
    - intros c values s [Hc Hv]. unfold leaf_sound. split; [lia|].
      destruct inspect; auto. destruct Hv as [Ht Hall]. split.
      + rewrite values_total_count_value. lia.
      + apply count_value_entries; auto.
        * simpl. intros m [Hm Hl]. split; [lia | exact Hl].
        * simpl. split; [lia | apply limit_item_str_length]. }
  destruct (process_entry max_item_str_len inspect max_level (as_json r)
              store 0) as [s1 [e|]]; simpl in *; auto.
Qed.

(** ** Relations between the tree before and after a fold *)

Section FoldRelated.
Variable n : nat.
Variable inspect : bool.
Variable max_level : Z.
Variable R : node -> node -> Prop.
Hypothesis R_refl : forall t, R t t.
Hypothesis R_trans : forall t1 t2 t3, R t1 t2 -> R t2 t3 -> R t1 t3.
Hypothesis R_set :
  forall key child' d,
    (forall child, Dict.get key d = Some child -> R child child') ->
    R (Branch d) (Branch (Dict.set key child' d)).
Hypothesis R_store :
  forall key sv store, R store (fst (store_item n inspect key sv store)).

Local Abbreviation related entry :=
  (forall store level,
      R store (fst (process_entry n inspect max_level entry store level))).

Lemma process_subvalue_related (level : Z) (key : string) (sv : json)
    (store : node) :
  related sv ->
  R store (fst (process_subvalue n inspect max_level level key sv store)).
Proof.
  intros Hsv. unfold process_subvalue.
  destruct sv; try apply R_store.
  destruct (level <? max_level); [|apply R_store].
  destruct store as [c v|d0]; [apply R_refl|].
  destruct (Dict.get key d0) as [child|] eqn:Hget.
  - pose proof (Hsv child (level + 1)) as Hc.
    destruct (process_entry n inspect max_level (JDict d) child (level + 1))
      as [child' e]. simpl in *.
    apply R_set. intros c Hc'. rewrite Hget in Hc'.
    now inversion Hc'; subst.
  - pose proof (Hsv (Branch []) (level + 1)) as Hc.
    destruct (process_entry n inspect max_level (JDict d) (Branch [])
                (level + 1)) as [child' e]. simpl in *.
    eapply R_trans.
    + apply (R_set key (Branch [])). intros c Hc'.
      rewrite Hget in Hc'. discriminate.
    + apply R_set. intros c Hc'.
      rewrite DictFacts.get_set_same in Hc'. now inversion Hc'; subst.
Qed.

Lemma process_values_related (level : Z) (key : string) (vs : list json) :
  Forall (fun sv => related sv) vs ->
  forall store,
    R store (fst (process_values n inspect max_level level key vs store)).
Proof.
  induction 1 as [|sv vs Hsv _ IH]; intros store; simpl; [apply R_refl|].
  pose proof (process_subvalue_related level key sv store Hsv) as H1.
  destruct (process_subvalue n inspect max_level level key sv store)
    as [s1 [e|]]; simpl in *; auto.
  eapply R_trans; [exact H1 | apply IH].
Qed.

Lemma process_entry_related (entry : json) : related entry.
Proof.
  enough (H : related entry
              /\ match entry with
                 | JList l => Forall (fun sv => related sv) l
                 | _ => True
                 end) by apply H.
  induction entry as [| | | | |l IH|fs IH] using json_children_ind;
    try (split; [intros store level; apply R_refl | exact I]).
  - split; [intros store level; apply R_refl|].
    eapply Forall_impl; [|exact IH]. intros j Hj. apply Hj.
  - split; [|exact I]. intros store level.
    rewrite process_entry_fields. revert store.
    induction IH as [|[key value] fs [Hv Hl] _ IHfs]; intros store; simpl;
      [apply R_refl|].
    assert (H1 : R store
                   (fst (process_field n inspect max_level level key value
                           store))).
    { unfold process_field. simpl in Hv, Hl.
      destruct value;
        try (apply process_subvalue_related; exact Hv).
      now apply process_values_related. }
    destruct (process_field n inspect max_level level key value store)
      as [s1 [e|]]; simpl in *; auto.
    eapply R_trans; [exact H1 | apply IHfs].
Qed.
End FoldRelated.

Lemma values_le_refl values : values_le values values.
Proof. intros k m H. exists m. split; [exact H | lia]. Qed.

Lemma values_le_count_value (s : string) (values : list (string * Z)) :
  values_le values (count_value s values).
Proof.
  intros k m Hk. unfold count_value.
  destruct (String.eqb k s) eqn:E.
  - apply String.eqb_eq in E. subst k. rewrite Hk.
    exists (m + 1). rewrite DictFacts.get_set_same. split; [auto | lia].
  - apply String.eqb_neq in E. exists m.
    destruct (Dict.get s values);
      rewrite DictFacts.get_set_other by exact E; split; auto; lia.
Qed.

Lemma grows_refl t : grows t t.
Proof.
  intros path. destruct (node_at path t) as [[c v|d]|]; auto.
  - exists c, v. split; [reflexivity|].
    split; [lia | apply values_le_refl].
  - exists d, []. now rewrite app_nil_r.
Qed.

Lemma grows_trans t1 t2 t3 : grows t1 t2 -> grows t2 t3 -> grows t1 t3.
Proof.
  intros H12 H23 path. specialize (H12 path). specialize (H23 path).
  destruct (node_at path t1) as [[c v|d]|]; auto.
  - destruct H12 as (c2 & v2 & Hn2 & Hc2 & Hv2). rewrite Hn2 in H23.
    destruct H23 as (c3 & v3 & Hn3 & Hc3 & Hv3).
    exists c3, v3. split; [exact Hn3|]. split; [lia|].
    intros k m Hk. destruct (Hv2 k m Hk) as (m2 & Hk2 & Hm2).
    destruct (Hv3 k m2 Hk2) as (m3 & Hk3 & Hm3).
    exists m3. split; [exact Hk3 | lia].
  - destruct H12 as (d2 & a2 & Hn2 & Hk2). rewrite Hn2 in H23.
    destruct H23 as (d3 & a3 & Hn3 & Hk3).
    exists d3, (a2 ++ a3). split; [exact Hn3|].
    now rewrite Hk3, Hk2, app_assoc.
Qed.

Lemma grows_set (key : string) (child' : node) (d : list (string * node)) :
  (forall child, Dict.get key d = Some child -> grows child child') ->
  grows (Branch d) (Branch (Dict.set key child' d)).
Proof.
  intros Hchild [|k path]; simpl.
  { exists (Dict.set key child' d). rewrite DictFacts.keys_set.
    destruct (Dict.mem key d); [exists [] | exists [key]]; split; auto.
    now rewrite app_nil_r. }
  destruct (String.eqb k key) eqn:E.
  - apply String.eqb_eq in E. subst k.
    rewrite DictFacts.get_set_same.
    destruct (Dict.get key d) as [child|] eqn:Hget; [|exact I].
    apply (Hchild child eq_refl path).
  - apply String.eqb_neq in E.
    rewrite DictFacts.get_set_other by exact E.
    destruct (Dict.get k d) as [child|]; [|exact I].
    apply (grows_refl child path).
Qed.

Lemma store_item_grows (n : nat) (inspect : bool) (key : string)
    (sv : json) (store : node) :
  grows store (fst (store_item n inspect key sv store)).
Proof.
  destruct store as [c v|d]; simpl; [apply grows_refl|].
  destruct (Dict.get key d) as [[c v|d']|] eqn:Hget; simpl;
    try apply grows_refl;
    apply grows_set; intros child Hc; rewrite Hget in Hc;
    inversion Hc; subst.
  intros [|k path]; simpl; [|exact I].
  do 2 eexists. split; [reflexivity|]. split; [lia|].
  destruct inspect; [apply values_le_count_value | apply values_le_refl].
Qed.

(** Folding a record in makes the tree grow. *)
Lemma process_entry_grows :
  forall (n : nat) (inspect : bool) (max_level : Z) (entry : json)
         (store : node) (level : Z),
    grows store (fst (process_entry n inspect max_level entry store level)).
Proof.
  intros n inspect max_level entry store level.
  apply (process_entry_related n inspect max_level grows).
  - apply grows_refl.
  - apply grows_trans.
  - apply grows_set.
  - intros key sv s. apply store_item_grows.
Qed.

(** X2: folding a record into the tree loses nothing, whether or not the
    fold raises: a leaf stays a leaf at its path, with a count at least as
    large and every value it had, counted at least as often; a dictionary
    stays a dictionary at its path and keeps its keys in their order, new
    keys coming after them. *)
Theorem fold_keeps_nodes_and_counts :
  forall (n : nat) (inspect : bool) (max_level : Z) (entry : json)
         (store : node) (level : Z) (path : list string),
    let after :=
      fst (process_entry n inspect max_level entry store level) in
    (forall c values,
        node_at path store = Some (Leaf c values) ->
        exists c' values',
          node_at path after = Some (Leaf c' values')
          /\ c <= c'
          /\ forall k m,
               Dict.get k values = Some m ->
               exists m', Dict.get k values' = Some m' /\ m <= m')
    /\ (forall d,
          node_at path store = Some (Branch d) ->
          exists d' added,
            node_at path after = Some (Branch d')
            /\ Dict.keys d' = Dict.keys d ++ added).
Proof.
  intros n inspect max_level entry store level path after.
  pose proof (process_entry_grows n inspect max_level entry store level path)
    as H.
  fold after in H. split.
  - intros c values Hn. rewrite Hn in H. exact H.
  - intros d Hn. rewrite Hn in H. exact H.
Qed.

(** ** Records that are stored as leaves only *)

Section LeavesOnly.
Variable n : nat.
Variable inspect : bool.
Variable max_level level : Z.

Lemma process_subvalue_stored_as_leaf (key : string) (sv : json)
    (store : node) :
  stored_as_leaf max_level level sv ->
  process_subvalue n inspect max_level level key sv store
  = store_item n inspect key sv store.
Proof.
  intros H. unfold process_subvalue. destruct sv; auto.
  simpl in H. apply Z.ltb_ge in H. now rewrite H.
Qed.

(** [store_item] where the key is free or bound to a leaf. *)
Lemma store_item_leaf (key : string) (sv : json) (d : list (string * node))
    (c : Z) (values : list (string * Z)) :
  Dict.get key d = Some (Leaf c values)
  \/ (Dict.get key d = None /\ c = 0 /\ values = []) ->
  exists values',
    store_item n inspect key sv (Branch d)
    = (Branch (Dict.set key (Leaf (c + 1) values') d), None).
Proof.
  intros H. unfold store_item.
  destruct H as [H|(H & -> & ->)]; rewrite H; eexists; reflexivity.
Qed.

Lemma process_values_leaves_only (key : string) (vs : list json) :
  Forall (stored_as_leaf max_level level) vs ->
  forall (d : list (string * node)) (c : Z) (values : list (string * Z)),
    Dict.get key d = Some (Leaf c values)
    \/ (Dict.get key d = None /\ c = 0 /\ values = []) ->
    exists d',
      process_values n inspect max_level level key vs (Branch d)
      = (Branch d', None)
      /\ (forall k, k <> key -> Dict.get k d' = Dict.get k d)
      /\ match vs with
         | [] => d' = d
         | _ => exists values',
                  Dict.get key d'
                  = Some (Leaf (c + Z.of_nat (List.length vs)) values')
         end.
Proof.
  induction 1 as [|sv vs Hsv Hvs IH]; intros d c values Hkey.
  - exists d. simpl. auto.
  - cbn [process_values].
    rewrite (process_subvalue_stored_as_leaf key sv (Branch d) Hsv).
    destruct (store_item_leaf key sv d c values Hkey) as (v1 & ->).
    destruct (IH (Dict.set key (Leaf (c + 1) v1) d) (c + 1) v1)
      as (d' & -> & Hother & Hcount).
    { left. apply DictFacts.get_set_same. }
    exists d'. split; [reflexivity|]. split.
    + intros k Hk. rewrite (Hother k Hk).
      now apply DictFacts.get_set_other.
    + destruct vs as [|sv' vs'].
      * subst d'. exists v1. rewrite DictFacts.get_set_same.
        simpl. do 2 f_equal.
      * destruct Hcount as (v' & Hget). exists v'. rewrite Hget.
        do 2 f_equal. cbn [List.length]. lia.
Qed.

Lemma process_field_of_leaves (key : string) (value : json)
    (d : list (string * node)) :
  field_of_leaves max_level level value ->
  all_leaves d ->
  exists d',
    process_field n inspect max_level level key value (Branch d)
    = (Branch d', None)
    /\ all_leaves d'.
Proof.
  intros Hv Hd.
  assert (Hone : forall sv d0,
             stored_as_leaf max_level level sv -> all_leaves d0 ->
             exists d',
               process_subvalue n inspect max_level level key sv (Branch d0)
               = (Branch d', None) /\ all_leaves d').
  { intros sv d0 Hsv Hd0. rewrite process_subvalue_stored_as_leaf by exact Hsv.
    unfold store_item.
    destruct (Dict.get key d0) as [[c v|d1]|] eqn:Hget.
    - eexists. split; [reflexivity|]. now apply all_leaves_set.
    - apply (all_leaves_get _ _ _ Hd0) in Hget. discriminate.
    - eexists. split; [reflexivity|]. now apply all_leaves_set. }
  unfold process_field.
  destruct value; try (now apply Hone).
  simpl in Hv. revert d Hd.
  induction Hv as [|sv vs Hsv _ IH]; intros d Hd; simpl; [eauto|].
  destruct (Hone sv d Hsv Hd) as (d1 & -> & Hd1). now apply IH.
Qed.
End LeavesOnly.

(** A record all of whose elements are stored as leaf occurrences, folded
    into a dictionary of leaves, raises nothing and leaves a dictionary of
    leaves. *)
Lemma process_entry_of_leaves :
  forall (n : nat) (inspect : bool) (max_level level : Z)
         (fs : list (string * json)) (d : list (string * node)),
    Forall (fun kv => field_of_leaves max_level level (snd kv)) fs ->
    all_leaves d ->
    exists d',
      process_entry n inspect max_level (JDict fs) (Branch d) level
      = (Branch d', None)
      /\ all_leaves d'.
Proof.
  intros n inspect max_level level fs d Hfs. rewrite process_entry_fields.
  revert d. induction Hfs as [|[key value] fs Hv _ IH]; intros d Hd; simpl;
    [eauto|].
  destruct (process_field_of_leaves n inspect max_level level key value d
              Hv Hd) as (d1 & -> & Hd1).
  now apply IH.
Qed.

(** X3: a list field counts occurrences, not records: when
    [process_entry] folds a record whose first field holds a list of
    elements that are stored as leaf occurrences (anything but a
    dictionary below the nesting limit), at a key that is free or bound to
    a leaf of count [c], the field raises nothing and the fold goes on
    with the rest of the record from a dictionary in which the other keys
    are as they were and the key is bound to a leaf of count [c] plus the
    length of the list; an empty list leaves the dictionary as it is,
    without binding the key. *)
Theorem list_field_counts_each_element :
  forall (n : nat) (inspect : bool) (max_level level : Z) (key : string)
         (vs : list json) (rest : list (string * json))
         (d : list (string * node)) (c : Z) (values : list (string * Z)),
    Forall (stored_as_leaf max_level level) vs ->
    Dict.get key d = Some (Leaf c values)
    \/ (Dict.get key d = None /\ c = 0 /\ values = []) ->
    exists d',
      process_entry n inspect max_level (JDict ((key, JList vs) :: rest))
        (Branch d) level
      = process_entry n inspect max_level (JDict rest) (Branch d') level
      /\ (forall k, k <> key -> Dict.get k d' = Dict.get k d)
      /\ match vs with
         | [] => d' = d
         | _ => exists values',
                  Dict.get key d'
                  = Some (Leaf (c + Z.of_nat (List.length vs)) values')
         end.
Proof.
  intros n inspect max_level level key vs rest d c values Hvs Hkey.
  destruct (process_values_leaves_only n inspect max_level level key vs
              Hvs d c values Hkey) as (d' & Hrun & Hother & Hcount).
  exists d'. split; [|split; assumption].
  rewrite !process_entry_fields. cbn [process_fields process_field].
  now rewrite Hrun.
Qed.

(** ** The exceptions of a fold *)

Lemma store_item_raises (n : nat) (inspect : bool) (key : string)
    (sv : json) (store : node) (e : exn) :
  snd (store_item n inspect key sv store) = Some e ->
  (e = TypeError /\ is_branch store = false)
  \/ (e = KeyError
      /\ exists d d', store = Branch d /\ Dict.get key d = Some (Branch d')).
Proof.
  destruct store as [c v|d]; simpl.
  - intros H. inversion H. auto.
  - destruct (Dict.get key d) as [[c v|d']|] eqn:Hget; simpl;
      try discriminate.
    intros H. inversion H. right. split; auto. now exists d, d'.
Qed.

Section FoldExceptions.
Variable n : nat.
Variable inspect : bool.
Variable max_level : Z.

Local Abbreviation conflict e := (e = TypeError \/ e = KeyError).

Local Abbreviation raises_conflict entry :=
  (forall store level e,
      snd (process_entry n inspect max_level entry store level) = Some e ->
      is_dict entry = true -> conflict e).

Lemma process_subvalue_raises (level : Z) (key : string) (sv : json)
    (store : node) (e : exn) :
  raises_conflict sv ->
  snd (process_subvalue n inspect max_level level key sv store) = Some e ->
  conflict e.
Proof.
  intros Hsv. unfold process_subvalue.
  assert (Hstore : snd (store_item n inspect key sv store) = Some e ->
                   conflict e).
  { intros H. apply store_item_raises in H. destruct H as [[-> _]|[-> _]];
      auto. }
  destruct sv; auto.
  destruct (level <? max_level); auto.
  destruct store as [c v|d0]; simpl.
  { intros H. inversion H. auto. }
  destruct (Dict.get key d0) as [child|].
  - pose proof (Hsv child (level + 1) e) as Hc.
    destruct (process_entry n inspect max_level (JDict d) child (level + 1))
      as [child' e']. simpl in *. auto.
  - pose proof (Hsv (Branch []) (level + 1) e) as Hc.
    destruct (process_entry n inspect max_level (JDict d) (Branch [])
                (level + 1)) as [child' e']. simpl in *. auto.
Qed.

Lemma process_values_raises (level : Z) (key : string) (vs : list json)
    (e : exn) :
  Forall (fun sv => raises_conflict sv) vs ->
  forall store,
    snd (process_values n inspect max_level level key vs store) = Some e ->
    conflict e.
Proof.
  induction 1 as [|sv vs Hsv _ IH]; intros store; simpl; [discriminate|].
  pose proof (process_subvalue_raises level key sv store e Hsv) as H1.
  destruct (process_subvalue n inspect max_level level key sv store)
    as [s1 [e1|]]; simpl in *; [exact H1 | apply IH].
Qed.

Lemma process_entry_raises (entry : json) : raises_conflict entry.
Proof.
  enough (H : raises_conflict entry
              /\ match entry with
                 | JList l => Forall (fun sv => raises_conflict sv) l
                 | _ => True
                 end) by apply H.
  induction entry as [| | | | |l IH|fs IH] using json_children_ind;
    try (split; [intros store level e _ Hd; discriminate Hd | exact I]).
  - split; [intros store level e _ Hd; discriminate Hd|].
    eapply Forall_impl; [|exact IH]. intros j Hj. apply Hj.
  - split; [|exact I]. intros store level e H _. revert H.
    rewrite process_entry_fields. revert store.
    induction IH as [|[key value] fs [Hv Hl] _ IHfs]; intros store; simpl;
      [discriminate|].
    assert (H1 : snd (process_field n inspect max_level level key value
                        store) = Some e -> conflict e).
    { unfold process_field. simpl in Hv, Hl.
      destruct value;
        try (apply process_subvalue_raises; exact Hv).
      now apply process_values_raises. }
    destruct (process_field n inspect max_level level key value store)
      as [s1 [e1|]]; simpl in *; [exact H1 | apply IHfs].
Qed.
End FoldExceptions.

(** X4: folding a JSON object into any tree at any level raises nothing
    but [TypeError] or [KeyError], the two exceptions of a key that holds
    a node of the other kind. *)
Theorem fold_raises_only_on_a_shape_conflict :
  forall (n : nat) (inspect : bool) (max_level : Z)
         (fs : list (string * json)) (store : node) (level : Z) (e : exn),
    snd (process_entry n inspect max_level (JDict fs) store level) = Some e ->
    e = TypeError \/ e = KeyError.
Proof.
  intros n inspect max_level fs store level e H.
  now apply (process_entry_raises n inspect max_level (JDict fs) store
               level e H).
Qed.

(** ** Rendering again *)

Lemma sorted_desc_of_sorted (l : list (string * Z)) :
  StronglySorted count_ge l -> sorted_desc l = l.
Proof.
  induction 1 as [|x l Hs IH Hall]; simpl; auto.
  rewrite IH. destruct l as [|y l]; simpl; auto.
  inversion_clear Hall as [|? ? Hy _]. unfold count_ge in Hy.
  assert (E : (snd x <? snd y) = false) by (apply Z.ltb_ge; lia).
  now rewrite E.
Qed.

Lemma StronglySorted_firstn {A} (R : A -> A -> Prop) (l : list A) :
  StronglySorted R l -> forall m, StronglySorted R (firstn m l).
Proof.
  induction 1 as [|x l Hs IH Hall]; intros [|m]; simpl; try constructor.
  - apply IH.
  - rewrite Forall_forall in *. intros y Hy. apply Hall.
    rewrite <- (firstn_skipn m l). apply in_or_app. now left.
Qed.

Lemma top_values_wf (m : nat) (values : list (string * Z)) :
  Dict.wf values -> Dict.wf (top_values m values).
Proof.
  intros H. rewrite top_values_eq by exact H.
  unfold Dict.wf, Dict.keys in *. rewrite <- firstn_map.
  apply NoDup_firstn.
  eapply Permutation_NoDup; [|exact H].
  apply Permutation_map. symmetry. apply sorted_desc_perm.
Qed.

Lemma top_values_sorted (m : nat) (values : list (string * Z)) :
  Dict.wf values -> StronglySorted count_ge (top_values m values).
Proof.
  intros H. rewrite top_values_eq by exact H.
  apply StronglySorted_firstn, sorted_desc_sorted.
Qed.

Lemma top_values_twice (m : nat) (values : list (string * Z)) :
  Dict.wf values ->
  top_values m (top_values m values) = top_values m values.
Proof.
  intros H.
  rewrite (top_values_eq m (top_values m values))
    by now apply top_values_wf.
  rewrite sorted_desc_of_sorted by now apply top_values_sorted.
  rewrite top_values_eq by exact H.
  rewrite firstn_firstn. now rewrite Nat.min_id.
Qed.

Section RenderAgain.
Variable inspect_items : bool.
Variable m : nat.
Variable gray : string.

Local Abbreviation render := (build_tree inspect_items m gray).
Local Abbreviation render_item := (build_item inspect_items m gray).
Local Abbreviation render_items := (build_items inspect_items m gray).

Lemma build_leaf_again (key : string) (c : Z) (values : list (string * Z)) :
  Dict.wf values ->
  render_item key (snd (render_item key (Leaf c values)))
  = render_item key (Leaf c values).
Proof.
  intros H. unfold build_item, build_leaf.
  destruct inspect_items; simpl; [|reflexivity].
  now rewrite top_values_twice.
Qed.

Lemma build_tree_again (t : node) :
  values_wf t ->
  forall d, t = Branch d -> render (snd (render t)) = render t.
Proof.
  induction t as [c values|d0 IH] using node_children_ind;
    intros Hwf d Ht; [discriminate|].
  clear d Ht. inversion_clear Hwf as [|? Hd].
  rewrite (build_tree_items inspect_items m gray d0). cbn [snd].
  rewrite (build_tree_items inspect_items m gray
             (snd (render_items d0))).
  enough (H : render_items (snd (render_items d0)) = render_items d0)
    by now rewrite H.
  induction IH as [|[key value] rest Hv _ IHrest]; [reflexivity|].
  inversion_clear Hd as [|? ? Hvalue Hrest]. simpl in Hv, Hvalue.
  specialize (IHrest Hrest).
  assert (Hi : render_item key (snd (render_item key value))
               = render_item key value).
  { destruct value as [c values|d1].
    - inversion_clear Hvalue. now apply build_leaf_again.
    - specialize (Hv Hvalue d1 eq_refl).
      unfold build_item at 2 3. 
      destruct (render (Branch d1)) as [subs after] eqn:Hr. cbn [snd].
      pose proof (build_tree_items inspect_items m gray d1) as Hb.
      rewrite Hr in Hb. inversion Hb; subst after subs.
      unfold build_item. cbn [snd] in Hv. rewrite Hv. reflexivity. }
  cbn [build_items].
  destruct (render_item key value) as [sub value'] eqn:Hri.
  destruct (render_items rest) as [added rest'] eqn:Hrs.
  cbn [snd build_items] in *. now rewrite Hi, IHrest.
Qed.
End RenderAgain.

(** X5: rendering a tree whose leaves hold dictionaries of values a
    second time gives the same rendered tree and leaves the tree as the
    first rendering left it: after the first cut to [max_item_count]
    values nothing more is lost. *)
Theorem rendering_again_shows_the_same :
  forall (inspect_items : bool) (m : nat) (gray : string)
         (d : list (string * node)),
    values_wf (Branch d) ->
    build_tree inspect_items m gray
      (snd (build_tree inspect_items m gray (Branch d)))
    = build_tree inspect_items m gray (Branch d).
Proof.
  intros inspect_items m gray d Hwf.
  now apply build_tree_again with (d := d).
Qed.

(** ** Examples for the profiler and the renderer *)

Lemma list_field_counts_each_element_witness :
  exists d',
    process_entry 50 true 9
      (JDict [("given", JList [JStr "Ann"; JStr "Bea"; JStr "Ann"]);
              ("id", JStr "7")])
      (Branch [("given", Leaf 2 [("Ann", 2)])]) 0
    = process_entry 50 true 9 (JDict [("id", JStr "7")]) (Branch d') 0
    /\ (forall k,
          k <> "given" ->
          Dict.get k d' = Dict.get k [("given", Leaf 2 [("Ann", 2)])])
    /\ exists values', Dict.get "given" d' = Some (Leaf (2 + 3) values').
Proof.
  apply (list_field_counts_each_element 50 true 9 0 "given"
           [JStr "Ann"; JStr "Bea"; JStr "Ann"] [("id", JStr "7")]
           [("given", Leaf 2 [("Ann", 2)])] 2 [("Ann", 2)]).
  - repeat constructor.
  - left. reflexivity.
Defined.

Lemma fold_raises_only_on_a_shape_conflict_witness :
  snd (process_entry 50 false 9 shape_conflict (Branch []) 0)
  = Some KeyError
  /\ (KeyError = TypeError \/ KeyError = KeyError).
Proof.
  split; [reflexivity|].
  apply (fold_raises_only_on_a_shape_conflict 50 false 9
           [("a"%string, JList [JDict [("b"%string, JInt 1)]; JInt 2])]
           (Branch []) 0 KeyError).
  reflexivity.
Defined.

Lemma rendering_again_shows_the_same_witness :
  build_tree true 2 "white"
    (snd (build_tree true 2 "white" (Branch small_tree)))
  = build_tree true 2 "white" (Branch small_tree).
Proof.
  apply (rendering_again_shows_the_same true 2 "white" small_tree).
  constructor. repeat constructor; simpl; intuition discriminate.
Defined.

(** ** The empty cursor *)

Lemma count_path_not_empty (resource_type : string) :
  count_path resource_type <> ""%string.
Proof.
  unfold count_path. destruct resource_type; discriminate.
Qed.

Lemma rev_string_slashes (j : nat) :
  forall i, rev_string (slashes i) (slashes j) = slashes (j + i).
Proof.
  induction j as [|j IH]; intros i; cbn [slashes rev_string]; auto.
  change (String "/" (slashes i)) with (slashes (S i)).
  rewrite IH. rewrite Nat.add_succ_r. reflexivity.
Qed.

Lemma lstrip_slash_slashes (k : nat) : lstrip_slash (slashes k) = ""%string.
Proof. induction k; simpl; auto. Qed.

(** Splitting a run of slashes: every piece is a run of slashes. *)
Lemma split_scan_slashes (sep : string) (k : nat) :
  forall skip j,
    Forall (fun piece => lstrip_slash piece = ""%string)
      (split_scan sep skip (slashes j) (slashes k)).
Proof.
  induction k as [|k IH]; intros skip j; cbn [slashes split_scan].
  - constructor; [|constructor].
    change ""%string with (slashes 0) at 1.
    rewrite rev_string_slashes. apply lstrip_slash_slashes.
  - destruct skip as [|skip]; [|apply IH].
    destruct (String.prefix sep (String "/" (slashes k))).
    + constructor; [|apply (IH _ 0%nat)].
      change ""%string with (slashes 0) at 1.
      rewrite rev_string_slashes. apply lstrip_slash_slashes.
    + apply (IH 0%nat (S j)).
Qed.

Lemma last_Forall {A} (P : A -> Prop) (l : list A) (dflt : A) :
  l <> [] -> Forall P l -> P (last l dflt).
Proof.
  induction 2 as [|x l Hx Hl IH]; [congruence|].
  destruct l as [|y l]; [exact Hx|]. apply IH. discriminate.
Qed.

(** A "next" link that is the base URL, with or without slashes after
    it, gives the empty cursor. *)
Lemma next_cursor_of_base (base : string) (k : nat) :
  base <> ""%string ->
  next_cursor base (base ++ slashes k) = inr ""%string.
Proof.
  intros Hne. rewrite next_cursor_pieces by assumption.
  rewrite split_scan_match by assumption.
  rewrite last_cons_nonempty by apply split_scan_nonempty.
  f_equal.
  apply (last_Forall (fun piece => lstrip_slash piece = ""%string)).
  - apply split_scan_nonempty.
  - apply (split_scan_slashes base k 0%nat 0%nat).
Qed.

(** ** What a call of [fetch_resources] has done *)

Section FetchRuns.
Variable Resource : Type.
Variable Server : Type.
Variable request :
  string -> bool -> Server -> (exn + Bundle Resource) * Server.
Variable as_json : Resource -> json.
Variable Sink : Type.
Variable function_to_call : json + Resource -> Sink -> Sink * option exn.

Local Abbreviation World := (world Server Sink).
Local Abbreviation read := (bundle_read_from request (Sink := Sink)).
Local Abbreviation deliver_to := (deliver as_json function_to_call).
Local Abbreviation step := (fetch_step request as_json function_to_call).
Local Abbreviation loop := (fetch_loop request as_json function_to_call).
Local Abbreviation fetch :=
  (fetch_resources request as_json function_to_call).
Local Abbreviation passes :=
  (visits request as_json function_to_call).

(** A loop that ended went through some pages and was then left by a
    pass that stops. *)
Lemma fetch_loop_visits (base : string) (limit : option Z) (nov pj : bool)
    (total : option Z) (fuel : nat) :
  forall u r w why r' w',
    loop fuel base limit nov pj total u r w = Some (why, r', w') ->
    exists pages u1 r1 w1,
      passes base limit nov pj total u r w pages u1 r1 w1
      /\ step base limit nov pj total u1 r1 w1 = (Stop why, r', w')
      /\ (List.length pages < fuel)%nat.
Proof.
  induction fuel as [|fuel IH]; intros u r w why r' w' H;
    [discriminate|].
  simpl in H.
  destruct (step base limit nov pj total u r w)
    as [[[u1|why1] r1] w1] eqn:Hs.
  - destruct (IH _ _ _ _ _ _ H) as (pages & u2 & r2 & w2 & Hp & Hstop & Hl).
    pose proof Hs as Hn. apply fetch_step_next in Hn.
    destruct Hn as (b & wb & Hread & _).
    exists ((u, b) :: pages), u2, r2, w2. split; [|split; [exact Hstop|]].
    + eapply visits_page; eauto. now rewrite Hread.
    + simpl. lia.
  - inversion H; subst. exists [], u, r, w.
    split; [constructor | split; [exact Hs | simpl; lia]].
Qed.

(** What a stopping pass has done. *)
Lemma fetch_step_stop_effects (base : string) (limit : option Z)
    (nov pj : bool) (total : option Z) (u : string) (r : Z) (w : World)
    (why : stop) (r' : Z) (w' : World) :
  step base limit nov pj total u r w = (Stop why, r', w') ->
  match why with
  | StopValidation =>
      r' = r /\ w_sink w' = w_sink w
      /\ w_requested w' = w_requested w ++ [u]
      /\ w_console w' = w_console w ++ [MsgValidationError]
  | StopLimit =>
      exists b l,
        limit = Some l
        /\ fst (read u nov w) = inr b
        /\ r' = r + Z.of_nat (List.length (page_entries b))
        /\ deliver_to pj (page_entries b) (w_sink w) = (w_sink w', None)
        /\ w_requested w' = w_requested w ++ [u]
        /\ w_console w' = w_console w ++ [MsgReachedLimit l]
  | StopNoNext =>
      exists b,
        fst (read u nov w) = inr b
        /\ r' = r + Z.of_nat (List.length (page_entries b))
        /\ deliver_to pj (page_entries b) (w_sink w) = (w_sink w', None)
        /\ w_requested w' = w_requested w ++ [u]
        /\ w_console w' = w_console w
  | StopRaise e => w_console w' = w_console w
  end.
Proof.
  unfold fetch_step.
  destruct (read u nov w) as [[e|b] w1] eqn:Hread.
  { destruct (bundle_read_from_frame _ _ _ _ _ _ _ _ _ Hread)
      as (Hsink & Hcons & _ & _).
    assert (Hreq : e = FHIRValidationError ->
                   w_requested w1 = w_requested w ++ [u]).
    { intros ->. unfold bundle_read_from in Hread.
      destruct (String.eqb u ""); [discriminate|].
      destruct (request u nov (w_server w)) as [r0 srv].
      inversion Hread; subst. reflexivity. }
    destruct e; intros H; inversion H; subst; simpl; auto.
    rewrite Hcons. auto. }
  destruct (bundle_read_from_frame _ _ _ _ _ _ _ _ _ Hread)
    as (Hsink & Hcons & _ & Hpage).
  destruct (Hpage b eq_refl) as (_ & _ & Hlog).
  assert (Hfollow : forall why0,
             follow_next base b = Stop why0 ->
             why0 = StopNoNext \/ exists e, why0 = StopRaise e).
  { intros why0. unfold follow_next.
    destruct (next_link (link b)) as [l|].
    - destruct (next_cursor base l) as [e|c]; [|discriminate].
      intros H. inversion H; subst. right. now exists e.
    - intros H. inversion H. now left. }
  unfold page_entries. simpl.
  destruct (entry b) as [es|] eqn:He.
  - rewrite <- Hsink.
    destruct (deliver_to pj es (w_sink w1)) as [s [e|]] eqn:Hd.
    + intros H. inversion H; subst. simpl. exact Hcons.
    + destruct limit as [l|].
      * destruct (l <=? r + Z.of_nat (List.length es)) eqn:Hl.
        -- intros H. inversion H; subst. simpl.
           exists b, l. rewrite He, Hcons. repeat split; auto.
        -- intros H. inversion H; subst.
           match goal with
           | Hf : follow_next _ _ = Stop _ |- _ =>
               destruct (Hfollow _ Hf) as [->|[e ->]]
           end; simpl; auto.
           exists b. rewrite He. repeat split; auto.
      * intros H. inversion H; subst.
        match goal with
        | Hf : follow_next _ _ = Stop _ |- _ =>
            destruct (Hfollow _ Hf) as [->|[e ->]]
        end; simpl; auto.
        exists b. rewrite He. repeat split; auto.
  - intros H. inversion H; subst.
    match goal with
    | Hf : follow_next _ _ = Stop _ |- _ =>
        destruct (Hfollow _ Hf) as [->|[e ->]]
    end; simpl; auto.
    exists b. rewrite He, Z.add_0_r. simpl.
    repeat split; auto. now rewrite Hsink.
Qed.

(** The loop of a call that got past the count query. *)
Lemma fetch_resources_loop (fuel : nat) (base resource_type : string)
    (limit : option Z) (nov pj : bool) (w w1 : World)
    (count : Bundle Resource) :
  read (count_path resource_type) nov w = (inr count, w1) ->
  total count <> Some 0 ->
  fetch fuel base resource_type limit nov pj w
  = match loop fuel base limit nov pj (total count) resource_type 0
            (live_show LiveReceiving
               (let w2 := print (MsgFetching (total count) resource_type)
                            w1 in
                if nov then print MsgNoValidationNotice w2 else w2)) with
    | None => None
    | Some (StopRaise e, _, w4) => Some (Raise e, w4)
    | Some (_, received, w4) =>
        Some (Return 0, print (MsgReceived received (total count)) w4)
    end.
Proof.
  intros Hread Ht. unfold fetch_resources.
  unfold count_path in Hread. rewrite Hread.
  destruct (total count) as [[|p|p]|]; try congruence; reflexivity.
Qed.

Lemma all_entries_app (pages1 pages2 : list (string * Bundle Resource)) :
  all_entries (pages1 ++ pages2)
  = all_entries pages1 ++ all_entries pages2.
Proof. unfold all_entries. now rewrite map_app, concat_app. Qed.

Lemma all_entries_one (u : string) (b : Bundle Resource) :
  all_entries [(u, b)] = page_entries b.
Proof. unfold all_entries. simpl. apply app_nil_r. Qed.

(** A read at a path that is not empty is a request at that path,
    whatever comes back. *)
Lemma read_requests (path : string) (nov : bool) (w w1 : World)
    (r : exn + Bundle Resource) :
  path <> ""%string ->
  read path nov w = (r, w1) ->
  w_requested w1 = w_requested w ++ [path].
Proof.
  intros Hne. unfold bundle_read_from.
  apply String.eqb_neq in Hne. rewrite Hne.
  destruct (request path nov (w_server w)) as [r0 srv].
  intros H. inversion H; subst. reflexivity.
Qed.

(** What a call that returns 0 has done. *)
Lemma fetch_resources_returns_0 (fuel : nat) (base resource_type : string)
    (limit : option Z) (nov pj : bool) (w w' : World) :
  fetch fuel base resource_type limit nov pj w = Some (Return 0, w') ->
  exists (count : Bundle Resource)
         (pages : list (string * Bundle Resource))
         (paths : list string) (closing : list message),
    fetched request as_json function_to_call base limit nov pj
      resource_type w count pages paths closing
    /\ deliver_to pj (all_entries pages) (w_sink w) = (w_sink w', None)
    /\ w_console w'
       = w_console w
         ++ MsgFetching (total count) resource_type
            :: (if nov then [MsgNoValidationNotice] else [])
         ++ closing
         ++ [MsgReceived (Z.of_nat (List.length (all_entries pages)))
               (total count)]
    /\ w_requested w'
       = w_requested w ++ count_path resource_type :: paths.
Proof.
  intros H.
  destruct (read (count_path resource_type) nov w) as [[e|count] w1]
    eqn:Hread.
  { unfold fetch_resources in H. unfold count_path in Hread.
    rewrite Hread in H. discriminate. }
  assert (Ht : total count <> Some 0).
  { intros Ht. unfold fetch_resources in H. unfold count_path in Hread.
    rewrite Hread, Ht in H. discriminate. }
  rewrite (fetch_resources_loop fuel base resource_type limit nov pj
             w w1 count Hread Ht) in H.
  destruct (bundle_read_from_frame _ _ _ _ _ _ _ _ _ Hread)
    as (Hsink1 & Hcons1 & _ & _).
  pose proof (read_requests _ _ _ _ _
                (count_path_not_empty resource_type) Hread) as Hreq1.
  change (live_show LiveReceiving _)
    with (loop_world nov resource_type (total count) w1) in H.
  set (start := loop_world nov resource_type (total count) w1) in *.
  assert (Hstart : w_sink start = w_sink w
                   /\ w_requested start
                      = w_requested w ++ [count_path resource_type]
                   /\ w_console start
                      = w_console w
                        ++ MsgFetching (total count) resource_type
                           :: (if nov then [MsgNoValidationNotice]
                               else [])).
  { subst start. unfold loop_world.
    destruct nov; simpl; rewrite Hsink1, Hreq1, Hcons1;
      repeat split; auto; now rewrite <- ?app_assoc. }
  destruct Hstart as (Hs0 & Hr0 & Hc0).
  destruct (loop fuel base limit nov pj (total count) resource_type 0
              start) as [[[why r'] w4]|] eqn:Hloop; [|discriminate].
  apply fetch_loop_visits in Hloop.
  destruct Hloop as (pages & u1 & r1 & w2 & Hp & Hstop & _).
  pose proof Hp as Heff. apply visits_effects in Heff.
  destruct Heff as (Hr & Hd & Hreq & Hcons).
  pose proof Hstop as Hwhy. apply fetch_step_stop in Hwhy.
  apply fetch_step_stop_effects in Hstop.
  rewrite Hs0 in Hd. rewrite Hr0 in Hreq. rewrite Hc0 in Hcons.
  rewrite Z.add_0_l in Hr.
  exists count.
  destruct why as [| | |e]; [| | |discriminate];
    inversion H; subst w'; clear H; simpl.
  - destruct Hstop as (-> & Hsk & Hrq & Hcn).
    exists pages, (map fst pages ++ [u1]), [MsgValidationError].
    rewrite Hsk, Hrq, Hcn, Hreq, Hcons, Hr.
    split.
    { exists w1, pages, u1, r1, w2, [].
      rewrite app_nil_r. repeat split; auto. }
    split; [exact Hd|].
    split; now rewrite <- !app_assoc.
  - destruct Hstop as (b & l & Hlim & Hb & -> & Hdb & Hrq & Hcn).
    destruct Hwhy as (l0 & b0 & es & Hlim0 & _ & _ & Hr' & Hle).
    rewrite Hlim in Hlim0. inversion Hlim0; subst l0.
    exists (pages ++ [(u1, b)]), (map fst pages ++ [u1]),
      [MsgReachedLimit l].
    assert (Hn : Z.of_nat (List.length (all_entries (pages ++ [(u1, b)])))
                 = r1 + Z.of_nat (List.length (page_entries b))).
    { rewrite all_entries_app, all_entries_one, length_app, Nat2Z.inj_add.
      now rewrite Hr. }
    split.
    { exists w1, pages, u1, r1, w2, [(u1, b)].
      repeat split; auto. right. exists b. repeat split; auto.
      right. exists l. repeat split; auto. rewrite Hn. lia. }
    rewrite Hn.
    rewrite all_entries_app, all_entries_one, deliver_app, Hd, Hdb.
    rewrite Hrq, Hcn, Hreq, Hcons.
    split; [reflexivity|].
    split; now rewrite <- !app_assoc.
  - destruct Hstop as (b & Hb & -> & Hdb & Hrq & Hcn).
    destruct Hwhy as (b0 & Hb0 & Hnone).
    rewrite Hb in Hb0. inversion Hb0; subst b0.
    exists (pages ++ [(u1, b)]), (map fst pages ++ [u1]), [].
    assert (Hn : Z.of_nat (List.length (all_entries (pages ++ [(u1, b)])))
                 = r1 + Z.of_nat (List.length (page_entries b))).
    { rewrite all_entries_app, all_entries_one, length_app, Nat2Z.inj_add.
      now rewrite Hr. }
    split.
    { exists w1, pages, u1, r1, w2, [(u1, b)].
      repeat split; auto. right. exists b. repeat split; auto. }
    rewrite Hn.
    rewrite all_entries_app, all_entries_one, deliver_app, Hd, Hdb.
    rewrite Hrq, Hcn, Hreq, Hcons.
    split; [reflexivity|].
    split; now rewrite <- !app_assoc.
Qed.

(** X6: whenever [fetch_resources] returns 0, the sink is what
    delivering every record of the pages read from the server, in the
    order read and without an exception, made of it, and the count
    printed last is the number of these records.  The pages are those of
    [fetched]: each is what [bundle_read_from] gave at its path in the
    world the pass before had left, up to the pass that ended the loop.
    Between the opening lines and the count nothing is printed but the
    line of a validation error or of the limit reached; the requests are
    the count query and the paths of the loop, in order. *)
Theorem final_count_is_what_the_sink_received :
  forall (fuel : nat) (base resource_type : string) (limit : option Z)
         (nov pj : bool) (w w' : World),
    fetch fuel base resource_type limit nov pj w = Some (Return 0, w') ->
    exists (count : Bundle Resource)
           (pages : list (string * Bundle Resource))
           (paths : list string) (closing : list message),
      fetched request as_json function_to_call base limit nov pj
        resource_type w count pages paths closing
      /\ deliver_to pj (all_entries pages) (w_sink w) = (w_sink w', None)
      /\ w_console w'
         = w_console w
           ++ MsgFetching (total count) resource_type
              :: (if nov then [MsgNoValidationNotice] else [])
           ++ closing
           ++ [MsgReceived (Z.of_nat (List.length (all_entries pages)))
                 (total count)]
      /\ w_requested w'
         = w_requested w ++ count_path resource_type :: paths.
Proof.
  intros fuel base resource_type limit nov pj w w'.
  apply fetch_resources_returns_0.
Qed.

(** What a call that returns another status has done. *)
Lemma fetch_resources_returns_1 :
  forall (fuel : nat) (base resource_type : string) (limit : option Z)
         (nov pj : bool) (w w' : World) (status : Z),
    fetch fuel base resource_type limit nov pj w
    = Some (Return status, w') ->
    status <> 0 ->
    status = 1
    /\ w_sink w' = w_sink w
    /\ w_live w' = w_live w
    /\ w_requested w' = w_requested w ++ [count_path resource_type]
    /\ (exists m,
          w_console w' = w_console w ++ [m]
          /\ (m = MsgNoResources resource_type
              \/ exists e, m = MsgReadError e))
    /\ (forall fuel' limit' pj',
          fetch fuel' base resource_type limit' nov pj' w
          = Some (Return status, w')).
Proof.
  intros fuel base resource_type limit nov pj w w' status H Hs.
  unfold fetch_resources in *.
  destruct (read (resource_type ++ "?_summary=count") nov w)
    as [[e|count] w1] eqn:Hread.
  - inversion H; subst. clear H.
    destruct (bundle_read_from_frame _ _ _ _ _ _ _ _ _ Hread)
      as (Hsink1 & Hcons1 & Hlive1 & _).
    pose proof (read_requests _ _ _ _ _
                  (count_path_not_empty resource_type) Hread) as Hreq1.
    simpl. rewrite Hcons1. repeat split; eauto.
  - destruct (bundle_read_from_frame _ _ _ _ _ _ _ _ _ Hread)
      as (Hsink1 & Hcons1 & Hlive1 & _).
    pose proof (read_requests _ _ _ _ _
                  (count_path_not_empty resource_type) Hread) as Hreq1.
    destruct (total count) as [[|p|p]|];
      try (destruct (loop fuel _ _ _ _ _ _ _ _)
             as [[[[| | |e] r'] w4]|]; inversion H; congruence).
    inversion H; subst. clear H.
    simpl. rewrite Hcons1. repeat split; eauto.
Qed.

(** X7: the only status [fetch_resources] returns besides 0 is 1, and
    then nothing was fetched: the count query was the only request, the
    sink and the live display are untouched, and one line was printed, of
    the read error or of no resources found.  The limit, the number of
    passes allowed and the way records are passed play no part in it. *)
Theorem status_1_means_nothing_was_fetched :
  forall (fuel : nat) (base resource_type : string) (limit : option Z)
         (nov pj : bool) (w w' : World) (status : Z),
    fetch fuel base resource_type limit nov pj w
    = Some (Return status, w') ->
    status <> 0 ->
    status = 1
    /\ w_sink w' = w_sink w
    /\ w_live w' = w_live w
    /\ w_requested w' = w_requested w ++ [count_path resource_type]
    /\ (exists m,
          w_console w' = w_console w ++ [m]
          /\ (m = MsgNoResources resource_type
              \/ exists e, m = MsgReadError e))
    /\ (forall fuel' limit' pj',
          fetch fuel' base resource_type limit' nov pj' w
          = Some (Return status, w')).
Proof.
  intros fuel base resource_type limit nov pj w w' status.
  apply fetch_resources_returns_1.
Qed.

(** What a call that raises has printed. *)
Lemma fetch_resources_raises :
  forall (fuel : nat) (base resource_type : string) (limit : option Z)
         (nov pj : bool) (w w' : World) (e : exn),
    fetch fuel base resource_type limit nov pj w = Some (Raise e, w') ->
    exists count : Bundle Resource,
      fst (read (count_path resource_type) nov w) = inr count
      /\ w_console w'
         = w_console w ++ MsgFetching (total count) resource_type
           :: (if nov then [MsgNoValidationNotice] else []).
Proof.
  intros fuel base resource_type limit nov pj w w' e H.
  destruct (read (count_path resource_type) nov w) as [[e0|count] w1]
    eqn:Hread.
  { unfold fetch_resources in H. unfold count_path in Hread.
    rewrite Hread in H. discriminate. }
  assert (Ht : total count <> Some 0).
  { intros Ht. unfold fetch_resources in H. unfold count_path in Hread.
    rewrite Hread, Ht in H. discriminate. }
  rewrite (fetch_resources_loop fuel base resource_type limit nov pj
             w w1 count Hread Ht) in H.
  destruct (bundle_read_from_frame _ _ _ _ _ _ _ _ _ Hread)
    as (_ & Hcons1 & _ & _).
  set (start := live_show LiveReceiving _) in H.
  assert (Hc0 : w_console start
                = w_console w ++ MsgFetching (total count) resource_type
                  :: (if nov then [MsgNoValidationNotice] else [])).
  { subst start. destruct nov; simpl; rewrite Hcons1;
      now rewrite <- ?app_assoc. }
  destruct (loop fuel base limit nov pj (total count) resource_type 0
              start) as [[[why r'] w4]|] eqn:Hloop; [|discriminate].
  apply fetch_loop_visits in Hloop.
  destruct Hloop as (pages & u1 & r1 & w2 & Hp & Hstop & _).
  apply visits_effects in Hp. destruct Hp as (_ & _ & _ & Hcons).
  apply fetch_step_stop_effects in Hstop.
  destruct why as [| | |e1]; try discriminate.
  inversion H; subst. exists count. split; [reflexivity|].
  now rewrite Hstop, Hcons.
Qed.


(** X9: a page whose "next" link is the base URL itself, with or without
    slashes after it, gives the empty cursor, which does not end the
    loop: after the page was delivered, the next pass raises the
    exception of [bundle_read_from] for an empty path, without another
    request. *)
Theorem next_link_to_the_base_url_raises :
  forall (base : string) (limit : option Z) (nov pj : bool)
         (total : option Z) (u : string) (r : Z) (w w1 : World)
         (b : Bundle Resource) (s : Sink) (k : nat),
    base <> ""%string ->
    read u nov w = (inr b, w1) ->
    next_link (link b) = Some (base ++ slashes k)%string ->
    deliver_to pj (page_entries b) (w_sink w) = (s, None) ->
    (entry b <> None ->
     below_limit limit (r + Z.of_nat (List.length (page_entries b)))) ->
    follow_next base b = Next ""
    /\ exists w',
         (forall fuel,
            loop (2 + fuel) base limit nov pj total u r w
            = Some (StopRaise no_path,
                    r + Z.of_nat (List.length (page_entries b)), w'))
         /\ w_requested w' = w_requested w ++ [u]
         /\ w_sink w' = s
         /\ w_console w' = w_console w.
Proof.
  intros base limit nov pj total u r w w1 b s k Hne Hread Hnext Hd Hlim.
  assert (Hf : follow_next base b = Next "").
  { unfold follow_next. now rewrite Hnext, next_cursor_of_base. }
  split; [exact Hf|].
  destruct (fetch_step_page _ _ _ _ _ function_to_call base limit nov pj
              total u r w w1 b s Hread Hd Hlim)
    as (w' & Hs & _ & Hreq & Hsink & Hcons).
  pose proof (read_requests u nov w w1 (inr b)) as Hreq1.
  destruct (bundle_read_from_frame _ _ _ _ _ _ _ _ _ Hread)
    as (_ & _ & _ & Hpage).
  destruct (Hpage b eq_refl) as (_ & _ & Hlog).
  exists w'. rewrite Hreq, Hlog. repeat split; auto.
  intros fuel. cbn [Nat.add fetch_loop]. rewrite Hs, Hf.
  reflexivity.
Qed.
End FetchRuns.

(** ** Examples for the fetch loop *)

Lemma final_count_is_what_the_sink_received_witness :
  exists w',
    fetch_resources (table_request three_pages) as_is collect 3
      "http://srv/fhir" "Patient" (Some 7) false true (fresh [])
    = Some (Return 0, w')
    /\ exists (count : Bundle json) (pages : list (string * Bundle json))
              (paths : list string) (closing : list message),
         fetched (table_request three_pages) as_is collect
           "http://srv/fhir" (Some 7) false true "Patient" (fresh [])
           count pages paths closing
         /\ deliver as_is collect true (all_entries pages) []
            = (w_sink w', None)
         /\ w_console w'
            = [] ++ MsgFetching (total count) "Patient" :: [] ++ closing
              ++ [MsgReceived (Z.of_nat (List.length (all_entries pages)))
                    (total count)]
         /\ w_requested w' = [] ++ count_path "Patient" :: paths.
Proof.
  eexists. split.
  - vm_compute. reflexivity.
  - apply (final_count_is_what_the_sink_received
             json unit (table_request three_pages) as_is
             (list json) collect 3 "http://srv/fhir" "Patient" (Some 7)
             false true (fresh [])).
    vm_compute. reflexivity.
Defined.

Lemma status_1_means_nothing_was_fetched_witness :
  exists w',
    fetch_resources (table_request []) as_is collect 0
      "http://srv/fhir" "Patient" None false true (fresh [])
    = Some (Return 1, w')
    /\ 1 = 1
    /\ w_sink w' = []
    /\ w_live w' = []
    /\ w_requested w' = [] ++ [count_path "Patient"]
    /\ (exists m,
          w_console w' = [] ++ [m]
          /\ (m = MsgNoResources "Patient"
              \/ exists e, m = MsgReadError e))
    /\ (forall fuel' limit' pj',
          fetch_resources (table_request []) as_is collect fuel'
            "http://srv/fhir" "Patient" limit' false pj' (fresh [])
          = Some (Return 1, w')).
Proof.
  eexists. split.
  - vm_compute. reflexivity.
  - apply (status_1_means_nothing_was_fetched
             json unit (table_request []) as_is (list json) collect 0
             "http://srv/fhir" "Patient" None false true (fresh [])).
    + vm_compute. reflexivity.
    + discriminate.
Defined.


Lemma next_link_to_the_base_url_raises_witness :
  follow_next "http://srv/fhir" page_back_to_base = Next ""
  /\ exists w',
       (forall fuel,
          fetch_loop (table_request back_to_base) as_is collect (2 + fuel)
            "http://srv/fhir" None false true (Some 1) "Patient" 0
            (fresh [])
          = Some (StopRaise no_path,
                  0 + Z.of_nat (List.length
                                  (page_entries page_back_to_base)), w'))
       /\ w_requested w' = [] ++ ["Patient"%string]
       /\ w_sink w' = [patient 1]
       /\ w_console w' = [].
Proof.
  eapply (next_link_to_the_base_url_raises
            json unit (table_request back_to_base) as_is (list json)
            collect "http://srv/fhir" None false true (Some 1) "Patient" 0
            (fresh []) _ page_back_to_base [patient 1] 1).
  - discriminate.
  - reflexivity.
  - reflexivity.
  - reflexivity.
  - intros _. exact I.
Defined.

(** ** The depth of the tree *)

Lemma levels_branch (d : list (string * node)) (k : nat) :
  (levels (Branch d) <= S k)%nat
  <-> Forall (fun kv => (levels (snd kv) <= k)%nat) d.
Proof.
  cbn [levels]. rewrite <- Nat.succ_le_mono, list_max_le, Forall_map.
  reflexivity.
Qed.

Section Depth.
Variable n : nat.
Variable inspect : bool.
Variable max_level : Z.

(** The levels left for a dictionary filled at [level]. *)
Local Abbreviation left_at level := (Z.to_nat (max_level - level)).

Local Abbreviation shallow entry :=
  (forall store level,
      (levels store <= S (left_at level))%nat ->
      (levels (fst (process_entry n inspect max_level entry store level))
       <= S (left_at level))%nat).

Lemma store_item_levels (key : string) (sv : json) (store : node)
    (k : nat) :
  (levels store <= S k)%nat ->
  (levels (fst (store_item n inspect key sv store)) <= S k)%nat.
Proof.
  intros Hs. destruct store as [c v|d]; simpl; [lia|].
  destruct (Dict.get key d) as [[c v|d']|]; cbn [fst]; auto;
    apply levels_branch; apply levels_branch in Hs;
    apply (Forall_children_set (P := fun t => (levels t <= k)%nat));
    auto; simpl; lia.
Qed.

Lemma process_subvalue_levels (level : Z) (key : string) (sv : json)
    (store : node) :
  shallow sv ->
  (levels store <= S (left_at level))%nat ->
  (levels (fst (process_subvalue n inspect max_level level key sv store))
   <= S (left_at level))%nat.
Proof.
  intros Hsv Hs. unfold process_subvalue.
  destruct sv; try (now apply store_item_levels).
  destruct (level <? max_level) eqn:Hl; [|now apply store_item_levels].
  apply Z.ltb_lt in Hl.
  destruct store as [c v|d0]; [exact Hs|].
  assert (Hk : S (left_at (level + 1)) = left_at level) by lia.
  apply levels_branch in Hs.
  assert (Hchild : forall child,
             (levels child <= left_at level)%nat ->
             (levels (fst (process_entry n inspect max_level (JDict d)
                             child (level + 1)))
              <= left_at level)%nat).
  { intros child Hc. rewrite <- Hk in *. now apply Hsv. }
  destruct (Dict.get key d0) as [child|] eqn:Hget.
  - pose proof (Hchild child
                  (Forall_children_get
                     (P := fun t => (levels t <= left_at level)%nat)
                     _ _ _ Hs Hget)) as Hc.
    destruct (process_entry n inspect max_level (JDict d) child (level + 1))
      as [child' e]. cbn [fst] in *.
    apply levels_branch.
    now apply (Forall_children_set
                 (P := fun t => (levels t <= left_at level)%nat)).
  - assert (He : (levels (Branch []) <= left_at level)%nat)
      by (simpl; lia).
    pose proof (Hchild (Branch []) He) as Hc.
    destruct (process_entry n inspect max_level (JDict d) (Branch [])
                (level + 1)) as [child' e]. cbn [fst] in *.
    apply levels_branch.
    apply (Forall_children_set
             (P := fun t => (levels t <= left_at level)%nat)); auto.
    now apply (Forall_children_set
                 (P := fun t => (levels t <= left_at level)%nat)).
Qed.

Lemma process_values_levels (level : Z) (key : string) (vs : list json) :
  Forall (fun sv => shallow sv) vs ->
  forall store,
    (levels store <= S (left_at level))%nat ->
    (levels (fst (process_values n inspect max_level level key vs store))
     <= S (left_at level))%nat.
Proof.
  induction 1 as [|sv vs Hsv _ IH]; intros store Hs; simpl; auto.
  pose proof (process_subvalue_levels level key sv store Hsv Hs) as H1.
  destruct (process_subvalue n inspect max_level level key sv store)
    as [s1 [e|]]; simpl in *; auto.
Qed.

Lemma process_entry_levels (entry : json) : shallow entry.
Proof.
  enough (H : shallow entry
              /\ match entry with
                 | JList l => Forall (fun sv => shallow sv) l
                 | _ => True
                 end) by apply H.
  induction entry as [| | | | |l IH|fs IH] using json_children_ind;
    try (split; [intros store level Hs; exact Hs | exact I]).
  - split; [intros store level Hs; exact Hs|].
    eapply Forall_impl; [|exact IH]. intros j Hj. apply Hj.
  - split; [|exact I]. intros store level.
    rewrite process_entry_fields. revert store.
    induction IH as [|[key value] fs [Hv Hl] _ IHfs]; intros store Hs;
      simpl; auto.
    assert (H1 : (levels (fst (process_field n inspect max_level level key
                                 value store))
                  <= S (left_at level))%nat).
    { unfold process_field. simpl in Hv, Hl.
      destruct value;
        try (apply process_subvalue_levels; assumption).
      now apply process_values_levels. }
    destruct (process_field n inspect max_level level key value store)
      as [s1 [e|]]; simpl in *; auto.
Qed.
End Depth.

(** X10: with [--level N], for which [main] passes [N - 1] as the
    nesting limit and which is rejected unless [N] is at least 1, the
    tree that [inspect_resource] builds from any list of records,
    whether or not the fold raises on the way, shows at most [N]
    levels. *)
Theorem tree_shows_at_most_level_levels :
  forall (Resource : Type) (as_json : Resource -> json) (inspect : bool)
         (level_option : Z) (records : list Resource),
    1 <= level_option ->
    (levels (fst (profile_of as_json inspect (level_option - 1) records))
     <= Z.to_nat level_option)%nat.
Proof.
  intros Resource as_json inspect level_option records Hl.
  unfold profile_of.
  assert (Hempty : (levels (Branch []) <= Z.to_nat level_option)%nat)
    by (simpl; lia).
  revert Hempty. generalize (Branch []).
  induction records as [|r records IH]; intros store Hs; simpl; auto.
  assert (H1 : (levels (fst (process_entry max_item_str_len inspect
                               (level_option - 1) (as_json r) store 0))
                <= Z.to_nat level_option)%nat).
  { pose proof (process_entry_levels max_item_str_len inspect
                  (level_option - 1) (as_json r) store 0) as H.
    replace (S (Z.to_nat (level_option - 1 - 0)))
      with (Z.to_nat level_option) in H by lia.
    now apply H. }
  destruct (process_entry max_item_str_len inspect (level_option - 1)
              (as_json r) store 0) as [s1 [e|]]; simpl in *; auto.
Qed.

(** X11: with a nesting limit of 0 or below, which is what [--level 1]
    gives, folding records that are JSON objects never raises, whatever
    shapes their fields have, and the tree is a dictionary of leaves. *)
Theorem level_1_profile_never_raises :
  forall (Resource : Type) (as_json : Resource -> json) (inspect : bool)
         (max_level : Z) (records : list Resource),
    max_level <= 0 ->
    Forall (fun r => is_dict (as_json r) = true) records ->
    exists d,
      profile_of as_json inspect max_level records = (Branch d, None)
      /\ all_leaves d.
Proof.
  intros Resource as_json inspect max_level records Hm Hr.
  unfold profile_of.
  assert (Hempty : all_leaves []) by constructor.
  revert Hempty. generalize (@nil (string * node)).
  induction Hr as [|r records Hd _ IH]; intros d0 H0; simpl; [eauto|].
  destruct (as_json r) as [| | | | | |fs] eqn:Hj; try discriminate.
  destruct (process_entry_of_leaves max_item_str_len inspect
              max_level 0 fs d0) as (d1 & -> & H1); auto.
  rewrite Forall_forall. intros [key value] _. simpl.
  unfold field_of_leaves.
  assert (Hsv : forall sv, stored_as_leaf max_level 0 sv)
    by (intros sv; unfold stored_as_leaf; destruct sv; auto).
  destruct value; try apply Hsv.
  rewrite Forall_forall. intros sv _. apply Hsv.
Qed.

(** ** Examples for the depth of the tree *)

Lemma tree_shows_at_most_level_levels_witness :
  (levels (fst (profile_of as_is true (2 - 1)
                  [patient 1; patient_with_contained]))
   <= Z.to_nat 2)%nat.
Proof.
  apply (tree_shows_at_most_level_levels json as_is true 2
           [patient 1; patient_with_contained]).
  lia.
Defined.

Lemma level_1_profile_never_raises_witness :
  exists d,
    profile_of as_is false 0 [patient_with_contained; patient 1]
    = (Branch d, None)
    /\ all_leaves d.
Proof.
  apply (level_1_profile_never_raises json as_is false 0
           [patient_with_contained; patient 1]).
  - lia.
  - repeat constructor.
Defined.

(** ** [list_resources] *)

Section ListingFacts.
Variable Resource : Type.
Variable Server : Type.
Variable request :
  string -> bool -> Server -> (exn + Bundle Resource) * Server.

Local Abbreviation count_all := (count_types request).
Local Abbreviation answered := (counted request).
Local Abbreviation State := (listing Server (string * string)).

Lemma row_wanted_comparable (display_zero : bool) (total : option Z)
    (totals : list (option Z)) :
  comparable display_zero (total :: totals) ->
  row_wanted display_zero total
  = inr (display_zero
         || match total with Some n => 0 <? n | None => false end)
  /\ comparable display_zero totals.
Proof.
  unfold comparable, row_wanted. intros [->|H]; [auto|].
  inversion_clear H as [|? ? Ht Hts].
  destruct total as [n|]; [|congruence].
  destruct display_zero; auto.
Qed.


(** The loop over a run of types that are answered, followed by more. *)
Lemma count_types_app (dz nov : bool) (total : Z) (srv srv' : Server)
    (types : list string) (totals : list (option Z)) (rest : list string) :
  answered nov srv types totals srv' ->
  comparable dz totals ->
  forall (received : Z) (st : State),
    w_server (l_world st) = srv ->
    exists st',
      count_all dz nov total (types ++ rest) received st
      = count_all dz nov total rest
          (received + Z.of_nat (List.length types)) st'
      /\ w_server (l_world st') = srv'
      /\ w_requested (l_world st')
         = w_requested (l_world st) ++ map count_path types
      /\ l_console st' = l_console st.
Proof.
  induction 1 as [srv|srv type b srv1 types totals srv' Hreq _ IH];
    intros Hc received st Hsrv.
  - exists st. simpl. rewrite Z.add_0_r, !app_nil_r. auto.
  - apply row_wanted_comparable in Hc. destruct Hc as [Hrow Hc].
    cbn [count_types app]. fold (count_path type).
    rewrite <- Hsrv in Hreq.
    rewrite (read_page _ _ request _ (count_path type) nov (l_world st)
               b srv1 (count_path_not_empty type) Hreq).
    rewrite Hrow.
    match goal with
    | |- context [count_all dz nov total (types ++ rest) (received + 1)
                    ?s] =>
        destruct (IH Hc (received + 1) s) as (st' & Hrun & Hs & Hr & Hl)
    end.
    { destruct (dz || _); reflexivity. }
    exists st'. rewrite Hrun, Hs, Hr, Hl.
    replace (received + Z.of_nat (List.length (type :: types)))
      with (received + 1 + Z.of_nat (List.length types))
      by (cbn [List.length]; lia).
    split; [reflexivity|]. split; [reflexivity|].
    destruct (dz || _); simpl; rewrite <- ?app_assoc; auto.
Qed.


(** X13: [list_resources] catches nothing: at the first type whose count
    query raises, or whose answer has no total while [display_zero] is
    off ([None > 0] raises [TypeError]), it raises; the types after it
    are not requested and neither the table nor the closing line is
    printed, whatever was counted before. *)
Theorem list_resources_stops_at_the_first_failure :
  forall (base_uri : string) (types : list string)
         (totals : list (option Z)) (type : string) (rest : list string)
         (dz nov : bool) (st : State) (srv1 srv2 : Server)
         (r : exn + Bundle Resource) (e : exn),
    answered nov (w_server (l_world st)) types totals srv1 ->
    dz = true \/ Forall (fun t => t <> None) totals ->
    request (count_path type) nov srv1 = (r, srv2) ->
    r = inl e
    \/ (exists b, r = inr b /\ total b = None
                  /\ dz = false /\ e = TypeError) ->
    exists st',
      list_resources request base_uri (types ++ type :: rest) dz nov st
      = (Raise e, st')
      /\ w_requested (l_world st')
         = w_requested (l_world st)
           ++ map count_path types ++ [count_path type]
      /\ l_console st'
         = l_console st
           ++ [MsgFetchingList base_uri;
               MsgTypesOnServer
                 (Z.of_nat (List.length (types ++ type :: rest)))].
Proof.
  intros base_uri types totals type rest dz nov st srv1 srv2 r e
    Ha Hc Hreq Hfail.
  unfold list_resources.
  match goal with
  | |- context [count_all dz nov ?t _ 0 ?s] =>
      destruct (count_types_app dz nov t _ _ _ _ (type :: rest) Ha Hc 0 s
                  eq_refl) as (st2 & Hrun & Hs & Hr & Hl)
  end.
  rewrite Hrun. cbn [count_types]. fold (count_path type).
  unfold bundle_read_from.
  pose proof (count_path_not_empty type) as Hne.
  apply String.eqb_neq in Hne. rewrite Hne, Hs, Hreq.
  destruct Hfail as [->|(b & -> & Ht & -> & ->)].
  - eexists. split; [reflexivity|]. cbn [l_world l_console w_requested].
    rewrite Hr, Hl. simpl. now rewrite <- app_assoc.
  - rewrite Ht. cbn [row_wanted].
    eexists. split; [reflexivity|]. cbn [l_world l_console w_requested].
    rewrite Hr, Hl. simpl. now rewrite <- app_assoc.
Qed.
End ListingFacts.

(** ** [list_structure_definitions] *)

Section DefinitionFacts.
Variable Resource : Type.
Variable Server : Type.
Variable request :
  string -> bool -> Server -> (exn + Bundle Resource) * Server.
Variable name_of : Resource -> exn + option string.
Variable type_of : Resource -> exn + option string.
Variable url_of : Resource -> exn + option string.
Variable as_json : Resource -> json.
Variable table_error : list definition_row -> option exn.

Local Abbreviation add_row := (add_definition_row name_of type_of url_of).
Local Abbreviation row_of := (row_of_record name_of type_of url_of).

(** Records that were all delivered have each added its row. *)
Lemma deliver_rows (records : list Resource) :
  forall table table',
    deliver as_json add_row false records table = (table', None) ->
    exists rows,
      table' = table ++ rows /\ Forall2 row_of records rows.
Proof.
  induction records as [|r records IH]; intros table table' H.
  - inversion H; subst. exists []. rewrite app_nil_r. auto.
  - cbn [deliver add_definition_row] in H.
    destruct (name_of r) as [e|name] eqn:Hn; [discriminate|].
    destruct (type_of r) as [e|type] eqn:Ht; [discriminate|].
    destruct (url_of r) as [e|url] eqn:Hu; [discriminate|].
    apply IH in H. destruct H as (rows & -> & Hrows).
    exists ((name, type, url) :: rows). rewrite <- app_assoc.
    split; [reflexivity|]. constructor; [|exact Hrows].
    unfold row_of_record. simpl. auto.
Qed.

(** X14: whenever [list_structure_definitions] returns 0, the table it
    prints last has one row for each record of the pages read from the
    server, in the order read, made of the [name], [type] and [url] of
    the record, and the count that [fetch_resources] printed before it is
    the number of rows.  The pages are those of [fetched]: each is what
    [bundle_read_from] gave at its path, from the count query on, and the
    requests are the count query and the paths of the loop.  The only
    line that can stand between the opening lines and the count is the
    one of a validation error, since no limit is set. *)
Theorem definitions_table_lists_what_was_received :
  forall (fuel : nat) (base base_uri : string) (nov : bool)
         (st st' : listing Server definition_row),
    list_structure_definitions request name_of type_of url_of as_json
      table_error fuel base base_uri nov st = Some (Return 0, st') ->
    exists (count : Bundle Resource)
           (pages : list (string * Bundle Resource))
           (paths : list string) (closing : list message)
           (rows : list definition_row),
      fetched request as_json add_row base None nov false
        "StructureDefinition" (definitions_world st) count pages paths
        closing
      /\ Forall2 row_of (all_entries pages) rows
      /\ l_console st'
         = l_console st
           ++ MsgFetchingDefinitions base_uri
              :: MsgOfFetch
                   (MsgFetching (total count) "StructureDefinition")
              :: (if nov then [MsgOfFetch MsgNoValidationNotice] else [])
           ++ map MsgOfFetch closing
           ++ [MsgOfFetch
                 (MsgReceived (Z.of_nat (List.length rows))
                    (total count));
               MsgEmptyLine; MsgDefinitionTable rows]
      /\ w_requested (l_world st')
         = w_requested (l_world st)
           ++ count_path "StructureDefinition" :: paths
      /\ (closing = [] \/ closing = [MsgValidationError])
      /\ table_error rows = None.
Proof.
  intros fuel base base_uri nov st st' H.
  unfold list_structure_definitions in H.
  destruct (fetch_resources request as_json add_row fuel base
              "StructureDefinition" None nov false (definitions_world st))
    as [[[status|e] w1]|] eqn:Hf; [|discriminate|discriminate].
  destruct (status =? 0) eqn:Hs; [|discriminate].
  apply Z.eqb_eq in Hs. subst status.
  destruct (table_error (w_sink w1)) as [e|] eqn:Htable; [discriminate|].
  inversion H; subst st'; clear H.
  apply fetch_resources_returns_0 in Hf.
  destruct Hf as (count & pages & paths & closing & Hfetched & Hd & Hc
                  & Hreq).
  cbn [w_sink w_console w_requested definitions_world] in Hd, Hc, Hreq.
  apply deliver_rows in Hd. destruct Hd as (rows & Hrows & Hall).
  simpl in Hrows.
  exists count, pages, paths, closing, rows.
  split; [exact Hfetched|]. split; [exact Hall|].
  assert (Hlen : List.length (all_entries pages) = List.length rows)
    by (eapply Forall2_length; exact Hall).
  split; [|split; [|split]].
  - cbn [l_console]. rewrite Hc, Hrows, Hlen.
    destruct nov; simpl; rewrite !map_app; simpl;
      repeat (rewrite <- app_assoc; simpl); reflexivity.
  - exact Hreq.
  - destruct Hfetched as (w0 & front & u & r & w2 & last & _ & _ & _ & _
                          & Hlast).
    destruct Hlast as [(_ & _ & ->)|(b & _ & _ & Hend)]; auto.
    destruct Hend as [[_ ->]|(l & Hl & _)]; auto. discriminate.
  - now rewrite <- Hrows.
Qed.
End DefinitionFacts.

(** ** [inspect_resource] *)

Section InspectRuns.
Variable gray : string.
Variable Resource : Type.
Variable Server : Type.
Variable request :
  string -> bool -> Server -> (exn + Bundle Resource) * Server.
Variable as_json : Resource -> json.
Variable markup_error : message -> option exn.

Local Abbreviation inspect_run :=
  (inspect_resource gray request as_json markup_error).

(** X15: whenever [inspect_resource] returns 0, the tree it prints is the
    rendering of the tree that folding every record of the pages read
    from the server, in the order read and without an exception, built
    from the empty dictionary.  The pages are those of [fetched]: each is
    what [bundle_read_from] gave at its path, from the count query on,
    and the requests are the count query and the paths of the loop.  The
    line before the empty line and the tree reports the number of these
    records, and the tree is left as the rendering left it. *)
Theorem inspect_resource_shows_the_fold_of_what_was_received :
  forall (fuel : nat) (base resource_type : string) (limit : option Z)
         (inspect : bool) (max_level : Z) (nov : bool)
         (w w' : world Server node),
    inspect_run fuel base resource_type limit inspect max_level nov w
    = Some (Return 0, w') ->
    exists (count : Bundle Resource)
           (pages : list (string * Bundle Resource))
           (paths : list string) (closing : list message) (items : node),
      fetched request as_json (call_process_entry inspect max_level) base
        limit nov true resource_type
        (with_sink (Branch []) (print (MsgInspecting resource_type) w))
        count pages paths closing
      /\ profile_of as_json inspect max_level (all_entries pages)
         = (items, None)
      /\ w_console w'
         = w_console w
           ++ MsgInspecting resource_type
              :: MsgFetching (total count) resource_type
              :: (if nov then [MsgNoValidationNotice] else [])
           ++ closing
           ++ [MsgReceived (Z.of_nat (List.length (all_entries pages)))
                 (total count);
               MsgBlank;
               MsgTree
                 (RTree ("[bold]" ++ resource_type)
                    (fst (build_tree inspect max_item_count gray items)))]
           ++ (if inspect then [MsgValuesNotice] else [])
      /\ w_sink w' = snd (build_tree inspect max_item_count gray items)
      /\ w_requested w'
         = w_requested w ++ count_path resource_type :: paths.
Proof.
  intros fuel base resource_type limit inspect max_level nov w w' H.
  unfold inspect_resource, print_markup in H.
  destruct (markup_error (MsgInspecting resource_type)); [discriminate|].
  match type of H with
  | context [fetch_resources ?rq ?aj ?f fuel base resource_type limit nov
               true ?w0] =>
      destruct (fetch_resources rq aj f fuel base resource_type limit nov
                  true w0) as [[[status|e] w1]|] eqn:Hf;
        [|discriminate|discriminate]
  end.
  destruct (status =? 0) eqn:Hs; [|discriminate].
  apply Z.eqb_eq in Hs. subst status.
  apply fetch_resources_returns_0 in Hf.
  destruct Hf as (count & pages & paths & closing & Hfetched & Hd & Hc
                  & Hreq).
  cbn [w_sink w_console w_requested with_sink print] in Hd, Hc, Hreq.
  exists count, pages, paths, closing, (w_sink w1).
  split; [exact Hfetched|]. split; [exact Hd|].
  destruct (build_tree inspect max_item_count gray (w_sink w1))
    as [added items] eqn:Hb.
  destruct (markup_error (MsgTree (RTree ("[bold]" ++ resource_type) added)));
    [discriminate|].
  inversion H; subst w'; clear H. cbn [fst snd].
  split; [|split].
  - destruct inspect; simpl; rewrite Hc; rewrite <- !app_assoc; simpl;
      rewrite <- ?app_assoc; reflexivity.
  - destruct inspect; reflexivity.
  - destruct inspect; exact Hreq.
Qed.

(** X16: unless [inspect_resource] returns 0, it prints no tree.  When it
    returns another status, that status is 1, the items are still the
    empty dictionary and after the opening line nothing was printed but
    the one line of [fetch_resources] about the count query.  When it
    raises, whether from the fetch or from a print that [rich] refuses,
    neither a tree nor the values notice is among the lines printed. *)
Theorem inspect_resource_shows_no_tree_otherwise :
  forall (fuel : nat) (base resource_type : string) (limit : option Z)
         (inspect : bool) (max_level : Z) (nov : bool)
         (w w' : world Server node) (out : outcome),
    inspect_run fuel base resource_type limit inspect max_level nov w
    = Some (out, w') ->
    out <> Return 0 ->
    exists added,
      w_console w' = w_console w ++ added
      /\ (forall tree, ~ In (MsgTree tree) added)
      /\ ~ In MsgValuesNotice added
      /\ (forall status,
            out = Return status ->
            status = 1
            /\ w_sink w' = Branch []
            /\ exists m,
                 added = [MsgInspecting resource_type; m]
                 /\ (m = MsgNoResources resource_type
                     \/ exists e, m = MsgReadError e)).
Proof.
  intros fuel base resource_type limit inspect max_level nov w w' out H
    Hout.
  set (plain := fun m : message =>
                  match m with
                  | MsgTree _ | MsgValuesNotice => False
                  | _ => True
                  end).
  assert (Hplain : forall added,
             Forall plain added ->
             (forall tree, ~ In (MsgTree tree) added)
             /\ ~ In MsgValuesNotice added).
  { intros added Hall. rewrite Forall_forall in Hall.
    split; [intros tree Hm | intros Hm]; apply Hall in Hm; exact Hm. }
  unfold inspect_resource, print_markup in H.
  destruct (markup_error (MsgInspecting resource_type)) as [e0|].
  { inversion H; subst. exists []. rewrite app_nil_r.
    split; [reflexivity|].
    destruct (Hplain [] (Forall_nil plain)) as [Ht Hn].
    split; [exact Ht|]. split; [exact Hn|].
    intros status Hs. discriminate. }
  match type of H with
  | context [fetch_resources ?rq ?aj ?f fuel base resource_type limit nov
               true ?w0] =>
      destruct (fetch_resources rq aj f fuel base resource_type limit nov
                  true w0) as [[[status|e] w1]|] eqn:Hf; [| |discriminate]
  end.
  - destruct (status =? 0) eqn:Hs.
    + apply Z.eqb_eq in Hs. subst status.
      apply fetch_resources_returns_0 in Hf.
      destruct Hf as (count & pages & paths & closing & Hfetched & _ & Hc
                      & _).
      cbn [w_console with_sink print] in Hc.
      destruct (build_tree inspect max_item_count gray (w_sink w1))
        as [added items].
      destruct (markup_error
                  (MsgTree (RTree ("[bold]" ++ resource_type) added)))
        as [e|]; inversion H; subst; [|congruence].
      assert (Hclosing : closing = [] \/ closing = [MsgValidationError]
                         \/ exists l, closing = [MsgReachedLimit l]).
      { destruct Hfetched as (w0 & front & u & r & w2 & last & _ & _ & _
                              & _ & Hlast).
        destruct Hlast as [(_ & _ & ->)|(b & _ & _ & Hend)]; auto.
        destruct Hend as [[_ ->]|(l & _ & _ & ->)]; eauto. }
      set (printed := [MsgInspecting resource_type]
                      ++ MsgFetching (total count) resource_type
                         :: (if nov then [MsgNoValidationNotice] else [])
                      ++ closing
                      ++ [MsgReceived
                            (Z.of_nat (List.length (all_entries pages)))
                            (total count)]
                      ++ [MsgBlank]).
      exists printed. split.
      { cbn [w_console with_sink print]. rewrite Hc. subst printed.
        repeat (rewrite <- app_assoc; simpl). reflexivity. }
      destruct (Hplain printed) as [Ht Hn].
      { subst printed.
        destruct nov; destruct Hclosing as [->|[->|(l & ->)]]; simpl;
          repeat constructor. }
      split; [exact Ht|]. split; [exact Hn|].
      intros status Hs. discriminate.
    + apply Z.eqb_neq in Hs. inversion H; subst out w'; clear H.
      apply fetch_resources_returns_1 in Hf; [|exact Hs].
      destruct Hf as (Hone & Hsink & _ & _ & (m & Hc & Hm) & _).
      cbn [w_console w_sink with_sink print] in Hc, Hsink.
      exists [MsgInspecting resource_type; m]. split.
      { rewrite Hc. now rewrite <- app_assoc. }
      destruct (Hplain [MsgInspecting resource_type; m]) as [Ht Hn].
      { destruct Hm as [->|(e & ->)]; repeat constructor. }
      split; [exact Ht|]. split; [exact Hn|].
      intros status' Hst. inversion Hst.
      split; [congruence|]. split; [exact Hsink|]. now exists m.
  - inversion H; subst out w'; clear H.
    apply fetch_resources_raises in Hf.
    destruct Hf as (count & _ & Hc).
    cbn [w_console with_sink print] in Hc.
    exists (MsgInspecting resource_type
            :: MsgFetching (total count) resource_type
            :: (if nov then [MsgNoValidationNotice] else [])).
    split; [rewrite Hc; now rewrite <- app_assoc|].
    destruct (Hplain
                (MsgInspecting resource_type
                 :: MsgFetching (total count) resource_type
                 :: (if nov then [MsgNoValidationNotice] else [])))
      as [Ht Hn].
    { destruct nov; repeat constructor. }
    split; [exact Ht|]. split; [exact Hn|].
    intros status Hs. discriminate.
Qed.
End InspectRuns.

(** ** Examples for the listings and [inspect_resource] *)


Lemma list_resources_stops_at_the_first_failure_witness :
  exists st',
    list_resources (table_request type_counts) "http://srv/fhir"
      (["Patient"; "Observation"] ++ "Device" :: ["Encounter"])
      false false fresh_listing
    = (Raise FHIRValidationError, st')
    /\ w_requested (l_world st')
       = [] ++ map count_path ["Patient"; "Observation"]%string
         ++ [count_path "Device"]
    /\ l_console st'
       = [] ++ [MsgFetchingList "http://srv/fhir";
                MsgTypesOnServer
                  (Z.of_nat
                     (List.length
                        (["Patient"; "Observation"]
                         ++ "Device" :: ["Encounter"])))].
Proof.
  apply (list_resources_stops_at_the_first_failure
           json unit (table_request type_counts) "http://srv/fhir"
           ["Patient"; "Observation"]%string [Some 3; Some 0]
           "Device" ["Encounter"%string] false false fresh_listing tt tt
           (inl FHIRValidationError) FHIRValidationError).
  - apply counted_type with (b := count_only 3) (srv1 := tt);
      [reflexivity|].
    apply counted_type with (b := count_only 0) (srv1 := tt);
      [reflexivity|].
    apply counted_none.
  - right. repeat constructor; discriminate.
  - reflexivity.
  - left. reflexivity.
Defined.

Lemma definitions_table_lists_what_was_received_witness :
  exists st',
    list_structure_definitions (table_request two_definitions)
      (attribute "name") (attribute "type") (attribute "url") as_is
      table_accepted 1 "http://srv/fhir" "http://srv/fhir" false
      fresh_listing
    = Some (Return 0, st')
    /\ exists (count : Bundle json) (pages : list (string * Bundle json))
              (paths : list string) (closing : list message)
              (rows : list definition_row),
         fetched (table_request two_definitions) as_is
           (add_definition_row (attribute "name") (attribute "type")
              (attribute "url"))
           "http://srv/fhir" None false false "StructureDefinition"
           (definitions_world fresh_listing) count pages paths closing
         /\ Forall2
              (row_of_record (attribute "name") (attribute "type")
                 (attribute "url")) (all_entries pages) rows
         /\ l_console st'
            = [] ++ MsgFetchingDefinitions "http://srv/fhir"
              :: MsgOfFetch
                   (MsgFetching (total count) "StructureDefinition")
              :: [] ++ map MsgOfFetch closing
              ++ [MsgOfFetch
                    (MsgReceived (Z.of_nat (List.length rows))
                       (total count));
                  MsgEmptyLine; MsgDefinitionTable rows]
         /\ w_requested (l_world st')
            = [] ++ count_path "StructureDefinition" :: paths
         /\ (closing = [] \/ closing = [MsgValidationError])
         /\ table_accepted rows = None.
Proof.
  eexists. split.
  - vm_compute. reflexivity.
  - apply (definitions_table_lists_what_was_received
             json unit (table_request two_definitions)
             (attribute "name") (attribute "type") (attribute "url")
             as_is table_accepted 1 "http://srv/fhir" "http://srv/fhir"
             false fresh_listing).
    vm_compute. reflexivity.
Defined.

Lemma inspect_resource_shows_the_fold_of_what_was_received_witness :
  exists w',
    inspect_resource "white" (table_request second_page_invalid) as_is
      markup_accepted 2 "http://srv/fhir" "Patient" None true 9 false
      (fresh (Branch []))
    = Some (Return 0, w')
    /\ exists (count : Bundle json) (pages : list (string * Bundle json))
              (paths : list string) (closing : list message)
              (items : node),
         fetched (table_request second_page_invalid) as_is
           (call_process_entry true 9) "http://srv/fhir" None false true
           "Patient"
           (with_sink (Branch [])
              (print (MsgInspecting "Patient") (fresh (Branch []))))
           count pages paths closing
         /\ profile_of as_is true 9 (all_entries pages) = (items, None)
         /\ w_console w'
            = [] ++ MsgInspecting "Patient"
              :: MsgFetching (total count) "Patient"
              :: [] ++ closing
              ++ [MsgReceived (Z.of_nat (List.length (all_entries pages)))
                    (total count);
                  MsgBlank;
                  MsgTree
                    (RTree "[bold]Patient"
                       (fst (build_tree true max_item_count "white"
                               items)))]
              ++ [MsgValuesNotice]
         /\ w_sink w' = snd (build_tree true max_item_count "white" items)
         /\ w_requested w' = [] ++ count_path "Patient" :: paths.
Proof.
  eexists. split.
  - vm_compute. reflexivity.
  - apply (inspect_resource_shows_the_fold_of_what_was_received
             "white" json unit (table_request second_page_invalid) as_is
             markup_accepted 2 "http://srv/fhir" "Patient" None true 9
             false (fresh (Branch []))).
    vm_compute. reflexivity.
Defined.

Lemma inspect_resource_shows_no_tree_otherwise_witness :
  exists e w',
    inspect_resource "white" (table_request unmatched_tag) as_is
      refuses_the_tree 1 "http://srv/fhir" "Patient" None true 9 false
      (fresh (Branch []))
    = Some (Raise e, w')
    /\ exists added,
         w_console w' = [] ++ added
         /\ (forall tree, ~ In (MsgTree tree) added)
         /\ ~ In MsgValuesNotice added
         /\ (forall status,
               Raise e = Return status ->
               status = 1
               /\ w_sink w' = Branch []
               /\ exists m,
                    added = [MsgInspecting "Patient"; m]
                    /\ (m = MsgNoResources "Patient"
                        \/ exists e', m = MsgReadError e')).
Proof.
  eexists. eexists. split.
  - vm_compute. reflexivity.
  - apply (inspect_resource_shows_no_tree_otherwise
             "white" json unit (table_request unmatched_tag) as_is
             refuses_the_tree 1 "http://srv/fhir" "Patient" None true 9
             false (fresh (Branch []))).
    + vm_compute. reflexivity.
    + discriminate.
Defined.
